(** * Aggregation core of the security dashboard (src/unnamed/part_001)

    Shallow embedding of [processActivityData], [processGuardData],
    [processLocationCoverage] and [calculateComplianceMetrics].

    - JavaScript numbers are modelled by [jsnum]: a finite value (a rational,
      the dashboard only ever forms quotients of counts), an infinity, or NaN.
      Quotients are exact; rounding errors of binary floating point are not
      modelled.
    - A decoded CSV row (a papaparse record with [header: true]) is a [Row]:
      every column the core reads, [None] standing for [undefined].
    - A plain JS object used as a map is an association list in insertion
      order; a lookup also sees the properties every object inherits from
      [Object.prototype], as the source's [obj[key]] does. *)

From Stdlib Require Import String Ascii List ZArith QArith Qround Qminmax.
From Stdlib Require Import Permutation Sorted Lia Bool Lqa.
Import ListNotations.
Open Scope string_scope.

(** ** JavaScript numbers *)

Inductive jsnum : Type :=
| JNum (q : Q)
| JInf (pos : bool)
| JNaN.

Definition js_of_nat (n : nat) : jsnum := JNum (inject_Z (Z.of_nat n)).

Definition js_add (a b : jsnum) : jsnum :=
  match a, b with
  | JNum x, JNum y => JNum (x + y)
  | JNaN, _ | _, JNaN => JNaN
  | JInf p, JInf p' => if Bool.eqb p p' then JInf p else JNaN
  | JInf p, _ | _, JInf p => JInf p
  end.

Definition js_sub (a b : jsnum) : jsnum :=
  match b with
  | JNum y => js_add a (JNum (- y))
  | JInf p => js_add a (JInf (negb p))
  | JNaN => JNaN
  end.

(** sign of a finite value, [None] for zero *)
Definition q_sign (x : Q) : option bool :=
  if Qeq_bool x 0 then None else Some (Qle_bool 0 x).

Definition js_mul (a b : jsnum) : jsnum :=
  match a, b with
  | JNum x, JNum y => JNum (x * y)
  | JNaN, _ | _, JNaN => JNaN
  | JInf p, JInf p' => JInf (Bool.eqb p p')
  | JInf p, JNum y | JNum y, JInf p =>
      match q_sign y with None => JNaN | Some s => JInf (Bool.eqb p s) end
  end.

Definition js_div (a b : jsnum) : jsnum :=
  match a, b with
  | JNum x, JNum y =>
      if Qeq_bool y 0 then
        match q_sign x with None => JNaN | Some s => JInf s end
      else JNum (x / y)
  | JNaN, _ | _, JNaN => JNaN
  | JInf _, JInf _ => JNaN
  | JNum _, JInf _ => JNum 0
  | JInf p, JNum y =>
      match q_sign y with None => JInf p | Some s => JInf (Bool.eqb p s) end
  end.

(** [Math.round]: the nearest integer, halves rounded towards +infinity *)
Definition js_round_q (x : Q) : Z := Qfloor (x + (1 # 2)).

Definition Math_round (a : jsnum) : jsnum :=
  match a with
  | JNum x => JNum (inject_Z (js_round_q x))
  | other => other
  end.

Definition Math_min (a b : jsnum) : jsnum :=
  match a, b with
  | JNaN, _ | _, JNaN => JNaN
  | JNum x, JNum y => JNum (Qmin x y)
  | JInf false, _ | _, JInf false => JInf false
  | JInf true, y => y
  | x, JInf true => x
  end.

Definition isNaN (a : jsnum) : bool :=
  match a with JNaN => true | _ => false end.

(** [a >= c] and [a <= c] against a numeric literal, [a > 0] *)
Definition js_ge (a : jsnum) (c : Q) : bool :=
  match a with JNum x => Qle_bool c x | JInf p => p | JNaN => false end.

Definition js_le (a : jsnum) (c : Q) : bool :=
  match a with JNum x => Qle_bool x c | JInf p => negb p | JNaN => false end.

Definition js_pos (a : jsnum) : bool :=
  match a with JNum x => negb (Qle_bool x 0) | JInf p => p | JNaN => false end.

(** [===] on numbers: NaN is equal to nothing *)
Definition js_num_eq (a b : jsnum) : bool :=
  match a, b with
  | JNum x, JNum y => Qeq_bool x y
  | JInf p, JInf p' => Bool.eqb p p'
  | _, _ => false
  end.

(** ** Field values *)

(** truthiness of a field that is a string or [undefined] *)
Definition truthy (v : option string) : bool :=
  match v with Some s => negb (String.eqb s "") | None => false end.

(** [field === "lit"] *)
Definition str_is (v : option string) (lit : string) : bool :=
  match v with Some s => String.eqb s lit | None => false end.

(** [s.includes(pat)] *)
Fixpoint includes (s pat : string) : bool :=
  if String.prefix pat s then true
  else match s with EmptyString => false | String _ s' => includes s' pat end.

Record Row : Type := mkRow {
  date_time : option string;          (* 'Date/Time' *)
  time_accuracy : option string;      (* 'Time Accuracy' *)
  location_accuracy : option string;  (* 'Location Accuracy' *)
  service_number : option string;     (* 'Service Number' *)
  full_name : option string;          (* 'Full Name' *)
  post_name : option string;          (* 'Post Name' *)
  late_hours : option string;         (* 'Late Hours' *)
  duty_hours : option string          (* 'Duty Hours' *)
}.

Definition empty_row : Row :=
  mkRow None None None None None None None None.

(** ** [Array.prototype.sort] with a comparator

    A stable insertion sort: [b] is placed before [a] exactly when
    [compare a b > 0], as the engine's (stable) sort does for a consistent
    comparator. *)

Section Sort.
Context {A : Type} (compare : A -> A -> jsnum).

Fixpoint sort_insert (x : A) (l : list A) : list A :=
  match l with
  | [] => [x]
  | y :: l' => if js_pos (compare y x) then x :: y :: l' else y :: sort_insert x l'
  end.

Definition js_sort (l : list A) : list A :=
  fold_left (fun acc x => sort_insert x acc) l [].

End Sort.

(** ** Plain objects used as maps

    An object is the list of its own properties in insertion order. A read
    [obj[key]] finds an own property, or else one of the properties every
    object inherits from [Object.prototype] (all of them truthy). *)

Definition object_prototype_keys : list string :=
  ["constructor"; "__defineGetter__"; "__defineSetter__"; "hasOwnProperty";
   "__lookupGetter__"; "__lookupSetter__"; "isPrototypeOf";
   "propertyIsEnumerable"; "toString"; "valueOf"; "__proto__";
   "toLocaleString"].

Inductive lookup_result (V : Type) : Type :=
| Own (v : V)
| Inherited
| Absent.
Arguments Own {V} v.
Arguments Inherited {V}.
Arguments Absent {V}.

Fixpoint assoc_find {V} (k : string) (m : list (string * V)) : option V :=
  match m with
  | [] => None
  | (k', v) :: m' => if String.eqb k k' then Some v else assoc_find k m'
  end.

Definition obj_get {V} (m : list (string * V)) (k : string) : lookup_result V :=
  match assoc_find k m with
  | Some v => Own v
  | None => if existsb (String.eqb k) object_prototype_keys then Inherited else Absent
  end.

(** [obj[key] = v]: overwrite an own property or append a new one *)
Fixpoint obj_set {V} (m : list (string * V)) (k : string) (v : V) : list (string * V) :=
  match m with
  | [] => [(k, v)]
  | (k', v') :: m' => if String.eqb k k' then (k', v) :: m' else (k', v') :: obj_set m' k v
  end.

Definition is_digit (c : ascii) : bool :=
  (48 <=? nat_of_ascii c)%nat && (nat_of_ascii c <=? 57)%nat.

Definition digit_value (c : ascii) : N := N.of_nat (nat_of_ascii c - 48).

Fixpoint digits_value (s : string) (acc : N) : option N :=
  match s with
  | EmptyString => Some acc
  | String c s' => if is_digit c then digits_value s' (acc * 10 + digit_value c)%N else None
  end.

(** canonical array index: the keys [Object.values] lists first, ascending *)
Definition array_index (s : string) : option N :=
  match s with
  | EmptyString => None
  | String c s' =>
      if (nat_of_ascii c =? 48)%nat then
        (if String.eqb s' "" then Some 0%N else None)
      else match digits_value s 0%N with
           | Some n => if (n <? 4294967295)%N then Some n else None
           | None => None
           end
  end.

Definition index_entries {V} (m : list (string * V)) : list (N * V) :=
  flat_map (fun kv => match array_index (fst kv) with Some n => [(n, snd kv)] | None => [] end) m.

Definition other_entries {V} (m : list (string * V)) : list V :=
  flat_map (fun kv => match array_index (fst kv) with Some _ => [] | None => [snd kv] end) m.

(** [Object.values(obj)] *)
Definition object_values {V} (m : list (string * V)) : list V :=
  map snd (js_sort (fun a b : N * V => JNum (inject_Z (Z.of_N (fst a) - Z.of_N (fst b))))
             (index_entries m))
  ++ other_entries m.

(** ** Hourly Activity Aggregator: [processActivityData] *)

Module Hourly.

Record bucket : Type := mkBucket {
  hour : jsnum;
  total : nat;
  onTime : nat;
  locationAccurate : nat;
  delayed : nat;
  complianceRate : jsnum
}.

Record metrics : Type := mkMetrics {
  m_total : nat;
  m_onTime : nat;
  m_locationAccurate : nat;
  m_delayed : nat
}.

Section Activity.
(** [parseInt(s)] *)
Variable parseInt : string -> jsnum.
(** [new Date(s).getHours()] *)
Variable getHours : string -> jsnum.

Definition metrics_of (curr : Row) : metrics :=
  mkMetrics 1
    (if str_is (time_accuracy curr) "On Time" then 1 else 0)
    (match location_accuracy curr with
     | Some s => if truthy (Some s) && js_le (parseInt s) 20 then 1 else 0
     | None => 0
     end)
    (match time_accuracy curr with
     | Some s => if includes s "Delay" then 1 else 0
     | None => 0
     end).

Definition add_metrics (b : bucket) (m : metrics) : bucket :=
  mkBucket (hour b) (total b + m_total m) (onTime b + m_onTime m)
    (locationAccurate b + m_locationAccurate m) (delayed b + m_delayed m)
    (complianceRate b).

(** [acc.find(item => item.hour === hour)], then the found bucket mutated *)
Fixpoint update_existing (h : jsnum) (m : metrics) (acc : list bucket) : option (list bucket) :=
  match acc with
  | [] => None
  | b :: rest =>
      if js_num_eq (hour b) h then Some (add_metrics b m :: rest)
      else option_map (cons b) (update_existing h m rest)
  end.

Definition new_bucket (h : jsnum) (m : metrics) : bucket :=
  mkBucket h (m_total m) (m_onTime m) (m_locationAccurate m) (m_delayed m)
    (Math_round (js_mul (js_div (js_add (js_of_nat (m_onTime m)) (js_of_nat (m_locationAccurate m)))
                                (js_mul (JNum 2) (js_of_nat (m_total m))))
                        (JNum 100))).

Definition step (acc : list bucket) (curr : Row) : list bucket :=
  match date_time curr with
  | None => acc
  | Some s =>
      if String.eqb s "" then acc
      else
        let h := getHours s in
        let m := metrics_of curr in
        match update_existing h m acc with
        | Some acc' => acc'
        | None => acc ++ [new_bucket h m]
        end
  end.

Definition hour_compare (a b : bucket) : jsnum := js_sub (hour a) (hour b).

Definition processActivityData (data : list Row) : list bucket :=
  js_sort hour_compare (fold_left step data []).

End Activity.
End Hourly.

(** ** Concrete engine primitives, for evaluating the functions on examples

    [parseInt_model] reads a leading run of decimal digits, [parseFloat_model]
    a leading decimal [ddd.ddd], [getHours_model] the hour of a timestamp
    [YYYY-MM-DD HH:MM...] (or with [T]); anything else gives NaN, as the
    engine does for text that is not a number or a date. *)

Fixpoint leading_digits (s : string) (acc : N) (seen : bool) : option N * string :=
  match s with
  | String c s' =>
      if is_digit c then leading_digits s' (acc * 10 + digit_value c)%N true
      else (if seen then Some acc else None, s)
  | EmptyString => (if seen then Some acc else None, s)
  end.

Definition parseInt_model (s : string) : jsnum :=
  match fst (leading_digits s 0%N false) with
  | Some n => JNum (inject_Z (Z.of_N n))
  | None => JNaN
  end.

Fixpoint fraction_digits (s : string) (num den : N) : Q :=
  match s with
  | String c s' =>
      if is_digit c then fraction_digits s' (num * 10 + digit_value c)%N (den * 10)%N
      else Z.of_N num # Pos.of_succ_nat (N.to_nat den - 1)
  | EmptyString => Z.of_N num # Pos.of_succ_nat (N.to_nat den - 1)
  end.

Definition parseFloat_model (s : string) : jsnum :=
  match leading_digits s 0%N false with
  | (Some n, String "."%char rest) => JNum (inject_Z (Z.of_N n) + fraction_digits rest 0 1)
  | (Some n, _) => JNum (inject_Z (Z.of_N n))
  | (None, _) => JNaN
  end.

Definition digit_at (n : nat) (s : string) : option N :=
  match String.get n s with
  | Some c => if is_digit c then Some (digit_value c) else None
  | None => None
  end.

Definition getHours_model (s : string) : jsnum :=
  let date_ok :=
    forallb (fun i => match digit_at i s with Some _ => true | None => false end)
      [0; 1; 2; 3; 5; 6; 8; 9]%nat
    && (match String.get 4 s with Some "-"%char => true | _ => false end)
    && (match String.get 7 s with Some "-"%char => true | _ => false end)
    && (match String.get 10 s with Some " "%char | Some "T"%char => true | _ => false end) in
  match date_ok, digit_at 11 s, digit_at 12 s with
  | true, Some d1, Some d2 =>
      let h := (d1 * 10 + d2)%N in
      if (h <? 24)%N then JNum (inject_Z (Z.of_N h)) else JNaN
  | _, _, _ => JNaN
  end.

(** [set.add(x)] on a Set of strings or [undefined], kept in insertion order *)
Definition opt_str_eqb (a b : option string) : bool :=
  match a, b with
  | Some x, Some y => String.eqb x y
  | None, None => true
  | _, _ => false
  end.

Definition set_add (x : option string) (s : list (option string)) : list (option string) :=
  if existsb (opt_str_eqb x) s then s else s ++ [x].

(** [if (record['Duty Hours']) { hours = parseFloat(..); if (!isNaN(hours)) acc += hours }] *)
Definition add_duty_hours (parseFloat : string -> jsnum) (r : Row) (acc : jsnum) : jsnum :=
  match duty_hours r with
  | Some d =>
      if truthy (Some d) then
        let hours := parseFloat d in
        if negb (isNaN hours) then js_add acc hours else acc
      else acc
  | None => acc
  end.

(** ** Guard Aggregator: [processGuardData] *)

Module Guards.

Record shifts_t : Type := mkShifts { s_total : nat; s_onTime : nat; s_late : nat }.

Record activities_t : Type :=
  mkActivities { a_total : nat; a_onTime : nat; a_locationAccurate : nat }.

(** an entry of [guardMetrics] *)
Record guard_acc : Type := mkGuardAcc {
  id : string;
  name : string;
  shifts : shifts_t;
  activities : activities_t;
  coverage : list (option string);   (* a Set of 'Post Name' values *)
  shiftHours : jsnum
}.

Record guard_metrics : Type := mkGuardMetrics {
  attendanceRate : jsnum;
  activityComplianceRate : jsnum;
  coverageCount : nat;
  performanceScore : jsnum
}.

(** [{...guard, coverage: Array.from(guard.coverage), metrics}]: the array
    lists the Set in insertion order, which is the list [coverage] *)
Record guard_profile : Type := mkGuardProfile {
  guard : guard_acc;
  metrics : guard_metrics
}.

Section GuardData.
Variable parseInt : string -> jsnum.
Variable parseFloat : string -> jsnum.

Definition seed (guardId fullName : string) : guard_acc :=
  mkGuardAcc guardId fullName (mkShifts 0 0 0) (mkActivities 0 0 0) [] (JNum 0).

Definition attendance_update (record : Row) (g : guard_acc) : guard_acc :=
  let sh := shifts g in
  let sh' := if str_is (late_hours record) "On-time"
             then mkShifts (S (s_total sh)) (S (s_onTime sh)) (s_late sh)
             else mkShifts (S (s_total sh)) (s_onTime sh) (S (s_late sh)) in
  mkGuardAcc (id g) (name g) sh' (activities g)
    (set_add (post_name record) (coverage g))
    (add_duty_hours parseFloat record (shiftHours g)).

(** pass 1; [None] once a [TypeError] has been thrown *)
Definition attendance_step (acc : option (list (string * guard_acc))) (record : Row)
  : option (list (string * guard_acc)) :=
  match acc with
  | None => None
  | Some guardMetrics =>
      match full_name record, service_number record with
      | Some fullName, Some guardId =>
          if truthy (Some fullName) && truthy (Some guardId) then
            match obj_get guardMetrics guardId with
            | Own g => Some (obj_set guardMetrics guardId (attendance_update record g))
            | Absent =>
                Some (obj_set guardMetrics guardId
                        (attendance_update record (seed guardId fullName)))
            | Inherited => None   (* guardMetrics[guardId].shifts is undefined *)
            end
          else Some guardMetrics
      | _, _ => Some guardMetrics
      end
  end.

Definition activity_update (record : Row) (g : guard_acc) : guard_acc :=
  let ac := activities g in
  let onTime' := if str_is (time_accuracy record) "On Time" then S (a_onTime ac) else a_onTime ac in
  let locAcc' :=
    match location_accuracy record with
    | Some la =>
        if truthy (Some la) then
          let accuracy := parseInt la in
          if negb (isNaN accuracy) && js_le accuracy 20
          then S (a_locationAccurate ac) else a_locationAccurate ac
        else a_locationAccurate ac
    | None => a_locationAccurate ac
    end in
  mkGuardAcc (id g) (name g) (shifts g) (mkActivities (S (a_total ac)) onTime' locAcc')
    (coverage g) (shiftHours g).

(** pass 2 *)
Definition activity_step (acc : option (list (string * guard_acc))) (record : Row)
  : option (list (string * guard_acc)) :=
  match acc with
  | None => None
  | Some guardMetrics =>
      match service_number record with
      | Some guardId =>
          if truthy (Some guardId) then
            match obj_get guardMetrics guardId with
            | Own g => Some (obj_set guardMetrics guardId (activity_update record g))
            | Absent => Some guardMetrics
            | Inherited => None   (* guard.activities is undefined *)
            end
          else Some guardMetrics
      | None => Some guardMetrics
      end
  end.

Definition finalize (g : guard_acc) : guard_profile :=
  let sh := shifts g in
  let ac := activities g in
  let attendanceScore :=
    if (0 <? s_total sh)%nat
    then js_mul (js_div (js_of_nat (s_onTime sh)) (js_of_nat (s_total sh))) (JNum 30)
    else JNum 0 in
  let activityScore :=
    if (0 <? a_total ac)%nat
    then js_mul (js_div (js_add (js_of_nat (a_onTime ac)) (js_of_nat (a_locationAccurate ac)))
                        (js_mul (JNum 2) (js_of_nat (a_total ac))))
                (JNum 40)
    else JNum 0 in
  let coverageScore :=
    Math_min (js_mul (js_div (js_of_nat (length (coverage g))) (JNum 3)) (JNum 30)) (JNum 30) in
  let performanceScore :=
    Math_round (js_add (js_add attendanceScore activityScore) coverageScore) in
  mkGuardProfile g
    (mkGuardMetrics
       (if (0 <? s_total sh)%nat
        then Math_round (js_mul (js_div (js_of_nat (s_onTime sh)) (js_of_nat (s_total sh)))
                                (JNum 100))
        else JNum 0)
       (if (0 <? a_total ac)%nat
        then Math_round
               (js_mul (js_div (js_add (js_of_nat (a_onTime ac)) (js_of_nat (a_locationAccurate ac)))
                               (js_mul (JNum 2) (js_of_nat (a_total ac))))
                       (JNum 100))
        else JNum 0)
       (length (coverage g))
       performanceScore).

Definition performance_compare (a b : guard_profile) : jsnum :=
  js_sub (performanceScore (metrics b)) (performanceScore (metrics a)).

Definition guard_table (activityData attendanceData : list Row)
  : option (list (string * guard_acc)) :=
  fold_left activity_step activityData (fold_left attendance_step attendanceData (Some [])).

Definition processGuardData (activityData attendanceData : list Row)
  : option (list guard_profile) :=
  match guard_table activityData attendanceData with
  | Some guardMetrics => Some (js_sort performance_compare (map finalize (object_values guardMetrics)))
  | None => None
  end.

End GuardData.
End Guards.

(** ** Location Aggregator: [processLocationCoverage] *)

Module Locations.

Record loc_shifts : Type := mkLocShifts { l_total : nat; l_covered : nat; l_onTime : nat }.

(** an entry of [locationMetrics] *)
Record loc_acc : Type := mkLocAcc {
  location : string;
  shifts : loc_shifts;
  guards : list (option string);   (* a Set of 'Full Name' values *)
  shiftHours : jsnum
}.

Record loc_metrics : Type := mkLocMetrics {
  coverageRate : jsnum;
  punctualityRate : jsnum;
  guardCount : option nat;         (* [None]: the value [undefined] *)
  averageShiftHours : jsnum
}.

Record loc_profile : Type := mkLocProfile {
  loc : loc_acc;
  metrics : loc_metrics
}.

Section LocationData.
Variable parseFloat : string -> jsnum.

Definition seed (location : string) : loc_acc :=
  mkLocAcc location (mkLocShifts 0 0 0) [] (JNum 0).

Definition record_update (record : Row) (m : loc_acc) : loc_acc :=
  let sh := shifts m in
  if truthy (full_name record) then
    mkLocAcc (location m)
      (mkLocShifts (S (l_total sh)) (S (l_covered sh))
         (if str_is (late_hours record) "On-time" then S (l_onTime sh) else l_onTime sh))
      (set_add (full_name record) (guards m))
      (add_duty_hours parseFloat record (shiftHours m))
  else
    mkLocAcc (location m) (mkLocShifts (S (l_total sh)) (l_covered sh) (l_onTime sh))
      (guards m) (shiftHours m).

(** one [data.forEach] iteration; [None] once a [TypeError] has been thrown *)
Definition location_step (acc : option (list (string * loc_acc))) (record : Row)
  : option (list (string * loc_acc)) :=
  match acc with
  | None => None
  | Some locationMetrics =>
      match post_name record with
      | Some location =>
          if truthy (Some location) then
            match obj_get locationMetrics location with
            | Own m => Some (obj_set locationMetrics location (record_update record m))
            | Absent => Some (obj_set locationMetrics location (record_update record (seed location)))
            | Inherited => None   (* metrics.shifts is undefined *)
            end
          else Some locationMetrics
      | None => Some locationMetrics
      end
  end.

Definition finalize (l : loc_acc) : loc_profile :=
  let sh := shifts l in
  mkLocProfile l
    (mkLocMetrics
       (Math_round (js_mul (js_div (js_of_nat (l_covered sh)) (js_of_nat (l_total sh))) (JNum 100)))
       (if (0 <? l_covered sh)%nat
        then Math_round (js_mul (js_div (js_of_nat (l_onTime sh)) (js_of_nat (l_covered sh)))
                                (JNum 100))
        else JNum 0)
       (* [location.guards.length]: [location.guards] is still the Set here,
          and a Set has no [length] *)
       None
       (if (0 <? l_covered sh)%nat
        then js_div (Math_round (js_mul (js_div (shiftHours l) (js_of_nat (l_covered sh))) (JNum 10)))
                    (JNum 10)
        else JNum 0)).

Definition coverage_compare (a b : loc_profile) : jsnum :=
  js_sub (coverageRate (metrics b)) (coverageRate (metrics a)).

Definition location_table (data : list Row) : option (list (string * loc_acc)) :=
  fold_left location_step data (Some []).

Definition processLocationCoverage (data : list Row) : option (list loc_profile) :=
  match location_table data with
  | Some locationMetrics =>
      Some (js_sort coverage_compare (map finalize (object_values locationMetrics)))
  | None => None
  end.

End LocationData.
End Locations.

(** ** Compliance Evaluator: [calculateComplianceMetrics] *)

Module Compliance.

Record location_compliance : Type := mkLocationCompliance {
  lc_location : string;
  lc_coverageCompliance : nat;
  lc_punctualityCompliance : nat;
  lc_staffingCompliance : nat;
  lc_complianceScore : jsnum
}.

Record guard_compliance : Type := mkGuardCompliance {
  gc_name : string;
  gc_attendanceCompliance : nat;
  gc_activityCompliance : nat;
  gc_coverageCompliance : nat;
  gc_complianceScore : jsnum
}.

Record result : Type := mkResult {
  overall : jsnum;
  byLocation : list location_compliance;
  byGuard : list guard_compliance
}.

(** [v >= c] for a value that may be [undefined] (which compares as NaN) *)
Definition undef_ge (v : option nat) (c : nat) : bool :=
  match v with Some n => (c <=? n)%nat | None => false end.

Definition score3 (a b c : nat) : jsnum :=
  Math_round (js_mul (js_div (js_add (js_add (js_of_nat a) (js_of_nat b)) (js_of_nat c)) (JNum 3))
                     (JNum 100)).

Definition location_check (location : Locations.loc_profile) : location_compliance :=
  let m := Locations.metrics location in
  let cov := if js_ge (Locations.coverageRate m) 95 then 1%nat else 0%nat in
  let pun := if js_ge (Locations.punctualityRate m) 90 then 1%nat else 0%nat in
  let sta := if undef_ge (Locations.guardCount m) 2 then 1%nat else 0%nat in
  mkLocationCompliance (Locations.location (Locations.loc location)) cov pun sta
    (score3 cov pun sta).

Definition guard_check (guard : Guards.guard_profile) : guard_compliance :=
  let m := Guards.metrics guard in
  let att := if js_ge (Guards.attendanceRate m) 95 then 1%nat else 0%nat in
  let act := if js_ge (Guards.activityComplianceRate m) 90 then 1%nat else 0%nat in
  let cov := if (1 <=? Guards.coverageCount m)%nat then 1%nat else 0%nat in
  mkGuardCompliance (Guards.name (Guards.guard guard)) att act cov (score3 att act cov).

Definition location_passed (c : location_compliance) : nat :=
  lc_coverageCompliance c + lc_punctualityCompliance c + lc_staffingCompliance c.

Definition guard_passed (c : guard_compliance) : nat :=
  gc_attendanceCompliance c + gc_activityCompliance c + gc_coverageCompliance c.

(** [overallMetrics] after both [map] passes: (totalChecks, passedChecks) *)
Definition overall_counts (locationCompliance : list location_compliance)
    (guardCompliance : list guard_compliance) : nat * nat :=
  let after_locations :=
    fold_left (fun acc c => (fst acc + 3, snd acc + location_passed c)%nat)
      locationCompliance (0, 0)%nat in
  fold_left (fun acc c => (fst acc + 3, snd acc + guard_passed c)%nat)
    guardCompliance after_locations.

Definition calculateComplianceMetrics (activities : list Hourly.bucket)
    (locations : list Locations.loc_profile) (guards : list Guards.guard_profile) : result :=
  let locationCompliance := map location_check locations in
  let guardCompliance := map guard_check guards in
  let counts := overall_counts locationCompliance guardCompliance in
  mkResult
    (Math_round (js_mul (js_div (js_of_nat (snd counts)) (js_of_nat (fst counts))) (JNum 100)))
    locationCompliance guardCompliance.

End Compliance.

(** ** The processing part of [loadData], after the date filter *)

Record dashboard : Type := mkDashboard {
  processedActivityData : list Hourly.bucket;
  locationCoverage : list Locations.loc_profile;
  guardStatistics : list Guards.guard_profile;
  compliance : Compliance.result
}.

Section LoadData.
Variable parseInt : string -> jsnum.
Variable parseFloat : string -> jsnum.
Variable getHours : string -> jsnum.

(** [None]: an exception was thrown and [loadData] shows its error state *)
Definition process_all (filteredActivityData filteredAttendanceData : list Row)
  : option dashboard :=
  let processedActivityData := Hourly.processActivityData parseInt getHours filteredActivityData in
  match Locations.processLocationCoverage parseFloat filteredAttendanceData with
  | None => None
  | Some locationCoverage =>
      match Guards.processGuardData parseInt parseFloat filteredActivityData filteredAttendanceData with
      | None => None
      | Some guardStatistics =>
          Some (mkDashboard processedActivityData locationCoverage guardStatistics
                  (Compliance.calculateComplianceMetrics processedActivityData
                     locationCoverage guardStatistics))
      end
  end.

End LoadData.

(** ** The performance score as the spec writes it (section 4.2) *)

Module SpecScore.
Import Guards.

Definition attendanceScore (g : guard_acc) : Q :=
  if (s_total (shifts g) =? 0)%nat then 0
  else 30 * inject_Z (Z.of_nat (s_onTime (shifts g))) / inject_Z (Z.of_nat (s_total (shifts g))).

Definition activityScore (g : guard_acc) : Q :=
  if (a_total (activities g) =? 0)%nat then 0
  else 40 * (inject_Z (Z.of_nat (a_onTime (activities g)))
             + inject_Z (Z.of_nat (a_locationAccurate (activities g))))
       / (2 * inject_Z (Z.of_nat (a_total (activities g)))).

Definition coverageScore (g : guard_acc) : Q :=
  Qmin 30 (30 * inject_Z (Z.of_nat (length (coverage g))) / 3).

(** [round(attendanceScore + activityScore + coverageScore)] *)
Definition performanceScore (g : guard_acc) : Z :=
  js_round_q (attendanceScore g + activityScore g + coverageScore g).

End SpecScore.

(** ** The location counters as the spec writes them (section 4.3) *)

Module SpecLocation.

Definition at_post (k : string) (r : Row) : bool := str_is (post_name r) k.

Definition guarded_at (k : string) (r : Row) : bool := at_post k r && truthy (full_name r).

(** every record with the post name *)
Definition total (data : list Row) (k : string) : nat :=
  length (filter (at_post k) data).

(** records with the post name that also carry a guard display name *)
Definition covered (data : list Row) (k : string) : nat :=
  length (filter (guarded_at k) data).

Definition onTime (data : list Row) (k : string) : nat :=
  length (filter (fun r => guarded_at k r && str_is (late_hours r) "On-time") data).

(** duty hours summed over the guarded records only *)
Definition dutyHours (parseFloat : string -> jsnum) (data : list Row) (k : string) : jsnum :=
  fold_left (fun acc r => add_duty_hours parseFloat r acc) (filter (guarded_at k) data) (JNum 0).

(** [round(100 * onTime / covered)] if [covered > 0], else 0 *)
Definition punctualityRate (covered onTime : nat) : jsnum :=
  if (covered =? 0)%nat then JNum 0
  else JNum (inject_Z (js_round_q (100 * inject_Z (Z.of_nat onTime) / inject_Z (Z.of_nat covered)))).

End SpecLocation.

(** ** Activity rows the attendance pass has not seeded *)

(** the table after pass 1 of [processGuardData] *)
Definition attendance_pass (parseFloat : string -> jsnum) (attendanceData : list Row)
  : option (list (string * Guards.guard_acc)) :=
  fold_left (Guards.attendance_step parseFloat) attendanceData (Some []).

(** an activity row whose service number is missing, or has no profile after
    pass 1 and is not the name of an [Object.prototype] property *)
Definition unseeded_ordinary (parseFloat : string -> jsnum) (attendanceData : list Row) (r : Row) : Prop :=
  match service_number r with
  | Some gid =>
      truthy (Some gid) = true ->
      (forall T, attendance_pass parseFloat attendanceData = Some T -> assoc_find gid T = None) /\
      existsb (String.eqb gid) object_prototype_keys = false
  | None => True
  end.

(** ** Order of the hourly buckets *)

(** the hour of a bucket as a normalised rational, [None] when not finite *)
Definition hour_key (b : Hourly.bucket) : option Q :=
  match Hourly.hour b with JNum q => Some (Qred q) | _ => None end.

Definition finite_hour (b : Hourly.bucket) : Prop := exists q, Hourly.hour b = JNum q.

Definition hour_lt (a b : Hourly.bucket) : Prop :=
  exists x y, Hourly.hour a = JNum x /\ Hourly.hour b = JNum y /\ x < y.

(** every present, non-empty timestamp of the data has a finite hour *)
Definition timestamps_parse (getHours : string -> jsnum) (data : list Row) : Prop :=
  forall r s, In r data -> date_time r = Some s -> s <> "" -> exists q, getHours s = JNum q.

(** ** Invariants *)

(** a property of every value of an object *)
Definition all_values {V} (P : V -> Prop) (m : list (string * V)) : Prop :=
  Forall (fun kv => P (snd kv)) m.

Definition opt_inv {V} (P : V -> Prop) (o : option (list (string * V))) : Prop :=
  match o with Some m => all_values P m | None => True end.

(** the fold of [record_update] over the records of one post name *)
Definition loc_fold (parseFloat : string -> jsnum) (k : string) (rs : list Row) : Locations.loc_acc :=
  fold_left (fun m r => Locations.record_update parseFloat r m)
    (filter (SpecLocation.at_post k) rs) (Locations.seed k).

(** the invariant of [location_table] after a prefix [rs] of the data *)
Definition loc_inv (parseFloat : string -> jsnum) (rs : list Row) (T : list (string * Locations.loc_acc)) : Prop :=
  NoDup (map fst T) /\
  (forall k l, assoc_find k T = Some l -> k <> "" /\ l = loc_fold parseFloat k rs) /\
  (forall k, k <> "" -> assoc_find k T = None -> filter (SpecLocation.at_post k) rs = []).

Definition hours_ok (acc : list Hourly.bucket) : Prop :=
  Forall finite_hour acc /\ NoDup (map hour_key acc).

(** ** Rates in [0, 100] *)

(** an integer-valued finite number in [0, 100] *)
Definition in_0_100 (v : jsnum) : Prop :=
  exists z, v = JNum (inject_Z z) /\ (0 <= z <= 100)%Z.

Definition loc_counts_ok (l : Locations.loc_acc) : Prop :=
  (0 < Locations.l_total (Locations.shifts l) /\
   Locations.l_covered (Locations.shifts l) <= Locations.l_total (Locations.shifts l) /\
   Locations.l_onTime (Locations.shifts l) <= Locations.l_covered (Locations.shifts l))%nat.

Definition guard_counts_ok (g : Guards.guard_acc) : Prop :=
  (Guards.s_onTime (Guards.shifts g) <= Guards.s_total (Guards.shifts g) /\
   Guards.a_onTime (Guards.activities g) <= Guards.a_total (Guards.activities g) /\
   Guards.a_locationAccurate (Guards.activities g) <= Guards.a_total (Guards.activities g))%nat.

(** ** The attendance state [loadData] stores, and the overview cards

    [setAttendanceData({totalShifts, onTime, late, locationCoverage})] in
    [loadData], and the counts the overview and compliance cards display. *)

Record attendance_state : Type := mkAttendanceState {
  totalShifts : nat;
  onTime : nat;
  late : nat;
  attendance_locationCoverage : list Locations.loc_profile
}.

Definition attendance_summary (filteredAttendanceData : list Row)
    (locationCoverage : list Locations.loc_profile) : attendance_state :=
  mkAttendanceState (length filteredAttendanceData)
    (length (filter (fun d => str_is (late_hours d) "On-time") filteredAttendanceData))
    (length (filter (fun d => negb (str_is (late_hours d) "On-time")) filteredAttendanceData))
    locationCoverage.

(** the On-Time Rate card: [Math.round((attendanceData.onTime / attendanceData.totalShifts) * 100)] *)
Definition onTime_rate_card (attendanceData : attendance_state) : jsnum :=
  Math_round (js_mul (js_div (js_of_nat (onTime attendanceData)) (js_of_nat (totalShifts attendanceData)))
                     (JNum 100)).

(** [complianceMetrics.byLocation.filter(l => l.complianceScore >= 90).length] *)
Definition compliant_locations (complianceMetrics : Compliance.result) : nat :=
  length (filter (fun l => js_ge (Compliance.lc_complianceScore l) 90)
            (Compliance.byLocation complianceMetrics)).

(** [complianceMetrics.byGuard.filter(g => g.complianceScore >= 90).length] *)
Definition compliant_guards (complianceMetrics : Compliance.result) : nat :=
  length (filter (fun g => js_ge (Compliance.gc_complianceScore g) 90)
            (Compliance.byGuard complianceMetrics)).

(** ** The Alert component (src/unnamed/part_000)

    [variantClasses[variant] || variantClasses.info]: an own entry, the
    value a read inherits from [Object.prototype] (a function or the
    prototype object itself, which the template literal stringifies), or
    the [info] entry when the read gives [undefined]. *)

Module Alert.

Definition variantClasses : list (string * string) :=
  [("info", "bg-blue-50 text-blue-800");
   ("success", "bg-green-50 text-green-800");
   ("warning", "bg-yellow-50 text-yellow-800");
   ("destructive", "bg-red-50 text-red-800")].

Inductive class_value : Type :=
| ClassText (s : string)
| InheritedMember (key : string).

Definition variant_class (variant : option string) : class_value :=
  let v := match variant with Some s => s | None => "info" end in   (* variant = 'info' *)
  let info := match assoc_find "info" variantClasses with Some c => c | None => "" end in
  match obj_get variantClasses v with
  | Own c => if truthy (Some c) then ClassText c else ClassText info
  | Inherited => InheritedMember v
  | Absent => ClassText info
  end.

(** [className] of the rendered [div] *)
Definition className (variant : option string) : class_value :=
  match variant_class variant with
  | ClassText c => ClassText ("p-4 rounded " ++ c)
  | InheritedMember k => InheritedMember k
  end.

End Alert.

(** ** The variant dashboard (src/src/App.js)

    A second version of the application, with its own aggregators. Its
    records carry the columns the functions of this file read. *)

Module Variant.

Record Row : Type := mkRow {
  date_time : option string;          (* 'Date/Time' *)
  alert : option string;              (* 'Alert' *)
  time_accuracy : option string;      (* 'Time Accuracy' *)
  location_accuracy : option string;  (* 'Location Accuracy' *)
  service_number : option string;     (* 'Service Number' *)
  user_name : option string;          (* 'User Name' *)
  full_name : option string;          (* 'Full Name' *)
  post_name : option string;          (* 'Post Name' *)
  late_hours : option string          (* 'Late Hours' *)
}.

Definition empty_row : Row := mkRow None None None None None None None None None.

(** [processActivityData] *)
Module Activity.

Record bucket : Type := mkBucket {
  hour : jsnum;
  count : nat;
  alerts : nat;
  criticalAlerts : nat
}.

Section ActivityData.
Variable getHours : string -> jsnum.

Definition alert_bit (curr : Row) : nat := if truthy (alert curr) then 1 else 0.

(** [existing.count += 1; existing.alerts = (existing.alerts || 0) + ..;
     if (curr['Alert'] === 'Critical') existing.criticalAlerts = (existing.criticalAlerts || 0) + 1] *)
Definition add_record (b : bucket) (curr : Row) : bucket :=
  mkBucket (hour b) (S (count b)) (alerts b + alert_bit curr)
    (if str_is (alert curr) "Critical" then S (criticalAlerts b) else criticalAlerts b).

Fixpoint update_existing (h : jsnum) (curr : Row) (acc : list bucket) : option (list bucket) :=
  match acc with
  | [] => None
  | b :: rest =>
      if js_num_eq (hour b) h then Some (add_record b curr :: rest)
      else option_map (cons b) (update_existing h curr rest)
  end.

Definition new_bucket (h : jsnum) (curr : Row) : bucket :=
  mkBucket h 1 (alert_bit curr) (if str_is (alert curr) "Critical" then 1 else 0).

Definition step (acc : list bucket) (curr : Row) : list bucket :=
  match date_time curr with
  | None => acc
  | Some s =>
      if String.eqb s "" then acc
      else
        let h := getHours s in
        match update_existing h curr acc with
        | Some acc' => acc'
        | None => acc ++ [new_bucket h curr]
        end
  end.

Definition hour_compare (a b : bucket) : jsnum := js_sub (hour a) (hour b).

Definition processActivityData (data : list Row) : list bucket :=
  js_sort hour_compare (fold_left step data []).

End ActivityData.
End Activity.

(** [processLocationCoverage]: the object itself, [None] on a [TypeError] *)
Module Locations.

Record loc : Type := mkLoc {
  total : nat;
  covered : nat;
  alerts : nat;
  guards : list (option string)   (* a Set of 'Full Name' values *)
}.

Definition seed : loc := mkLoc 0 0 0 [].

Definition update (curr : Row) (m : loc) : loc :=
  mkLoc (S (total m))
    (if truthy (full_name curr) then S (covered m) else covered m)
    (if truthy (alert curr) then S (alerts m) else alerts m)
    (if truthy (full_name curr) then set_add (full_name curr) (guards m) else guards m).

Definition step (acc : option (list (string * loc))) (curr : Row) : option (list (string * loc)) :=
  match acc with
  | None => None
  | Some acc =>
      match post_name curr with
      | None => Some acc
      | Some location =>
          if truthy (Some location) then
            match obj_get acc location with
            | Own m => Some (obj_set acc location (update curr m))
            | Absent => Some (obj_set acc location (update curr seed))
            | Inherited =>
                (* the counters are written onto the inherited member, which
                   [acc] does not own; its [guards] is undefined, so
                   [.guards.add] throws when there is a 'Full Name' *)
                if truthy (full_name curr) then None else Some acc
            end
          else Some acc
      end
  end.

Definition processLocationCoverage (data : list Row) : option (list (string * loc)) :=
  fold_left step data (Some []).

End Locations.

(** [processAttendanceData] *)
Module Attendance.

Record summary : Type := mkSummary {
  totalShifts : nat;
  onTime : nat;
  late : nat;
  locationCoverage : list (string * Locations.loc);
  avgCoverage : jsnum
}.

Definition coverage_sum (locs : list Locations.loc) : jsnum :=
  fold_left (fun acc l => js_add acc (js_div (js_of_nat (Locations.covered l))
                                             (js_of_nat (Locations.total l))))
    locs (JNum 0).

(** [late = totalShifts - onTime] on numbers; [onTime] counts a sublist, so
    the subtraction on [nat] does not truncate *)
Definition processAttendanceData (data : list Row) : option summary :=
  match Locations.processLocationCoverage data with
  | None => None
  | Some locationCoverage =>
      let totalShifts := length data in
      let onTime := length (filter (fun d => str_is (late_hours d) "On-time") data) in
      Some (mkSummary totalShifts onTime (totalShifts - onTime) locationCoverage
              (js_mul (js_div (coverage_sum (object_values locationCoverage))
                              (js_of_nat (length locationCoverage)))
                      (JNum 100)))
  end.

End Attendance.

(** [processGuardStatistics] *)
Module GuardStats.

Record guard_acc : Type := mkGuard {
  id : string;
  name : option string;                (* 'User Name' of the first record *)
  totalActivities : nat;
  locationAccuracy : list jsnum;
  onTimeActivities : nat;
  lateActivities : nat;
  alerts : nat;
  criticalAlerts : nat;
  posts : list (option string);        (* a Set of 'Post Name' values *)
  lastActivity : option (option string) (* [None]: null *)
}.

Record guard_stat : Type := mkStat {
  guard : guard_acc;
  avgLocationAccuracy : jsnum;
  punctualityRate : jsnum;
  alertRate : jsnum;
  status : string
}.

Section GuardStatistics.
Variable parseInt : string -> jsnum.

Definition seed (guardId : string) (record : Row) : guard_acc :=
  mkGuard guardId (user_name record) 0 [] 0 0 0 0 [] None.

Definition update (record : Row) (g : guard_acc) : guard_acc :=
  mkGuard (id g) (name g) (S (totalActivities g))
    (match location_accuracy record with
     | Some la =>
         if truthy (Some la) then
           let accuracy := parseInt la in
           if negb (isNaN accuracy) then locationAccuracy g ++ [accuracy] else locationAccuracy g
         else locationAccuracy g
     | None => locationAccuracy g
     end)
    (if str_is (time_accuracy record) "On Time" then S (onTimeActivities g) else onTimeActivities g)
    (if str_is (time_accuracy record) "On Time" then lateActivities g else S (lateActivities g))
    (if truthy (alert record) then S (alerts g) else alerts g)
    (if truthy (alert record) && str_is (alert record) "Critical"
     then S (criticalAlerts g) else criticalAlerts g)
    (set_add (post_name record) (posts g))
    (Some (date_time record)).

Definition step (acc : option (list (string * guard_acc))) (record : Row)
  : option (list (string * guard_acc)) :=
  match acc with
  | None => None
  | Some guardStats =>
      match service_number record with
      | None => Some guardStats
      | Some guardId =>
          if truthy (Some guardId) then
            match obj_get guardStats guardId with
            | Own g => Some (obj_set guardStats guardId (update record g))
            | Absent => Some (obj_set guardStats guardId (update record (seed guardId record)))
            | Inherited => None   (* [.posts] is undefined on the inherited member *)
            end
          else Some guardStats
      end
  end.

Definition finalize (g : guard_acc) : guard_stat :=
  mkStat g
    (if (0 <? length (locationAccuracy g))%nat
     then Math_round (js_div (fold_left js_add (locationAccuracy g) (JNum 0))
                             (js_of_nat (length (locationAccuracy g))))
     else JNum 0)
    (Math_round (js_mul (js_div (js_of_nat (onTimeActivities g))
                                (js_add (js_of_nat (onTimeActivities g)) (js_of_nat (lateActivities g))))
                        (JNum 100)))
    (Math_round (js_mul (js_div (js_of_nat (alerts g)) (js_of_nat (totalActivities g))) (JNum 100)))
    (if (0 <? criticalAlerts g)%nat then "warning" else "normal").

Definition punctuality_compare (a b : guard_stat) : jsnum :=
  js_sub (punctualityRate b) (punctualityRate a).

Definition guard_table (activityData : list Row) : option (list (string * guard_acc)) :=
  fold_left step activityData (Some []).

Definition processGuardStatistics (activityData attendanceData : list Row)
  : option (list guard_stat) :=
  match guard_table activityData with
  | None => None
  | Some guardStats => Some (js_sort punctuality_compare (map finalize (object_values guardStats)))
  end.

End GuardStatistics.
End GuardStats.

(** [calculatePerformanceMetrics]: the object passed to [setPerformanceMetrics] *)
Module Performance.

Record performance_metrics : Type := mkPerformance {
  overallAccuracy : jsnum;
  criticalAlerts : nat;
  totalAlerts : nat;
  coverageScore : jsnum
}.

Definition calculatePerformanceMetrics (activityData : list Row)
    (attendanceData : Attendance.summary) (guardStats : list GuardStats.guard_stat)
  : performance_metrics :=
  let locationAccuracies := map GuardStats.avgLocationAccuracy guardStats in
  let avgAccuracy := js_div (fold_left js_add locationAccuracies (JNum 0))
                            (js_of_nat (length locationAccuracies)) in
  let totalAlerts :=
    fold_left (fun acc curr => acc + (if truthy (alert curr) then 1 else 0))%nat activityData 0%nat in
  let criticalAlerts :=
    fold_left (fun acc curr => acc + (if str_is (alert curr) "Critical" then 1 else 0))%nat
      activityData 0%nat in
  let coverageScore := Math_round (Attendance.avgCoverage attendanceData) in
  mkPerformance (Math_round avgAccuracy) criticalAlerts totalAlerts coverageScore.

End Performance.

(** [processData]: the four state updates; [None] when an exception
    escapes to [loadData], which then shows its error state *)
Record state : Type := mkState {
  activityData : list Activity.bucket;
  attendanceData : Attendance.summary;
  guardStats : list GuardStats.guard_stat;
  performanceMetrics : Performance.performance_metrics
}.

Definition processData (getHours parseInt : string -> jsnum) (activityData attendanceData : list Row)
  : option state :=
  let activitySummary := Activity.processActivityData getHours activityData in
  match Attendance.processAttendanceData attendanceData with
  | None => None
  | Some attendanceSummary =>
      match GuardStats.processGuardStatistics parseInt activityData attendanceData with
      | None => None
      | Some guardStatistics =>
          Some (mkState activitySummary attendanceSummary guardStatistics
                  (Performance.calculatePerformanceMetrics activityData attendanceSummary
                     guardStatistics))
      end
  end.

(** [filteredGuards]: [guard.name.toLowerCase().includes(term) ||
    guard.posts.some(post => post.toLowerCase().includes(term))];
    [None] when [toLowerCase] is called on [undefined] (a [TypeError]) *)
Section Search.
Variable toLowerCase : string -> string.

Fixpoint some_post (searchTerm : string) (posts : list (option string)) : option bool :=
  match posts with
  | [] => Some false
  | None :: _ => None
  | Some p :: ps =>
      if includes (toLowerCase p) (toLowerCase searchTerm) then Some true
      else some_post searchTerm ps
  end.

Definition guard_matches (searchTerm : string) (g : GuardStats.guard_stat) : option bool :=
  match GuardStats.name (GuardStats.guard g) with
  | None => None
  | Some n =>
      if includes (toLowerCase n) (toLowerCase searchTerm) then Some true
      else some_post searchTerm (GuardStats.posts (GuardStats.guard g))
  end.

Fixpoint filteredGuards (searchTerm : string) (guardStats : list GuardStats.guard_stat)
  : option (list GuardStats.guard_stat) :=
  match guardStats with
  | [] => Some []
  | g :: gs =>
      match guard_matches searchTerm g with
      | None => None
      | Some keep => option_map (fun rest => if keep then g :: rest else rest)
                       (filteredGuards searchTerm gs)
      end
  end.

End Search.

End Variant.

(** ** Predicates for the properties of the remaining functions *)

(** [a >= b] between two finite numbers *)
Definition num_ge (a b : jsnum) : Prop := exists x y, a = JNum x /\ b = JNum y /\ y <= x.

(** a property of the whole object, kept until an exception is thrown *)
Definition opt_pred {V} (P : list (string * V) -> Prop) (o : option (list (string * V))) : Prop :=
  match o with Some m => P m | None => True end.

(** a property of every key together with its value *)
Definition all_entries {V} (P : string -> V -> Prop) (m : list (string * V)) : Prop :=
  Forall (fun kv => P (fst kv) (snd kv)) m.

(** [n] records of [l] satisfy [f] *)
Definition count {A} (f : A -> bool) (l : list A) : nat := length (filter f l).

(** [a] before [b] in a list sorted by [f], highest first *)
Definition desc {A} (f : A -> jsnum) (a b : A) : Prop := num_ge (f a) (f b).

(** a guard table entry: keyed by the guard's id, which is the service
    number of an attendance record with a full name *)
Definition guard_origin (att : list Row) (k : string) (g : Guards.guard_acc) : Prop :=
  Guards.id g = k /\
  exists r, In r att /\ service_number r = Some k /\ truthy (full_name r) = true.

Definition guard_keys_ok (att : list Row) (m : list (string * Guards.guard_acc)) : Prop :=
  NoDup (map fst m) /\ all_entries (guard_origin att) m.

(** a location table entry: keyed by its location, a post name of the data *)
Definition location_origin (data : list Row) (k : string) (l : Locations.loc_acc) : Prop :=
  Locations.location l = k /\ exists r, In r data /\ post_name r = Some k.

Definition location_keys_ok (data : list Row) (m : list (string * Locations.loc_acc)) : Prop :=
  NoDup (map fst m) /\ all_entries (location_origin data) m.

(** the counters of an hourly bucket stay within its record count *)
Definition bucket_ok (b : Hourly.bucket) : Prop :=
  (Hourly.onTime b + Hourly.delayed b <= Hourly.total b /\
   Hourly.locationAccurate b <= Hourly.total b)%nat.

(** a guard has covered at least one post, and no more posts than shifts *)
Definition coverage_ok (g : Guards.guard_acc) : Prop :=
  (1 <= length (Guards.coverage g) <= Guards.s_total (Guards.shifts g))%nat.

(** [k] names a property every object inherits from [Object.prototype] *)
Definition is_prototype_key (k : string) : bool := existsb (String.eqb k) object_prototype_keys.

(** no own key of the object shadows an [Object.prototype] property *)
Definition ordinary_keys {V} (m : list (string * V)) : Prop :=
  all_entries (fun k _ => is_prototype_key k = false) m.

(** the date filter of [loadData]:
    [activityResults.data.filter(record => record['Date/Time']?.includes(selectedDate))] *)
Definition filter_activity_by_date (selectedDate : string) (data : list Row) : list Row :=
  filter (fun record => match date_time record with
                        | Some s => includes s selectedDate
                        | None => false
                        end) data.

(** ** Sample inputs *)

(** the attendance rows of the guard example of section 8 *)
Definition att_G1_gate_a : Row :=
  mkRow None None None (Some "G1") (Some "Guard One") (Some "Gate A") (Some "On-time") None.
Definition att_G1_gate_b : Row :=
  mkRow None None None (Some "G1") (Some "Guard One") (Some "Gate B") (Some "Late") None.

(** the attendance rows of the location example of section 8 *)
Definition att_gate_a_guarded : Row :=
  mkRow None None None (Some "G1") (Some "G1") (Some "Gate A") (Some "On-time") None.
Definition att_gate_a_unguarded : Row :=
  mkRow None None None None None (Some "Gate A") None None.

Definition guard_example_profiles : list Guards.guard_profile :=
  match Guards.processGuardData parseInt_model parseFloat_model [] [att_G1_gate_a; att_G1_gate_b] with
  | Some ps => ps
  | None => []
  end.

Definition guard_example_profile : Guards.guard_profile :=
  match guard_example_profiles with
  | p :: _ => p
  | [] => Guards.finalize (Guards.seed "" "")
  end.

Definition location_example_profiles : list Locations.loc_profile :=
  match Locations.processLocationCoverage parseFloat_model [att_gate_a_guarded; att_gate_a_unguarded] with
  | Some ps => ps
  | None => []
  end.

Definition location_example_profile : Locations.loc_profile :=
  match location_example_profiles with
  | p :: _ => p
  | [] => Locations.finalize (Locations.seed "")
  end.

(** activity rows: two in hour 8, an unparseable timestamp, and a row whose
    service number is the name of an [Object.prototype] property *)
Definition act_0815_on_time : Row :=
  mkRow (Some "2024-10-19 08:15:00") (Some "On Time") (Some "5") (Some "G1") None None None None.
Definition act_0845_delayed : Row :=
  mkRow (Some "2024-10-19 08:45:00") (Some "Delayed") None (Some "G1") None None None None.
Definition act_bad_timestamp : Row :=
  mkRow (Some "not a date") (Some "On Time") None None None None None None.
Definition act_toString_guard : Row :=
  mkRow (Some "2024-10-19 09:00:00") (Some "On Time") None (Some "toString") None None None None.

(** [round(100 * (onTime + locationAccurate) / (2 * total))] of a bucket's
    final counts, as section 4.1 writes it *)
Definition spec_complianceRate (b : Hourly.bucket) : Z :=
  js_round_q (100 * (inject_Z (Z.of_nat (Hourly.onTime b)) + inject_Z (Z.of_nat (Hourly.locationAccurate b)))
              / (2 * inject_Z (Z.of_nat (Hourly.total b)))).

(** a fuller day: two guards over three posts, one shift without a guard *)
Definition att_G2_gate_b_late : Row :=
  mkRow None None None (Some "G2") (Some "Guard Two") (Some "Gate B") (Some "Late") (Some "8").
Definition att_gate_c_unguarded : Row :=
  mkRow None None None None None (Some "Gate C") None None.
Definition sample_attendance : list Row :=
  [att_G1_gate_a; att_G2_gate_b_late; att_G1_gate_b; att_gate_c_unguarded].
Definition sample_activity : list Row :=
  [act_0815_on_time; act_0845_delayed; act_bad_timestamp].

(** rows of the second dashboard ([src/src/App.js]): a critical alert at
    8:15, a late activity at 8:45 whose row has no 'User Name', a low
    alert at 9:10 from a second guard; three attendance rows *)
Definition v_act_0815 : Variant.Row :=
  Variant.mkRow (Some "2024-10-19 08:15:00") (Some "Critical") (Some "On Time") (Some "5") (Some "G1")
    (Some "Guard One") None (Some "Gate A") None.
Definition v_act_0845 : Variant.Row :=
  Variant.mkRow (Some "2024-10-19 08:45:00") None (Some "Delayed") (Some "30") (Some "G1")
    None None (Some "Gate A") None.
Definition v_act_0910 : Variant.Row :=
  Variant.mkRow (Some "2024-10-19 09:10:00") (Some "Low") (Some "On Time") None (Some "G2")
    None None (Some "Gate B") None.
Definition v_att_G1 : Variant.Row :=
  Variant.mkRow None None None None (Some "G1") None (Some "Guard One") (Some "Gate A") (Some "On-time").
Definition v_att_G2 : Variant.Row :=
  Variant.mkRow None None None None (Some "G2") None (Some "Guard Two") (Some "Gate B") (Some "Late").
Definition v_att_gate_c : Variant.Row :=
  Variant.mkRow None None None None None None None (Some "Gate C") None.
Definition variant_activity : list Variant.Row := [v_act_0815; v_act_0845; v_act_0910].
Definition variant_attendance : list Variant.Row := [v_att_G1; v_att_G2; v_att_gate_c].

(** [String.prototype.toLowerCase] on ASCII text *)
Fixpoint toLowerCase_model (s : string) : string :=
  match s with
  | EmptyString => EmptyString
  | String c rest =>
      let n := nat_of_ascii c in
      String (if (65 <=? n)%nat && (n <=? 90)%nat then ascii_of_nat (n + 32) else c)
        (toLowerCase_model rest)
  end.

(** * Properties *)

(** ** Sorting and [Object.values] only reorder *)

Lemma sort_insert_perm {A} (cmp : A -> A -> jsnum) (x : A) (l : list A) :
  Permutation (sort_insert cmp x l) (x :: l).
Proof.
  induction l as [| y l IH]; simpl; [reflexivity |].
  destruct (js_pos (cmp y x)); [reflexivity |].
  rewrite IH. apply perm_swap.
Qed.

Lemma js_sort_perm {A} (cmp : A -> A -> jsnum) (l : list A) :
  Permutation (js_sort cmp l) l.
Proof.
  unfold js_sort.
  assert (H : forall acc, Permutation (fold_left (fun acc x => sort_insert cmp x acc) l acc)
                                      (rev l ++ acc)).
  { induction l as [| x l IH]; intro acc; simpl; [reflexivity |].
    rewrite IH, sort_insert_perm, <- app_assoc. reflexivity. }
  rewrite H, app_nil_r. symmetry. apply Permutation_rev.
Qed.

Lemma object_values_perm {V} (m : list (string * V)) :
  Permutation (object_values m) (map snd m).
Proof.
  unfold object_values. rewrite js_sort_perm.
  induction m as [| [k v] m IH]; simpl; [reflexivity |].
  unfold index_entries, other_entries in *; simpl.
  destruct (array_index k); simpl.
  - apply perm_skip, IH.
  - rewrite <- IH. symmetry. apply Permutation_middle.
Qed.

Lemma In_object_values {V} (m : list (string * V)) (v : V) :
  In v (object_values m) -> exists k, In (k, v) m.
Proof.
  intro H. apply (Permutation_in _ (object_values_perm m)) in H.
  apply in_map_iff in H as [[k v'] [Heq Hin]]. simpl in Heq; subst. eauto.
Qed.

(** ** Lookup and update of a plain object *)

Lemma assoc_find_In {V} (k : string) (m : list (string * V)) (v : V) :
  assoc_find k m = Some v -> In (k, v) m.
Proof.
  induction m as [| [k' v'] m IH]; simpl; [discriminate |].
  destruct (String.eqb_spec k k'); [intros [= <-]; subst; auto | auto].
Qed.

Lemma In_assoc_find {V} (k : string) (m : list (string * V)) (v : V) :
  NoDup (map fst m) -> In (k, v) m -> assoc_find k m = Some v.
Proof.
  induction m as [| [k' v'] m IH]; simpl; [contradiction |].
  intros Hnd [Heq | Hin]; inversion Hnd as [| ? ? Hnotin Hnd']; subst.
  - inversion Heq; subst. rewrite String.eqb_refl. reflexivity.
  - destruct (String.eqb_spec k k'); [| auto].
    subst. exfalso. apply Hnotin. apply in_map_iff. exists (k', v). auto.
Qed.

Lemma assoc_find_obj_set_eq {V} (m : list (string * V)) (k : string) (v : V) :
  assoc_find k (obj_set m k v) = Some v.
Proof.
  induction m as [| [k' v'] m IH]; simpl.
  - rewrite String.eqb_refl. reflexivity.
  - destruct (String.eqb_spec k k'); simpl.
    + subst. rewrite String.eqb_refl. reflexivity.
    + apply String.eqb_neq in n. rewrite n. exact IH.
Qed.

Lemma assoc_find_obj_set_neq {V} (m : list (string * V)) (k k' : string) (v : V) :
  k <> k' -> assoc_find k (obj_set m k' v) = assoc_find k m.
Proof.
  intro Hne. induction m as [| [k'' v'] m IH]; simpl.
  - apply String.eqb_neq in Hne. rewrite Hne. reflexivity.
  - destruct (String.eqb_spec k' k''); simpl.
    + subst. apply String.eqb_neq in Hne. rewrite Hne. reflexivity.
    + destruct (String.eqb k k''); [reflexivity | exact IH].
Qed.

Lemma obj_set_keys_found {V} (m : list (string * V)) (k : string) (v v0 : V) :
  assoc_find k m = Some v0 -> map fst (obj_set m k v) = map fst m.
Proof.
  induction m as [| [k' v'] m IH]; simpl; [discriminate |].
  destruct (String.eqb_spec k k'); simpl; [reflexivity |].
  intro H. f_equal. auto.
Qed.

Lemma obj_set_NoDup {V} (m : list (string * V)) (k : string) (v : V) :
  NoDup (map fst m) -> NoDup (map fst (obj_set m k v)).
Proof.
  induction m as [| [k' v'] m IH]; simpl; intro Hnd.
  - constructor; [intros [] | constructor].
  - inversion Hnd as [| ? ? Hnotin Hnd']; subst.
    destruct (String.eqb_spec k k'); simpl; [exact Hnd |].
    constructor; [| auto].
    intro Hin. apply Hnotin.
    assert (Hkeys : forall m0 : list (string * V), In k' (map fst (obj_set m0 k v)) ->
                                                  k' = k \/ In k' (map fst m0)).
    { induction m0 as [| [a b] m0 IH0]; simpl; [intuition |].
      destruct (String.eqb k a); simpl; intuition. }
    destruct (Hkeys m Hin); [congruence | assumption].
Qed.


Lemma all_values_obj_set {V} (P : V -> Prop) (m : list (string * V)) (k : string) (v : V) :
  all_values P m -> P v -> all_values P (obj_set m k v).
Proof.
  unfold all_values. intros Hm Hv.
  induction Hm as [| [k' v'] m Hkv Hm IH]; simpl.
  - constructor; [exact Hv | constructor].
  - destruct (String.eqb k k'); constructor; auto.
Qed.

Lemma all_values_obj_get {V} (P : V -> Prop) (m : list (string * V)) (k : string) (v : V) :
  all_values P m -> obj_get m k = Own v -> P v.
Proof.
  unfold obj_get. intros Hm Hget.
  destruct (assoc_find k m) as [v' |] eqn:Hf.
  - inversion Hget; subst. apply assoc_find_In in Hf.
    exact (proj1 (Forall_forall _ _) Hm _ Hf).
  - destruct (existsb _ _); discriminate.
Qed.

Lemma all_values_In {V} (P : V -> Prop) (m : list (string * V)) (k : string) (v : V) :
  all_values P m -> In (k, v) m -> P v.
Proof. intros Hm Hin. exact (proj1 (Forall_forall _ _) Hm _ Hin). Qed.

(** ** Invariants of a fold whose state is an object or a thrown error *)


Lemma fold_opt_inv {V A} (P : V -> Prop)
    (step : option (list (string * V)) -> A -> option (list (string * V))) :
  (forall o a, opt_inv P o -> opt_inv P (step o a)) ->
  forall l o, opt_inv P o -> opt_inv P (fold_left step l o).
Proof.
  intros Hstep l. induction l as [| a l IH]; intros o Ho; simpl; auto.
Qed.

(** ** Facts about the JS arithmetic on finite values *)

Lemma js_of_nat_nonzero (n : nat) :
  (0 < n)%nat -> Qeq_bool (inject_Z (Z.of_nat n)) 0 = false.
Proof.
  intro Hn. apply Bool.not_true_iff_false. intro H. apply Qeq_bool_eq in H.
  unfold Qeq in H. simpl in H. lia.
Qed.

Lemma js_div_nat (x : Q) (n : nat) :
  (0 < n)%nat -> js_div (JNum x) (js_of_nat n) = JNum (x / inject_Z (Z.of_nat n)).
Proof. intro Hn. unfold js_div, js_of_nat. rewrite js_of_nat_nonzero by exact Hn. reflexivity. Qed.

Lemma js_div_2nat (x : Q) (n : nat) :
  (0 < n)%nat ->
  js_div (JNum x) (js_mul (JNum 2) (js_of_nat n)) = JNum (x / (2 * inject_Z (Z.of_nat n))).
Proof.
  intro Hn. unfold js_div, js_mul, js_of_nat.
  replace (Qeq_bool (2 * inject_Z (Z.of_nat n)) 0) with false; [reflexivity |].
  symmetry. apply Bool.not_true_iff_false. intro H. apply Qeq_bool_eq in H.
  unfold Qeq in H. cbn in H. destruct n; [lia |]. simpl in H. discriminate.
Qed.

Lemma js_div_nats (m n : nat) :
  (0 < n)%nat ->
  js_div (js_of_nat m) (js_of_nat n) = JNum (inject_Z (Z.of_nat m) / inject_Z (Z.of_nat n)).
Proof. intro Hn. exact (js_div_nat _ n Hn). Qed.

Lemma js_div_sum_nats (a b n : nat) :
  (0 < n)%nat ->
  js_div (js_add (js_of_nat a) (js_of_nat b)) (js_mul (JNum 2) (js_of_nat n))
  = JNum ((inject_Z (Z.of_nat a) + inject_Z (Z.of_nat b)) / (2 * inject_Z (Z.of_nat n))).
Proof. intro Hn. exact (js_div_2nat _ n Hn). Qed.

Lemma js_round_q_comp (x y : Q) : x == y -> js_round_q x = js_round_q y.
Proof. intro H. unfold js_round_q. apply Qfloor_comp. rewrite H. reflexivity. Qed.

Lemma inject_Z_nat_nonzero (n : nat) : (0 < n)%nat -> ~ inject_Z (Z.of_nat n) == 0.
Proof. intros Hn H. unfold Qeq in H. simpl in H. lia. Qed.

(** ** The guard table *)

Section GuardTable.
Variable parseInt : string -> jsnum.
Variable parseFloat : string -> jsnum.

Lemma attendance_step_inv (P : Guards.guard_acc -> Prop) :
  (forall r gid nm, P (Guards.attendance_update parseFloat r (Guards.seed gid nm))) ->
  (forall r g, P g -> P (Guards.attendance_update parseFloat r g)) ->
  forall o r, opt_inv P o -> opt_inv P (Guards.attendance_step parseFloat o r).
Proof.
  intros Hseed Hupd [m |] r Ho; cbn -[truthy obj_get obj_set]; [| exact I].
  destruct (full_name r) as [fn |], (service_number r) as [gid |]; cbn -[truthy obj_get obj_set]; try exact Ho.
  destruct (truthy (Some fn) && truthy (Some gid)); [| exact Ho].
  destruct (obj_get m gid) as [g | |] eqn:Hget; cbn -[truthy obj_get obj_set]; try exact I.
  - apply all_values_obj_set; [exact Ho |]. apply Hupd. exact (all_values_obj_get P m gid g Ho Hget).
  - apply all_values_obj_set; [exact Ho | apply Hseed].
Qed.

Lemma activity_step_inv (P : Guards.guard_acc -> Prop) :
  (forall r g, P g -> P (Guards.activity_update parseInt r g)) ->
  forall o r, opt_inv P o -> opt_inv P (Guards.activity_step parseInt o r).
Proof.
  intros Hupd [m |] r Ho; cbn -[truthy obj_get obj_set]; [| exact I].
  destruct (service_number r) as [gid |]; cbn -[truthy obj_get obj_set]; [| exact Ho].
  destruct (truthy (Some gid)); [| exact Ho].
  destruct (obj_get m gid) as [g | |] eqn:Hget; cbn -[truthy obj_get obj_set]; try exact Ho; try exact I.
  apply all_values_obj_set; [exact Ho |]. apply Hupd. exact (all_values_obj_get P m gid g Ho Hget).
Qed.

Lemma guard_table_inv (P : Guards.guard_acc -> Prop) act att :
  (forall r gid nm, P (Guards.attendance_update parseFloat r (Guards.seed gid nm))) ->
  (forall r g, P g -> P (Guards.attendance_update parseFloat r g)) ->
  (forall r g, P g -> P (Guards.activity_update parseInt r g)) ->
  opt_inv P (Guards.guard_table parseInt parseFloat act att).
Proof.
  intros Hseed Hatt Hact. unfold Guards.guard_table.
  apply fold_opt_inv; [apply activity_step_inv, Hact |].
  apply fold_opt_inv; [apply attendance_step_inv; auto | constructor].
Qed.

Lemma processGuardData_In act att ps p :
  Guards.processGuardData parseInt parseFloat act att = Some ps -> In p ps ->
  exists m k g, Guards.guard_table parseInt parseFloat act att = Some m /\
                In (k, g) m /\ p = Guards.finalize g.
Proof.
  unfold Guards.processGuardData.
  destruct (Guards.guard_table parseInt parseFloat act att) as [m |]; [| discriminate].
  intros [= <-] Hin.
  apply (Permutation_in _ (js_sort_perm _ _)) in Hin.
  apply in_map_iff in Hin as [g [<- Hg]].
  apply In_object_values in Hg as [k Hk]. exists m, k, g. auto.
Qed.

End GuardTable.

(** ** The location table *)

Section LocationTable.
Variable parseFloat : string -> jsnum.

Lemma location_step_inv (P : Locations.loc_acc -> Prop) :
  (forall r loc, P (Locations.record_update parseFloat r (Locations.seed loc))) ->
  (forall r l, P l -> P (Locations.record_update parseFloat r l)) ->
  forall o r, opt_inv P o -> opt_inv P (Locations.location_step parseFloat o r).
Proof.
  intros Hseed Hupd [m |] r Ho; cbn -[truthy obj_get obj_set]; [| exact I].
  destruct (post_name r) as [loc |]; cbn -[truthy obj_get obj_set]; [| exact Ho].
  destruct (truthy (Some loc)); [| exact Ho].
  destruct (obj_get m loc) as [l | |] eqn:Hget; cbn -[truthy obj_get obj_set]; try exact I.
  - apply all_values_obj_set; [exact Ho |]. apply Hupd. exact (all_values_obj_get P m loc l Ho Hget).
  - apply all_values_obj_set; [exact Ho | apply Hseed].
Qed.

Lemma location_table_inv (P : Locations.loc_acc -> Prop) data :
  (forall r loc, P (Locations.record_update parseFloat r (Locations.seed loc))) ->
  (forall r l, P l -> P (Locations.record_update parseFloat r l)) ->
  opt_inv P (Locations.location_table parseFloat data).
Proof.
  intros Hseed Hupd. unfold Locations.location_table.
  apply fold_opt_inv; [apply location_step_inv; auto | constructor].
Qed.

Lemma processLocationCoverage_In data ps p :
  Locations.processLocationCoverage parseFloat data = Some ps -> In p ps ->
  exists m k l, Locations.location_table parseFloat data = Some m /\
                In (k, l) m /\ p = Locations.finalize l.
Proof.
  unfold Locations.processLocationCoverage.
  destruct (Locations.location_table parseFloat data) as [m |]; [| discriminate].
  intros [= <-] Hin.
  apply (Permutation_in _ (js_sort_perm _ _)) in Hin.
  apply in_map_iff in Hin as [l [<- Hl]].
  apply In_object_values in Hl as [k Hk]. exists m, k, l. auto.
Qed.

End LocationTable.


Lemma finalize_performanceScore (g : Guards.guard_acc) :
  Guards.performanceScore (Guards.metrics (Guards.finalize g))
  = JNum (inject_Z (SpecScore.performanceScore g)).
Proof.
  unfold Guards.finalize, SpecScore.performanceScore, SpecScore.attendanceScore,
    SpecScore.activityScore, SpecScore.coverageScore.
  cbn [Guards.metrics Guards.performanceScore].
  set (t := Guards.s_total (Guards.shifts g)).
  set (o := Guards.s_onTime (Guards.shifts g)).
  set (at_ := Guards.a_total (Guards.activities g)).
  set (ao := Guards.a_onTime (Guards.activities g)).
  set (al := Guards.a_locationAccurate (Guards.activities g)).
  set (n := length (Guards.coverage g)).
  assert (Hcov : js_mul (js_div (js_of_nat n) (JNum 3)) (JNum 30)
                 = JNum (inject_Z (Z.of_nat n) / 3 * 30)) by reflexivity.
  rewrite Hcov. cbn [Math_min].
  assert (Hmin : Qmin (inject_Z (Z.of_nat n) / 3 * 30) 30
                 == Qmin 30 (30 * inject_Z (Z.of_nat n) / 3)).
  { rewrite Q.min_comm. apply Q.min_compat; [reflexivity | field]. }
  destruct (Nat.ltb_spec 0 t) as [Ht | Ht], (Nat.ltb_spec 0 at_) as [Ha | Ha].
  - rewrite (js_div_nats o t Ht), (js_div_sum_nats ao al at_ Ha).
    cbn [js_mul js_add Math_round].
    replace (t =? 0)%nat with false by (symmetry; apply Nat.eqb_neq; lia).
    replace (at_ =? 0)%nat with false by (symmetry; apply Nat.eqb_neq; lia).
    do 2 f_equal. apply js_round_q_comp. rewrite Hmin.
    pose proof (inject_Z_nat_nonzero t Ht). pose proof (inject_Z_nat_nonzero at_ Ha).
    field. auto.
  - rewrite (js_div_nats o t Ht). cbn [js_mul js_add Math_round].
    replace (t =? 0)%nat with false by (symmetry; apply Nat.eqb_neq; lia).
    replace (at_ =? 0)%nat with true by (symmetry; apply Nat.eqb_eq; lia).
    do 2 f_equal. apply js_round_q_comp. rewrite Hmin.
    pose proof (inject_Z_nat_nonzero t Ht). field. auto.
  - rewrite (js_div_sum_nats ao al at_ Ha). cbn [js_mul js_add Math_round].
    replace (t =? 0)%nat with true by (symmetry; apply Nat.eqb_eq; lia).
    replace (at_ =? 0)%nat with false by (symmetry; apply Nat.eqb_neq; lia).
    do 2 f_equal. apply js_round_q_comp. rewrite Hmin.
    pose proof (inject_Z_nat_nonzero at_ Ha). field. auto.
  - cbn [js_mul js_add Math_round].
    replace (t =? 0)%nat with true by (symmetry; apply Nat.eqb_eq; lia).
    replace (at_ =? 0)%nat with true by (symmetry; apply Nat.eqb_eq; lia).
    do 2 f_equal. apply js_round_q_comp. rewrite Hmin. ring.
Qed.

(** * Claims *)

(** ** Guard Aggregator *)

(** C4: every guard profile that [processGuardData] returns has
    [performanceScore = round(attendanceScore + activityScore + coverageScore)]
    with the spec's three weighted scores computed from the profile's own
    counters; and the two attendance rows of G1 (Gate A on time, Gate B late)
    with no activity rows give one profile with shifts 2/1/1, two covered
    locations and score 35. *)
Theorem processGuardData_performanceScore :
  (forall parseInt parseFloat act att ps p,
     Guards.processGuardData parseInt parseFloat act att = Some ps -> In p ps ->
     Guards.performanceScore (Guards.metrics p)
     = JNum (inject_Z (SpecScore.performanceScore (Guards.guard p)))) /\
  (forall parseInt parseFloat,
     exists p,
       Guards.processGuardData parseInt parseFloat [] [att_G1_gate_a; att_G1_gate_b] = Some [p] /\
       Guards.shifts (Guards.guard p) = Guards.mkShifts 2 1 1 /\
       Guards.coverage (Guards.guard p) = [Some "Gate A"; Some "Gate B"] /\
       SpecScore.attendanceScore (Guards.guard p) == 15 /\
       SpecScore.activityScore (Guards.guard p) == 0 /\
       SpecScore.coverageScore (Guards.guard p) == 20 /\
       Guards.performanceScore (Guards.metrics p) = JNum 35).
Proof.
  split.
  - intros parseInt parseFloat act att ps p H Hin.
    destruct (processGuardData_In _ _ _ _ _ _ H Hin) as (m & k & g & _ & _ & ->).
    apply finalize_performanceScore.
  - intros parseInt parseFloat. eexists. split; [reflexivity |].
    repeat split; vm_compute; reflexivity.
Qed.

Lemma processGuardData_performanceScore_witness :
  Guards.processGuardData parseInt_model parseFloat_model [] [att_G1_gate_a; att_G1_gate_b]
  = Some guard_example_profiles /\
  In guard_example_profile guard_example_profiles /\
  Guards.performanceScore (Guards.metrics guard_example_profile)
  = JNum (inject_Z (SpecScore.performanceScore (Guards.guard guard_example_profile))).
Proof.
  split; [vm_compute; reflexivity |].
  split; [vm_compute; left; reflexivity |].
  apply (proj1 processGuardData_performanceScore parseInt_model parseFloat_model []
           [att_G1_gate_a; att_G1_gate_b] guard_example_profiles guard_example_profile);
    [vm_compute; reflexivity | vm_compute; left; reflexivity].
Defined.

(** C10: in every guard profile that [processGuardData] returns,
    [shifts.onTime + shifts.late = shifts.total]. *)
Theorem processGuardData_shifts_balanced parseInt parseFloat act att ps p :
  Guards.processGuardData parseInt parseFloat act att = Some ps -> In p ps ->
  (Guards.s_onTime (Guards.shifts (Guards.guard p)) + Guards.s_late (Guards.shifts (Guards.guard p))
   = Guards.s_total (Guards.shifts (Guards.guard p)))%nat.
Proof.
  intros H Hin.
  destruct (processGuardData_In _ _ _ _ _ _ H Hin) as (m & k & g & Hm & Hkg & ->).
  set (P := fun g : Guards.guard_acc =>
              (Guards.s_onTime (Guards.shifts g) + Guards.s_late (Guards.shifts g)
               = Guards.s_total (Guards.shifts g))%nat).
  assert (Hupd : forall r g, P g -> P (Guards.attendance_update parseFloat r g)).
  { intros r g' Hg. unfold P, Guards.attendance_update in *.
    destruct (str_is (late_hours r) "On-time"); simpl; lia. }
  pose proof (guard_table_inv parseInt parseFloat P act att) as Hinv.
  rewrite Hm in Hinv. apply (all_values_In P m k g); [| exact Hkg].
  apply Hinv.
  - intros r gid nm. apply Hupd. unfold P. reflexivity.
  - exact Hupd.
  - intros r g' Hg. exact Hg.
Qed.

Lemma processGuardData_shifts_balanced_witness :
  Guards.processGuardData parseInt_model parseFloat_model [] [att_G1_gate_a; att_G1_gate_b]
  = Some guard_example_profiles /\
  In guard_example_profile guard_example_profiles /\
  (Guards.s_onTime (Guards.shifts (Guards.guard guard_example_profile))
   + Guards.s_late (Guards.shifts (Guards.guard guard_example_profile))
   = Guards.s_total (Guards.shifts (Guards.guard guard_example_profile)))%nat.
Proof.
  split; [vm_compute; reflexivity |].
  split; [vm_compute; left; reflexivity |].
  apply (processGuardData_shifts_balanced parseInt_model parseFloat_model []
           [att_G1_gate_a; att_G1_gate_b] guard_example_profiles guard_example_profile);
    [vm_compute; reflexivity | vm_compute; left; reflexivity].
Defined.

(** ** Location Aggregator *)

(** C9: every location profile that [processLocationCoverage] returns has
    [shifts.total >= 1], so [coverageRate] is a finite number. *)
Theorem processLocationCoverage_total_pos parseFloat data ps p :
  Locations.processLocationCoverage parseFloat data = Some ps -> In p ps ->
  (1 <= Locations.l_total (Locations.shifts (Locations.loc p)))%nat /\
  exists q, Locations.coverageRate (Locations.metrics p) = JNum q.
Proof.
  intros H Hin.
  destruct (processLocationCoverage_In _ _ _ _ H Hin) as (m & k & l & Hm & Hkl & ->).
  set (P := fun l : Locations.loc_acc => (1 <= Locations.l_total (Locations.shifts l))%nat).
  assert (Hupd : forall r l, P (Locations.record_update parseFloat r l)).
  { intros r l'. unfold P, Locations.record_update.
    destruct (truthy (full_name r)); simpl; lia. }
  pose proof (location_table_inv parseFloat P data) as Hinv.
  rewrite Hm in Hinv.
  assert (Hl : P l).
  { apply (all_values_In P m k l); [| exact Hkl]. apply Hinv; intros; apply Hupd. }
  split; [exact Hl |].
  unfold Locations.finalize. cbn [Locations.metrics Locations.coverageRate Locations.loc].
  rewrite (js_div_nats _ _ Hl). eexists. reflexivity.
Qed.

Lemma processLocationCoverage_total_pos_witness :
  Locations.processLocationCoverage parseFloat_model [att_gate_a_guarded; att_gate_a_unguarded]
  = Some location_example_profiles /\
  In location_example_profile location_example_profiles /\
  (1 <= Locations.l_total (Locations.shifts (Locations.loc location_example_profile)))%nat /\
  exists q, Locations.coverageRate (Locations.metrics location_example_profile) = JNum q.
Proof.
  split; [vm_compute; reflexivity |].
  split; [vm_compute; left; reflexivity |].
  apply (processLocationCoverage_total_pos parseFloat_model
           [att_gate_a_guarded; att_gate_a_unguarded] location_example_profiles location_example_profile);
    [vm_compute; reflexivity | vm_compute; left; reflexivity].
Defined.

(** ** Hourly Activity Aggregator *)

(** C1 (fails): [complianceRate] is computed once, from the first record of
    the hour, when the bucket is pushed; later records update the counts but
    not the rate. Two records at 08:xx, the first on time and accurate, the
    second neither: final counts 2/1/1 give 50 by the spec's formula, the
    bucket says 100. *)
Lemma processActivityData_complianceRate_stale :
  exists b,
    Hourly.processActivityData parseInt_model getHours_model [act_0815_on_time; act_0845_delayed] = [b] /\
    Hourly.total b = 2%nat /\ Hourly.onTime b = 1%nat /\ Hourly.locationAccurate b = 1%nat /\
    spec_complianceRate b = 50%Z /\
    Hourly.complianceRate b = JNum 100 /\
    Hourly.complianceRate b <> JNum (inject_Z (spec_complianceRate b)).
Proof.
  eexists. split; [vm_compute; reflexivity |].
  repeat split; try (vm_compute; reflexivity).
  vm_compute. discriminate.
Qed.

(** C5 (fails): a timestamp that does not parse gives the hour NaN, which
    [===] never matches, so every such record opens a bucket of its own: two
    such records give two buckets, both with hour NaN. *)
Lemma processActivityData_NaN_hours_duplicated :
  exists b1 b2,
    Hourly.processActivityData parseInt_model getHours_model [act_bad_timestamp; act_bad_timestamp]
    = [b1; b2] /\
    Hourly.hour b1 = JNaN /\ Hourly.hour b2 = JNaN /\
    Hourly.total b1 = 1%nat /\ Hourly.total b2 = 1%nat.
Proof.
  do 2 eexists. split; [vm_compute; reflexivity |].
  repeat split; vm_compute; reflexivity.
Qed.

(** C6 (fails): a record whose timestamp is present but does not parse is
    not skipped: it makes a bucket with hour NaN. *)
Lemma processActivityData_unparseable_bucket :
  exists b,
    Hourly.processActivityData parseInt_model getHours_model [act_bad_timestamp] = [b] /\
    Hourly.hour b = JNaN /\ Hourly.total b = 1%nat /\ Hourly.onTime b = 1%nat.
Proof.
  eexists. split; [vm_compute; reflexivity |].
  repeat split; vm_compute; reflexivity.
Qed.

(** ** Compliance Evaluator *)

(** C2 (fails): with no location and no guard profile, [totalChecks] is 0
    and [overall] is [Math.round(0 / 0 * 100)], which is NaN. *)
Lemma calculateComplianceMetrics_empty_NaN (activities : list Hourly.bucket) :
  Compliance.overall (Compliance.calculateComplianceMetrics activities [] []) = JNaN.
Proof. reflexivity. Qed.

(** C3 (fails): with no activity and no attendance rows the processing
    succeeds and the overall compliance it reports is NaN, outside [0, 100]. *)
Lemma process_all_empty_overall_NaN parseInt parseFloat getHours :
  exists d,
    process_all parseInt parseFloat getHours [] [] = Some d /\
    Compliance.overall (compliance d) = JNaN.
Proof. eexists. split; reflexivity. Qed.

(** C8 (fails): an activity row whose service number is not seeded by the
    attendance pass but names an [Object.prototype] property passes the
    [!guardMetrics[guardId]] test, and [guard.activities.total++] throws: the
    same attendance data that gives a profile without the row gives none. *)
Lemma processGuardData_prototype_key_throws parseInt parseFloat :
  (exists ps, Guards.processGuardData parseInt parseFloat [] [att_G1_gate_a] = Some ps /\ ps <> []) /\
  Guards.processGuardData parseInt parseFloat [act_toString_guard] [att_G1_gate_a] = None.
Proof.
  split; [| reflexivity].
  eexists. split; [reflexivity | discriminate].
Qed.

(** ** The location table holds, per post name, the fold of that post's records *)

Lemma filter_filter_and {A} (f g : A -> bool) (l : list A) :
  filter f (filter g l) = filter (fun x => g x && f x) l.
Proof.
  induction l as [| x l IH]; simpl; [reflexivity |].
  destruct (g x); simpl; [destruct (f x); simpl |]; rewrite IH; reflexivity.
Qed.

Section LocationFold.
Variable parseFloat : string -> jsnum.


Lemma record_update_fold (l : list Row) (m : Locations.loc_acc) :
  let m' := fold_left (fun m r => Locations.record_update parseFloat r m) l m in
  Locations.location m' = Locations.location m /\
  Locations.l_total (Locations.shifts m') = (Locations.l_total (Locations.shifts m) + length l)%nat /\
  Locations.l_covered (Locations.shifts m')
  = (Locations.l_covered (Locations.shifts m) + length (filter (fun r => truthy (full_name r)) l))%nat /\
  Locations.l_onTime (Locations.shifts m')
  = (Locations.l_onTime (Locations.shifts m)
     + length (filter (fun r => truthy (full_name r) && str_is (late_hours r) "On-time") l))%nat /\
  Locations.shiftHours m'
  = fold_left (fun acc r => add_duty_hours parseFloat r acc)
      (filter (fun r => truthy (full_name r)) l) (Locations.shiftHours m).
Proof.
  revert m. induction l as [| r l IH]; intro m; simpl.
  - repeat split; lia.
  - destruct (IH (Locations.record_update parseFloat r m)) as (H1 & H2 & H3 & H4 & H5).
    unfold Locations.record_update in *.
    destruct (truthy (full_name r)), (str_is (late_hours r) "On-time");
      simpl in *; repeat split; try rewrite H1; try rewrite H2; try rewrite H3;
      try rewrite H4; try rewrite H5; simpl; try lia; reflexivity.
Qed.


Lemma at_post_other (k loc : string) (r : Row) :
  post_name r = Some loc -> k <> loc -> SpecLocation.at_post k r = false.
Proof.
  intros Hp Hne. unfold SpecLocation.at_post, str_is. rewrite Hp.
  apply String.eqb_neq. congruence.
Qed.

Lemma loc_fold_other (k : string) (rs : list Row) (r : Row) :
  SpecLocation.at_post k r = false -> loc_fold parseFloat k (rs ++ [r]) = loc_fold parseFloat k rs.
Proof.
  intro H. unfold loc_fold. rewrite filter_app. simpl. rewrite H, app_nil_r. reflexivity.
Qed.

Lemma loc_fold_same (k : string) (rs : list Row) (r : Row) :
  SpecLocation.at_post k r = true ->
  loc_fold parseFloat k (rs ++ [r]) = Locations.record_update parseFloat r (loc_fold parseFloat k rs).
Proof.
  intro H. unfold loc_fold. rewrite filter_app. simpl. rewrite H, fold_left_app. reflexivity.
Qed.

Lemma location_step_loc_inv (rs : list Row) (T T' : list (string * Locations.loc_acc)) (r : Row) :
  loc_inv parseFloat rs T -> Locations.location_step parseFloat (Some T) r = Some T' -> loc_inv parseFloat (rs ++ [r]) T'.
Proof.
  intros (Hnd & Hfound & Hmissing) Hstep.
  unfold Locations.location_step in Hstep.
  destruct (post_name r) as [loc |] eqn:Hp.
  2:{ inversion Hstep; subst. split; [exact Hnd | split].
      - intros k l Hk. destruct (Hfound k l Hk) as [Hne ->]. split; [exact Hne |].
        symmetry. apply loc_fold_other. unfold SpecLocation.at_post, str_is. rewrite Hp. reflexivity.
      - intros k Hne Hk. rewrite filter_app, (Hmissing k Hne Hk). simpl.
        unfold SpecLocation.at_post, str_is. rewrite Hp. reflexivity. }
  destruct (truthy (Some loc)) eqn:Htr.
  2:{ inversion Hstep; subst. simpl in Htr. apply Bool.negb_false_iff, String.eqb_eq in Htr. subst loc.
      split; [exact Hnd | split].
      - intros k l Hk. destruct (Hfound k l Hk) as [Hne ->]. split; [exact Hne |].
        symmetry. apply loc_fold_other. apply (at_post_other k "" r Hp Hne).
      - intros k Hne Hk. rewrite filter_app, (Hmissing k Hne Hk). simpl.
        rewrite (at_post_other k "" r Hp Hne). reflexivity. }
  assert (Hloc : loc <> "").
  { simpl in Htr. intro Heq. subst. discriminate. }
  assert (Hat : SpecLocation.at_post loc r = true).
  { unfold SpecLocation.at_post, str_is. rewrite Hp. apply String.eqb_refl. }
  unfold obj_get in Hstep.
  destruct (assoc_find loc T) as [m |] eqn:Hf.
  - inversion Hstep; subst. clear Hstep.
    destruct (Hfound loc m Hf) as [_ Hm].
    split; [apply obj_set_NoDup, Hnd | split].
    + intros k l Hk. destruct (String.eqb_spec k loc) as [-> | Hne].
      * rewrite assoc_find_obj_set_eq in Hk. inversion Hk; subst.
        split; [exact Hloc |]. rewrite loc_fold_same by exact Hat. reflexivity.
      * rewrite assoc_find_obj_set_neq in Hk by exact Hne.
        destruct (Hfound k l Hk) as [Hne' ->]. split; [exact Hne' |].
        symmetry. apply loc_fold_other, (at_post_other k loc r Hp Hne).
    + intros k Hne Hk. destruct (String.eqb_spec k loc) as [-> | Hne'].
      * rewrite assoc_find_obj_set_eq in Hk. discriminate.
      * rewrite assoc_find_obj_set_neq in Hk by exact Hne'.
        rewrite filter_app, (Hmissing k Hne Hk). simpl.
        rewrite (at_post_other k loc r Hp Hne'). reflexivity.
  - destruct (existsb (String.eqb loc) object_prototype_keys); [discriminate |].
    inversion Hstep; subst. clear Hstep.
    split; [apply obj_set_NoDup, Hnd | split].
    + intros k l Hk. destruct (String.eqb_spec k loc) as [-> | Hne].
      * rewrite assoc_find_obj_set_eq in Hk. inversion Hk; subst.
        split; [exact Hloc |]. rewrite loc_fold_same by exact Hat.
        unfold loc_fold. rewrite (Hmissing loc Hloc Hf). reflexivity.
      * rewrite assoc_find_obj_set_neq in Hk by exact Hne.
        destruct (Hfound k l Hk) as [Hne' ->]. split; [exact Hne' |].
        symmetry. apply loc_fold_other, (at_post_other k loc r Hp Hne).
    + intros k Hne Hk. destruct (String.eqb_spec k loc) as [-> | Hne'].
      * rewrite assoc_find_obj_set_eq in Hk. discriminate.
      * rewrite assoc_find_obj_set_neq in Hk by exact Hne'.
        rewrite filter_app, (Hmissing k Hne Hk). simpl.
        rewrite (at_post_other k loc r Hp Hne'). reflexivity.
Qed.

Lemma location_fold_none (l : list Row) :
  fold_left (Locations.location_step parseFloat) l None = None.
Proof. induction l; simpl; auto. Qed.

Lemma location_fold_loc_inv (l rs : list Row) (T T' : list (string * Locations.loc_acc)) :
  loc_inv parseFloat rs T -> fold_left (Locations.location_step parseFloat) l (Some T) = Some T' ->
  loc_inv parseFloat (rs ++ l) T'.
Proof.
  revert rs T. induction l as [| r l IH]; intros rs T Hinv Hfold; cbn [fold_left] in Hfold.
  - inversion Hfold; subst. rewrite app_nil_r. exact Hinv.
  - destruct (Locations.location_step parseFloat (Some T) r) as [T1 |] eqn:Hs.
    + replace (rs ++ r :: l)%list with ((rs ++ [r]) ++ l)%list by (rewrite <- app_assoc; reflexivity).
      apply (IH _ T1); [eapply location_step_loc_inv; eassumption | exact Hfold].
    + rewrite location_fold_none in Hfold. discriminate.
Qed.

Lemma location_table_loc_fold (data : list Row) (T : list (string * Locations.loc_acc)) k l :
  Locations.location_table parseFloat data = Some T -> In (k, l) T -> l = loc_fold parseFloat k data.
Proof.
  intros Ht Hin.
  pose proof (location_fold_loc_inv data [] [] T) as Hinv.
  destruct Hinv as (Hnd & Hfound & _); [| exact Ht |].
  - split; [constructor | split; intros; [discriminate | reflexivity]].
  - apply (Hfound k l). apply In_assoc_find; assumption.
Qed.

End LocationFold.

(** C7: in every location profile that [processLocationCoverage] returns,
    [total] counts every record with that post name, [covered], [onTime] and
    the duty hours only the records that also carry a guard display name, and
    [punctualityRate = round(100 * onTime / covered)] if [covered > 0], else 0;
    and for Gate A with one guarded on-time row and one row without a guard:
    total 2, covered 1, onTime 1, coverageRate 50, punctualityRate 100. *)
Theorem processLocationCoverage_counts :
  (forall parseFloat data ps p,
     Locations.processLocationCoverage parseFloat data = Some ps -> In p ps ->
     let k := Locations.location (Locations.loc p) in
     let sh := Locations.shifts (Locations.loc p) in
     Locations.l_total sh = SpecLocation.total data k /\
     Locations.l_covered sh = SpecLocation.covered data k /\
     Locations.l_onTime sh = SpecLocation.onTime data k /\
     Locations.shiftHours (Locations.loc p) = SpecLocation.dutyHours parseFloat data k /\
     Locations.punctualityRate (Locations.metrics p)
     = SpecLocation.punctualityRate (Locations.l_covered sh) (Locations.l_onTime sh)) /\
  (forall parseFloat,
     exists p,
       Locations.processLocationCoverage parseFloat [att_gate_a_guarded; att_gate_a_unguarded]
       = Some [p] /\
       Locations.location (Locations.loc p) = "Gate A" /\
       Locations.shifts (Locations.loc p) = Locations.mkLocShifts 2 1 1 /\
       Locations.coverageRate (Locations.metrics p) = JNum 50 /\
       Locations.punctualityRate (Locations.metrics p) = JNum 100).
Proof.
  split.
  - intros parseFloat data ps p H Hin.
    destruct (processLocationCoverage_In _ _ _ _ H Hin) as (m & k & l & Hm & Hkl & ->).
    rewrite (location_table_loc_fold parseFloat data m k l Hm Hkl).
    cbn [Locations.loc].
    pose proof (record_update_fold parseFloat (filter (SpecLocation.at_post k) data) (Locations.seed k))
      as HR.
    cbv zeta in HR.
    change (fold_left (fun m r => Locations.record_update parseFloat r m)
              (filter (SpecLocation.at_post k) data) (Locations.seed k))
      with (loc_fold parseFloat k data) in HR.
    destruct HR as (Hloc & Htot & Hcov & Hon & Hhours).
    cbn [Locations.seed Locations.location Locations.shifts Locations.l_total
         Locations.l_covered Locations.l_onTime Locations.shiftHours] in Hloc, Htot, Hcov, Hon, Hhours.
    cbv zeta.
    replace (Locations.loc (Locations.finalize (loc_fold parseFloat k data)))
      with (loc_fold parseFloat k data) by reflexivity.
    rewrite Hloc.
    unfold SpecLocation.total, SpecLocation.covered, SpecLocation.onTime, SpecLocation.dutyHours.
    rewrite !filter_filter_and in Hcov, Hon, Hhours.
    repeat split.
    + exact Htot.
    + rewrite Hcov. reflexivity.
    + rewrite Hon. simpl. f_equal. apply filter_ext. intro r.
      unfold SpecLocation.guarded_at. apply andb_assoc.
    + rewrite Hhours. reflexivity.
    + unfold Locations.finalize. cbn [Locations.metrics Locations.punctualityRate Locations.loc].
      unfold SpecLocation.punctualityRate.
      set (c := Locations.l_covered (Locations.shifts (loc_fold parseFloat k data))).
      set (o := Locations.l_onTime (Locations.shifts (loc_fold parseFloat k data))).
      destruct (Nat.ltb_spec 0 c) as [Hc | Hc].
      * replace (c =? 0)%nat with false by (symmetry; apply Nat.eqb_neq; lia).
        rewrite (js_div_nats o c Hc). cbn [js_mul Math_round].
        do 2 f_equal. apply js_round_q_comp.
        pose proof (inject_Z_nat_nonzero c Hc). field. exact H0.
      * replace (c =? 0)%nat with true by (symmetry; apply Nat.eqb_eq; lia). reflexivity.
  - intros parseFloat. eexists. split; [reflexivity |].
    repeat split; vm_compute; reflexivity.
Qed.

Lemma processLocationCoverage_counts_witness :
  Locations.processLocationCoverage parseFloat_model [att_gate_a_guarded; att_gate_a_unguarded]
  = Some location_example_profiles /\
  In location_example_profile location_example_profiles /\
  Locations.l_covered (Locations.shifts (Locations.loc location_example_profile))
  = SpecLocation.covered [att_gate_a_guarded; att_gate_a_unguarded]
      (Locations.location (Locations.loc location_example_profile)).
Proof.
  split; [vm_compute; reflexivity |].
  split; [vm_compute; left; reflexivity |].
  apply (proj1 processLocationCoverage_counts parseFloat_model
           [att_gate_a_guarded; att_gate_a_unguarded] location_example_profiles
           location_example_profile);
    [vm_compute; reflexivity | vm_compute; left; reflexivity].
Defined.

(** ** Pass 2 of [processGuardData] never adds a key *)

Lemma assoc_find_None_keys {V} (k : string) (T T' : list (string * V)) :
  map fst T' = map fst T -> assoc_find k T = None -> assoc_find k T' = None.
Proof.
  revert T. induction T' as [| [k' v'] T' IH]; intros T Hkeys Hnone; [reflexivity |].
  destruct T as [| [k0 v0] T]; [discriminate |].
  simpl in Hkeys. inversion Hkeys; subst. simpl in Hnone |- *.
  destruct (String.eqb k k0); [discriminate |]. apply (IH T); assumption.
Qed.

Section ActivityPass.
Variable parseInt : string -> jsnum.

Lemma activity_fold_none (l : list Row) :
  fold_left (Guards.activity_step parseInt) l None = None.
Proof. induction l; simpl; auto. Qed.

Lemma activity_fold_keys (l : list Row) (T T' : list (string * Guards.guard_acc)) :
  fold_left (Guards.activity_step parseInt) l (Some T) = Some T' -> map fst T' = map fst T.
Proof.
  revert T. induction l as [| r l IH]; intros T Hfold; cbn [fold_left] in Hfold.
  - inversion Hfold; reflexivity.
  - destruct (Guards.activity_step parseInt (Some T) r) as [T1 |] eqn:Hs.
    + rewrite (IH T1 Hfold).
      unfold Guards.activity_step in Hs.
      destruct (service_number r) as [gid |]; [| inversion Hs; reflexivity].
      destruct (truthy (Some gid)); [| inversion Hs; reflexivity].
      unfold obj_get in Hs. destruct (assoc_find gid T) as [g |] eqn:Hf.
      * inversion Hs; subst. apply (obj_set_keys_found T gid _ g Hf).
      * destruct (existsb _ _); inversion Hs; reflexivity.
    + rewrite activity_fold_none in Hfold. discriminate.
Qed.

Lemma activity_step_skip (T : list (string * Guards.guard_acc)) (r : Row) :
  (match service_number r with
   | Some gid => truthy (Some gid) = true ->
                 assoc_find gid T = None /\
                 existsb (String.eqb gid) object_prototype_keys = false
   | None => True
   end) ->
  Guards.activity_step parseInt (Some T) r = Some T.
Proof.
  unfold Guards.activity_step. destruct (service_number r) as [gid |]; [| reflexivity].
  intro H. destruct (truthy (Some gid)) eqn:Ht; [| reflexivity].
  destruct (H eq_refl) as [Hf Hp]. unfold obj_get. rewrite Hf, Hp. reflexivity.
Qed.

End ActivityPass.

(** For service numbers that are not [Object.prototype] property names,
    activity rows of guards absent from the attendance data change nothing,
    wherever they are inserted. *)
Theorem processGuardData_ignores_unseeded parseInt parseFloat act1 extra act2 att :
  Forall (unseeded_ordinary parseFloat att) extra ->
  Guards.processGuardData parseInt parseFloat (act1 ++ extra ++ act2) att
  = Guards.processGuardData parseInt parseFloat (act1 ++ act2) att.
Proof.
  intro Hextra. unfold Guards.processGuardData, Guards.guard_table.
  rewrite !fold_left_app. f_equal.
  fold (attendance_pass parseFloat att).
  destruct (attendance_pass parseFloat att) as [T1 |] eqn:Hp1.
  2:{ rewrite !activity_fold_none. reflexivity. }
  destruct (fold_left (Guards.activity_step parseInt) act1 (Some T1)) as [T |] eqn:Ha1.
  2:{ rewrite !activity_fold_none. reflexivity. }
  pose proof (activity_fold_keys parseInt act1 T1 T Ha1) as Hkeys.
  f_equal. clear Ha1.
  induction Hextra as [| r extra Hr Hextra IH]; [reflexivity |].
  cbn [fold_left]. rewrite activity_step_skip; [exact IH |].
  unfold unseeded_ordinary in Hr.
  destruct (service_number r) as [gid |]; [| exact I].
  intro Ht. destruct (Hr Ht) as [Hf Hproto]. split; [| exact Hproto].
  apply (assoc_find_None_keys gid T1 T Hkeys (Hf T1 Hp1)).
Qed.

(** ** With parseable timestamps, buckets come out in strictly ascending hour *)

Lemma Forall_perm {A} (P : A -> Prop) (l l' : list A) :
  Permutation l l' -> Forall P l -> Forall P l'.
Proof.
  intros Hp Hl. apply Forall_forall. intros x Hx.
  apply (proj1 (Forall_forall _ _) Hl). apply (Permutation_in _ (Permutation_sym Hp)), Hx.
Qed.

Lemma hour_key_ne (b : Hourly.bucket) (qb qh : Q) :
  Hourly.hour b = JNum qb -> Qeq_bool qb qh = false -> hour_key b <> Some (Qred qh).
Proof.
  intros Hb Hne Heq. unfold hour_key in Heq. rewrite Hb in Heq. inversion Heq as [Hred].
  apply Qeq_bool_neq in Hne. apply Hne.
  rewrite <- (Qred_correct qb), <- (Qred_correct qh), Hred. reflexivity.
Qed.

Lemma hour_key_neq_Qeq (a b : Hourly.bucket) (x y : Q) :
  Hourly.hour a = JNum x -> Hourly.hour b = JNum y -> hour_key a <> hour_key b -> ~ x == y.
Proof.
  intros Ha Hb Hne Heq. apply Hne. unfold hour_key. rewrite Ha, Hb.
  f_equal. apply Qred_complete, Heq.
Qed.

Section HourOrder.
Variable parseInt : string -> jsnum.
Variable getHours : string -> jsnum.

Lemma update_existing_hours (h : jsnum) (m : Hourly.metrics) (acc acc' : list Hourly.bucket) :
  Hourly.update_existing h m acc = Some acc' -> map Hourly.hour acc' = map Hourly.hour acc.
Proof.
  revert acc'. induction acc as [| b acc IH]; intros acc' H; simpl in H; [discriminate |].
  destruct (js_num_eq (Hourly.hour b) h).
  - inversion H; subst. reflexivity.
  - destruct (Hourly.update_existing h m acc) as [acc1 |]; simpl in H; [| discriminate].
    inversion H; subst. simpl. f_equal. apply IH. reflexivity.
Qed.

Lemma update_existing_none (h : jsnum) (m : Hourly.metrics) (acc : list Hourly.bucket) :
  Hourly.update_existing h m acc = None -> Forall (fun b => js_num_eq (Hourly.hour b) h = false) acc.
Proof.
  induction acc as [| b acc IH]; simpl; intro H; [constructor |].
  destruct (js_num_eq (Hourly.hour b) h) eqn:Hb; [discriminate |].
  constructor; [exact Hb |]. apply IH.
  destruct (Hourly.update_existing h m acc); [discriminate | reflexivity].
Qed.


Lemma hours_ok_same_hours (acc acc' : list Hourly.bucket) :
  map Hourly.hour acc' = map Hourly.hour acc -> hours_ok acc -> hours_ok acc'.
Proof.
  intros Hh [Hfin Hnd].
  set (key := fun h => match h with JNum q => Some (Qred q) | _ => None end).
  assert (Hk : forall l, map hour_key l = map key (map Hourly.hour l)).
  { intro l. rewrite map_map. reflexivity. }
  assert (Hf : forall l, Forall finite_hour l <-> Forall (fun h => exists q, h = JNum q) (map Hourly.hour l)).
  { intro l. rewrite Forall_map. reflexivity. }
  split.
  - apply Hf. rewrite Hh. apply Hf, Hfin.
  - rewrite Hk, Hh, <- Hk. exact Hnd.
Qed.

Lemma step_hours_ok (acc : list Hourly.bucket) (r : Row) :
  (forall s, date_time r = Some s -> s <> "" -> exists q, getHours s = JNum q) ->
  hours_ok acc -> hours_ok (Hourly.step parseInt getHours acc r).
Proof.
  intros Hparse Hok. unfold Hourly.step.
  destruct (date_time r) as [s |] eqn:Hd; [| exact Hok].
  destruct (String.eqb_spec s "") as [_ | Hne]; [exact Hok |].
  destruct (Hparse s eq_refl Hne) as [qh Hq].
  destruct (Hourly.update_existing (getHours s) (Hourly.metrics_of parseInt r) acc) as [acc' |] eqn:Hu.
  - exact (hours_ok_same_hours acc acc' (update_existing_hours _ _ _ _ Hu) Hok).
  - apply update_existing_none in Hu. destruct Hok as [Hfin Hnd]. split.
    + apply Forall_app. split; [exact Hfin |]. constructor; [| constructor].
      exists qh. exact Hq.
    + rewrite map_app. simpl.
      apply (Permutation_NoDup (Permutation_cons_append _ _)).
      constructor; [| exact Hnd].
      intro Hin. apply in_map_iff in Hin as [b [Hkb Hb]].
      pose proof (proj1 (Forall_forall _ _) Hfin b Hb) as [qb Hqb].
      pose proof (proj1 (Forall_forall _ _) Hu b Hb) as Hneq.
      cbv beta in Hneq. rewrite Hqb, Hq in Hneq. cbn [js_num_eq] in Hneq.
      unfold hour_key at 2 in Hkb. cbn [Hourly.hour Hourly.new_bucket] in Hkb.
      rewrite Hq in Hkb.
      apply (hour_key_ne b qb qh Hqb Hneq). exact Hkb.
Qed.

Lemma fold_step_hours_ok (data : list Row) (acc : list Hourly.bucket) :
  timestamps_parse getHours data -> hours_ok acc ->
  hours_ok (fold_left (Hourly.step parseInt getHours) data acc).
Proof.
  revert acc. induction data as [| r data IH]; intros acc Hparse Hok; simpl; [exact Hok |].
  apply IH.
  - intros r' s Hin. apply Hparse. right. exact Hin.
  - apply step_hours_ok; [| exact Hok]. intros s. apply Hparse. left. reflexivity.
Qed.

Lemma sort_insert_sorted (x : Hourly.bucket) (acc : list Hourly.bucket) :
  StronglySorted hour_lt acc -> Forall finite_hour acc -> finite_hour x ->
  Forall (fun y => hour_key y <> hour_key x) acc ->
  StronglySorted hour_lt (sort_insert Hourly.hour_compare x acc).
Proof.
  induction acc as [| y acc IH]; intros Hs Hfin Hx Hne; simpl.
  - constructor; constructor.
  - inversion Hs as [| ? ? Hs' Hy]; subst.
    inversion Hfin as [| ? ? [qy Hqy] Hfin']; subst.
    inversion Hne as [| ? ? Hyx Hne']; subst.
    destruct Hx as [qx Hqx].
    unfold Hourly.hour_compare. rewrite Hqy, Hqx. cbn [js_sub js_add js_pos].
    destruct (Qle_bool (qy + - qx) 0) eqn:Hle; simpl.
    + (* y stays first *)
      apply Qle_bool_iff in Hle.
      assert (Hlt : qy < qx).
      { destruct (Qle_lteq qy qx) as [H1 _].
        destruct H1 as [H1 | H1]; [| exact H1 |].
        - apply (Qplus_le_l _ _ (- qx)). ring_simplify. exact Hle.
        - exfalso. exact (hour_key_neq_Qeq y x qy qx Hqy Hqx Hyx H1). }
      constructor.
      * apply IH; [exact Hs' | exact Hfin' | exists qx; exact Hqx | exact Hne'].
      * apply (Forall_perm _ (x :: acc)); [apply Permutation_sym, sort_insert_perm |].
        constructor; [exists qy, qx; auto | exact Hy].
    + (* x goes before y *)
      assert (Hlt : qx < qy).
      { apply Qnot_le_lt. intro H. apply Bool.not_true_iff_false in Hle. apply Hle.
        apply Qle_bool_iff. apply (Qplus_le_l _ _ qx). ring_simplify. exact H. }
      constructor; [constructor; assumption |].
      constructor; [exists qx, qy; auto |].
      apply Forall_forall. intros z Hz.
      destruct (proj1 (Forall_forall _ _) Hy z Hz) as (a & c & Ha & Hc & Hac).
      rewrite Hqy in Ha. inversion Ha; subst.
      exists qx, c. split; [exact Hqx | split; [exact Hc |]]. apply (Qlt_trans _ a); assumption.
Qed.

Lemma js_sort_hours_sorted (l acc : list Hourly.bucket) :
  StronglySorted hour_lt acc -> Forall finite_hour (acc ++ l) -> NoDup (map hour_key (acc ++ l)) ->
  StronglySorted hour_lt (fold_left (fun acc x => sort_insert Hourly.hour_compare x acc) l acc).
Proof.
  revert acc. induction l as [| x l IH]; intros acc Hs Hfin Hnd; simpl; [exact Hs |].
  assert (Hperm : Permutation (sort_insert Hourly.hour_compare x acc ++ l) (acc ++ x :: l)).
  { rewrite sort_insert_perm. simpl. apply Permutation_middle. }
  apply IH.
  - apply sort_insert_sorted; [exact Hs | | |].
    + apply Forall_app in Hfin as [Hf _]. exact Hf.
    + apply Forall_app in Hfin as [_ Hf]. inversion Hf; assumption.
    + rewrite map_app in Hnd. simpl in Hnd. apply NoDup_remove_2 in Hnd.
      apply Forall_forall. intros y Hy Heq. apply Hnd. apply in_or_app. left.
      rewrite <- Heq. apply in_map, Hy.
  - apply (Forall_perm _ _ _ (Permutation_sym Hperm)), Hfin.
  - apply (Permutation_NoDup (Permutation_map _ (Permutation_sym Hperm))), Hnd.
Qed.

End HourOrder.

(** With every timestamp parseable, [processActivityData] returns its
    buckets in strictly ascending hour, hence with no two of the same hour. *)
Theorem processActivityData_ascending_when_parsed parseInt getHours data :
  timestamps_parse getHours data ->
  StronglySorted hour_lt (Hourly.processActivityData parseInt getHours data).
Proof.
  intro Hparse. unfold Hourly.processActivityData, js_sort.
  destruct (fold_step_hours_ok parseInt getHours data [] Hparse) as [Hfin Hnd];
    [split; constructor |].
  apply js_sort_hours_sorted; [constructor | exact Hfin | exact Hnd].
Qed.

(** ** Every rate but the overall one of an empty input lies in [0, 100] *)

Lemma qdiv_bounds (x y c : Q) : 0 <= x -> x <= c * y -> 0 < y -> 0 <= x / y /\ x / y <= c.
Proof.
  intros Hx Hxy Hy. split.
  - apply Qle_shift_div_l; [exact Hy | rewrite Qmult_0_l; exact Hx].
  - apply Qle_shift_div_r; assumption.
Qed.

Lemma round_in_0_100 (x : Q) : 0 <= x -> x <= 100 -> in_0_100 (Math_round (JNum x)).
Proof.
  intros H0 H100. exists (js_round_q x). split; [reflexivity |]. unfold js_round_q. split.
  - change 0%Z with (Qfloor (0 + (1 # 2))). apply Qfloor_resp_le.
    apply Qplus_le_compat; [exact H0 | apply Qle_refl].
  - change 100%Z with (Qfloor (100 + (1 # 2))). apply Qfloor_resp_le.
    apply Qplus_le_compat; [exact H100 | apply Qle_refl].
Qed.

Lemma zero_in_0_100 : in_0_100 (JNum 0).
Proof. exists 0%Z. split; [reflexivity | lia]. Qed.

Lemma nat_Q_le (a b : nat) : (a <= b)%nat -> inject_Z (Z.of_nat a) <= inject_Z (Z.of_nat b).
Proof. intro H. rewrite <- Zle_Qle. lia. Qed.

Lemma nat_Q_nonneg (a : nat) : 0 <= inject_Z (Z.of_nat a).
Proof. change 0 with (inject_Z 0). rewrite <- Zle_Qle. lia. Qed.

Lemma nat_Q_pos (a : nat) : (0 < a)%nat -> 0 < inject_Z (Z.of_nat a).
Proof. intro H. change 0 with (inject_Z 0). rewrite <- Zlt_Qlt. lia. Qed.

(** [Math.round((a / b) * 100)] for counts [a <= b], [b > 0] *)
Lemma percent_in_0_100 (a b : nat) :
  (a <= b)%nat -> (0 < b)%nat ->
  in_0_100 (Math_round (js_mul (js_div (js_of_nat a) (js_of_nat b)) (JNum 100))).
Proof.
  intros Hab Hb. rewrite (js_div_nats a b Hb). cbn [js_mul].
  destruct (qdiv_bounds (inject_Z (Z.of_nat a)) (inject_Z (Z.of_nat b)) 1)
    as [Hl Hu]; [apply nat_Q_nonneg | rewrite Qmult_1_l; apply nat_Q_le, Hab | apply nat_Q_pos, Hb |].
  apply round_in_0_100.
  - apply Qmult_le_0_compat; [exact Hl | discriminate].
  - rewrite <- (Qmult_1_l 100) at 2. apply Qmult_le_compat_r; [exact Hu | discriminate].
Qed.

(** [Math.round(((a + l) / (2 * t)) * 100)] for counts [a, l <= t], [t > 0] *)
Lemma pair_percent_in_0_100 (a l t : nat) :
  (a <= t)%nat -> (l <= t)%nat -> (0 < t)%nat ->
  in_0_100 (Math_round (js_mul (js_div (js_add (js_of_nat a) (js_of_nat l))
                                       (js_mul (JNum 2) (js_of_nat t))) (JNum 100))).
Proof.
  intros Ha Hl Ht. rewrite (js_div_sum_nats a l t Ht). cbn [js_mul].
  pose proof (nat_Q_le _ _ Ha). pose proof (nat_Q_le _ _ Hl).
  pose proof (nat_Q_nonneg a). pose proof (nat_Q_nonneg l). pose proof (nat_Q_pos t Ht).
  destruct (qdiv_bounds (inject_Z (Z.of_nat a) + inject_Z (Z.of_nat l))
              (2 * inject_Z (Z.of_nat t)) 1) as [Hlo Hup].
  - apply (Qplus_le_compat 0 _ 0); assumption.
  - rewrite Qmult_1_l. setoid_replace (2 * inject_Z (Z.of_nat t))
      with (inject_Z (Z.of_nat t) + inject_Z (Z.of_nat t)) by ring.
    apply Qplus_le_compat; assumption.
  - apply (Qmult_lt_0_compat 2); [reflexivity | assumption].
  - apply round_in_0_100.
    + apply Qmult_le_0_compat; [exact Hlo | discriminate].
    + rewrite <- (Qmult_1_l 100) at 2. apply Qmult_le_compat_r; [exact Hup | discriminate].
Qed.

Lemma performance_in_0_100 (g : Guards.guard_acc) :
  guard_counts_ok g -> in_0_100 (Guards.performanceScore (Guards.metrics (Guards.finalize g))).
Proof.
  intros (Hs & Ho & Hl). rewrite finalize_performanceScore.
  exists (SpecScore.performanceScore g). split; [reflexivity |].
  assert (Hatt : 0 <= SpecScore.attendanceScore g <= 30).
  { unfold SpecScore.attendanceScore.
    destruct (Nat.eqb_spec (Guards.s_total (Guards.shifts g)) 0) as [_ | Hne];
      [split; discriminate |].
    apply qdiv_bounds.
    - apply Qmult_le_0_compat; [discriminate | apply nat_Q_nonneg].
    - apply Qmult_le_l; [reflexivity | apply nat_Q_le, Hs].
    - apply nat_Q_pos. lia. }
  assert (Hact : 0 <= SpecScore.activityScore g <= 40).
  { unfold SpecScore.activityScore.
    destruct (Nat.eqb_spec (Guards.a_total (Guards.activities g)) 0) as [_ | Hne];
      [split; discriminate |].
    pose proof (nat_Q_le _ _ Ho). pose proof (nat_Q_le _ _ Hl).
    pose proof (nat_Q_nonneg (Guards.a_onTime (Guards.activities g))).
    pose proof (nat_Q_nonneg (Guards.a_locationAccurate (Guards.activities g))).
    apply qdiv_bounds.
    - apply Qmult_le_0_compat; [discriminate |]. apply (Qplus_le_compat 0 _ 0); assumption.
    - setoid_replace (40 * (2 * inject_Z (Z.of_nat (Guards.a_total (Guards.activities g)))))
        with (40 * (inject_Z (Z.of_nat (Guards.a_total (Guards.activities g)))
                    + inject_Z (Z.of_nat (Guards.a_total (Guards.activities g))))) by ring.
      apply Qmult_le_l; [reflexivity |]. apply Qplus_le_compat; assumption.
    - apply (Qmult_lt_0_compat 2); [reflexivity | apply nat_Q_pos; lia]. }
  assert (Hcov : 0 <= SpecScore.coverageScore g <= 30).
  { unfold SpecScore.coverageScore. split.
    - apply Q.min_glb; [discriminate |].
      apply Qle_shift_div_l; [reflexivity |]. rewrite Qmult_0_l.
      apply Qmult_le_0_compat; [discriminate | apply nat_Q_nonneg].
    - apply Q.le_min_l. }
  unfold SpecScore.performanceScore.
  destruct Hatt as [Ha0 Ha1], Hact as [Hb0 Hb1], Hcov as [Hc0 Hc1].
  assert (Hsum0 : 0 <= SpecScore.attendanceScore g + SpecScore.activityScore g + SpecScore.coverageScore g).
  { apply (Qplus_le_compat 0 _ 0); [apply (Qplus_le_compat 0 _ 0) |]; assumption. }
  assert (Hsum1 : SpecScore.attendanceScore g + SpecScore.activityScore g + SpecScore.coverageScore g <= 100).
  { apply (Qle_trans _ (30 + 40 + 30)); [| discriminate].
    apply Qplus_le_compat; [apply Qplus_le_compat |]; assumption. }
  destruct (round_in_0_100 _ Hsum0 Hsum1) as [z [Hz Hb]].
  cbn [Math_round] in Hz. inversion Hz as [Heq]. rewrite Heq. exact Hb.
Qed.

Section RateBounds.
Variable parseInt : string -> jsnum.
Variable parseFloat : string -> jsnum.
Variable getHours : string -> jsnum.

Lemma guard_table_counts_ok act att :
  opt_inv guard_counts_ok (Guards.guard_table parseInt parseFloat act att).
Proof.
  apply guard_table_inv.
  - intros r gid nm. unfold guard_counts_ok, Guards.attendance_update, Guards.seed; cbn.
    destruct (str_is (late_hours r) "On-time"); cbn; lia.
  - intros r g (H1 & H2 & H3). unfold guard_counts_ok, Guards.attendance_update; cbn.
    destruct (str_is (late_hours r) "On-time"); cbn; lia.
  - intros r g (H1 & H2 & H3). unfold guard_counts_ok, Guards.activity_update; cbn.
    split; [exact H1 |].
    destruct (location_accuracy r) as [la |];
      repeat match goal with |- context [if ?b then _ else _] => destruct b end; cbn; lia.
Qed.

Lemma location_table_counts_ok data :
  opt_inv loc_counts_ok (Locations.location_table parseFloat data).
Proof.
  apply location_table_inv.
  - intros r loc. unfold loc_counts_ok, Locations.record_update, Locations.seed; cbn.
    destruct (truthy (full_name r)); cbn; [destruct (str_is (late_hours r) "On-time") |]; cbn; lia.
  - intros r l (H0 & H1 & H2). unfold loc_counts_ok, Locations.record_update; cbn.
    destruct (truthy (full_name r)); cbn; [destruct (str_is (late_hours r) "On-time") |]; cbn; lia.
Qed.

Lemma location_rates_in_0_100 (l : Locations.loc_acc) :
  loc_counts_ok l ->
  in_0_100 (Locations.coverageRate (Locations.metrics (Locations.finalize l))) /\
  in_0_100 (Locations.punctualityRate (Locations.metrics (Locations.finalize l))).
Proof.
  intros (H0 & H1 & H2). unfold Locations.finalize.
  cbn -[Math_round js_mul js_div js_of_nat Nat.ltb]. split.
  - apply percent_in_0_100; lia.
  - destruct (Nat.ltb_spec 0 (Locations.l_covered (Locations.shifts l)));
      [apply percent_in_0_100; lia | apply zero_in_0_100].
Qed.

Lemma guard_rates_in_0_100 (g : Guards.guard_acc) :
  guard_counts_ok g ->
  in_0_100 (Guards.attendanceRate (Guards.metrics (Guards.finalize g))) /\
  in_0_100 (Guards.activityComplianceRate (Guards.metrics (Guards.finalize g))) /\
  in_0_100 (Guards.performanceScore (Guards.metrics (Guards.finalize g))).
Proof.
  intros Hg. pose proof (performance_in_0_100 g Hg) as Hp. destruct Hg as (H1 & H2 & H3).
  split; [| split; [| exact Hp]]; unfold Guards.finalize;
    cbn -[Math_round js_mul js_div js_add js_of_nat Nat.ltb].
  - destruct (Nat.ltb_spec 0 (Guards.s_total (Guards.shifts g)));
      [apply percent_in_0_100; lia | apply zero_in_0_100].
  - destruct (Nat.ltb_spec 0 (Guards.a_total (Guards.activities g)));
      [apply pair_percent_in_0_100; lia | apply zero_in_0_100].
Qed.

Lemma checks_fold {A} (f : A -> nat) (l : list A) (t p : nat) :
  (p <= t)%nat -> (forall c, In c l -> f c <= 3)%nat ->
  let r := fold_left (fun acc c => (fst acc + 3, snd acc + f c)%nat) l (t, p) in
  (snd r <= fst r /\ fst r = t + 3 * length l)%nat.
Proof.
  revert t p. induction l as [| c l IH]; intros t p Hp Hf; cbn.
  - lia.
  - destruct (IH (t + 3)%nat (p + f c)%nat) as [Hle Heq].
    + pose proof (Hf c (or_introl eq_refl)). lia.
    + intros c' Hc'. apply Hf. right. exact Hc'.
    + cbn in Hle, Heq. split; [exact Hle | rewrite Heq; lia].
Qed.

Lemma location_passed_le_3 (l : Locations.loc_profile) :
  (Compliance.location_passed (Compliance.location_check l) <= 3)%nat.
Proof.
  unfold Compliance.location_passed, Compliance.location_check; cbn.
  repeat match goal with |- context [if ?b then _ else _] => destruct b end; cbn; lia.
Qed.

Lemma guard_passed_le_3 (g : Guards.guard_profile) :
  (Compliance.guard_passed (Compliance.guard_check g) <= 3)%nat.
Proof.
  unfold Compliance.guard_passed, Compliance.guard_check; cbn.
  repeat match goal with |- context [if ?b then _ else _] => destruct b end; cbn; lia.
Qed.

Lemma overall_counts_bounds (ls : list Locations.loc_profile) (gs : list Guards.guard_profile) :
  let c := Compliance.overall_counts (map Compliance.location_check ls)
                                     (map Compliance.guard_check gs) in
  (snd c <= fst c /\ fst c = 3 * (length ls + length gs))%nat.
Proof.
  unfold Compliance.overall_counts.
  destruct (checks_fold Compliance.location_passed (map Compliance.location_check ls) 0 0)
    as [H1 H2]; [lia | intros c Hc; apply in_map_iff in Hc as [l [<- _]]; apply location_passed_le_3 |].
  destruct (fold_left _ (map Compliance.location_check ls) (0, 0)%nat) as [t p] eqn:Hf.
  cbn in H1, H2.
  destruct (checks_fold Compliance.guard_passed (map Compliance.guard_check gs) t p)
    as [H3 H4]; [exact H1 | intros c Hc; apply in_map_iff in Hc as [g [<- _]]; apply guard_passed_le_3 |].
  cbn zeta. split; [exact H3 | rewrite H4, H2, !length_map; lia].
Qed.

(** On an input that [loadData] processes without an exception, every
    percentage on the dashboard is a whole number between 0 and 100; the
    overall compliance rate is one as soon as there is a location or a guard. *)
Lemma process_all_rates_in_0_100 act att d :
  process_all parseInt parseFloat getHours act att = Some d ->
  (forall p, In p (locationCoverage d) ->
     in_0_100 (Locations.coverageRate (Locations.metrics p)) /\
     in_0_100 (Locations.punctualityRate (Locations.metrics p))) /\
  (forall p, In p (guardStatistics d) ->
     in_0_100 (Guards.attendanceRate (Guards.metrics p)) /\
     in_0_100 (Guards.activityComplianceRate (Guards.metrics p)) /\
     in_0_100 (Guards.performanceScore (Guards.metrics p))) /\
  (locationCoverage d <> [] \/ guardStatistics d <> [] ->
     in_0_100 (Compliance.overall (compliance d))).
Proof.
  unfold process_all.
  destruct (Locations.processLocationCoverage parseFloat att) as [ls |] eqn:Hl; [| discriminate].
  destruct (Guards.processGuardData parseInt parseFloat act att) as [gs |] eqn:Hg; [| discriminate].
  intros [= <-]. cbn. split; [| split].
  - intros p Hp. destruct (processLocationCoverage_In parseFloat att ls p Hl Hp) as (m & k & l & Hm & Hin & ->).
    apply location_rates_in_0_100.
    pose proof (location_table_counts_ok att) as Hinv. rewrite Hm in Hinv.
    exact (all_values_In _ m k l Hinv Hin).
  - intros p Hp. destruct (processGuardData_In parseInt parseFloat act att gs p Hg Hp) as (m & k & g & Hm & Hin & ->).
    apply guard_rates_in_0_100.
    pose proof (guard_table_counts_ok act att) as Hinv. rewrite Hm in Hinv.
    exact (all_values_In _ m k g Hinv Hin).
  - intros Hne. destruct (overall_counts_bounds ls gs) as [Hle Heq].
    apply percent_in_0_100; [exact Hle |]. rewrite Heq.
    destruct Hne as [Hne | Hne]; [destruct ls | destruct gs]; try congruence; cbn; lia.
Qed.

End RateBounds.

(** ** Sorting by a comparator [b.key - a.key] *)

Section SortDesc.
Context {A : Type} (f : A -> jsnum).


Lemma js_pos_sub_num (x y : Q) :
  js_pos (js_sub (JNum x) (JNum y)) = true -> y <= x.
Proof.
  cbn. intro H. apply Bool.negb_true_iff in H. apply Qlt_le_weak, Qnot_le_lt.
  intro Hle. apply Bool.not_true_iff_false in H. apply H, Qle_bool_iff.
  apply (Qplus_le_l _ _ y). ring_simplify. exact Hle.
Qed.

Lemma js_pos_sub_num_false (x y : Q) :
  js_pos (js_sub (JNum x) (JNum y)) = false -> x <= y.
Proof.
  cbn. intro H. apply Bool.negb_false_iff, Qle_bool_iff in H.
  apply (Qplus_le_l _ _ (- y)). ring_simplify. ring_simplify in H. exact H.
Qed.

Lemma sort_insert_desc_hd (a x : A) (l : list A) :
  HdRel (desc f) a l -> (desc f) a x -> HdRel (desc f) a (sort_insert (fun u v => js_sub (f v) (f u)) x l).
Proof.
  intros Hl Hx. destruct l as [| y l]; simpl; [constructor; exact Hx |].
  destruct (js_pos _); constructor; [exact Hx |]. inversion Hl; assumption.
Qed.

Lemma sort_insert_desc (x : A) (l : list A) :
  (exists q, f x = JNum q) -> Forall (fun y => exists q, f y = JNum q) l ->
  Sorted (desc f) l -> Sorted (desc f) (sort_insert (fun u v => js_sub (f v) (f u)) x l).
Proof.
  intros [qx Hqx]. induction l as [| y l IH]; intros Hfin Hs; simpl.
  - constructor; constructor.
  - inversion Hfin as [| ? ? [qy Hqy] Hfin']; subst.
    inversion Hs as [| ? ? Hs' Hhd]; subst.
    destruct (js_pos (js_sub (f x) (f y))) eqn:Hp.
    + rewrite Hqx, Hqy in Hp. apply js_pos_sub_num in Hp.
      constructor; [exact Hs | constructor; exists qx, qy; auto].
    + rewrite Hqx, Hqy in Hp. apply js_pos_sub_num_false in Hp.
      constructor; [apply IH; assumption |].
      apply sort_insert_desc_hd; [exact Hhd | exists qy, qx; auto].
Qed.

Lemma js_sort_desc (l : list A) :
  Forall (fun y => exists q, f y = JNum q) l ->
  Sorted (desc f) (js_sort (fun u v => js_sub (f v) (f u)) l).
Proof.
  unfold js_sort. intro Hl.
  assert (Hgen : forall acc, Forall (fun y => exists q, f y = JNum q) acc -> Sorted (desc f) acc ->
            Sorted (desc f) (fold_left (fun acc x => sort_insert (fun u v => js_sub (f v) (f u)) x acc) l acc)).
  { induction Hl as [| x l Hx Hl IH]; intros acc Hacc Hs; simpl; [exact Hs |].
    apply IH.
    - apply (Forall_perm _ (x :: acc)); [apply Permutation_sym, sort_insert_perm |].
      constructor; assumption.
    - apply sort_insert_desc; assumption. }
  apply Hgen; constructor.
Qed.

End SortDesc.

(** ** Whole-object invariants of the table folds *)

Lemma fold_opt_pred {V A} (P : list (string * V) -> Prop)
    (step : option (list (string * V)) -> A -> option (list (string * V))) (l : list A) :
  (forall o a, In a l -> opt_pred P o -> opt_pred P (step o a)) ->
  forall o, opt_pred P o -> opt_pred P (fold_left step l o).
Proof.
  intros Hstep. induction l as [| a l IH]; intros o Ho; simpl; [exact Ho |].
  apply IH; [intros o' a' Ha'; apply Hstep; right; exact Ha' |].
  apply Hstep; [left; reflexivity | exact Ho].
Qed.

Lemma fold_left_None {V A} (step : option (list (string * V)) -> A -> option (list (string * V)))
    (l : list A) :
  (forall a, step None a = None) -> fold_left step l None = None.
Proof. intro H. induction l as [| a l IH]; simpl; [reflexivity | rewrite H; exact IH]. Qed.

Lemma all_entries_obj_set {V} (P : string -> V -> Prop) (m : list (string * V)) (k : string) (v : V) :
  all_entries P m -> P k v -> all_entries P (obj_set m k v).
Proof.
  unfold all_entries. intros Hm Hv.
  induction m as [| [k' v'] m IH]; simpl.
  - constructor; [exact Hv | constructor].
  - inversion Hm as [| ? ? Hkv Hm']; subst.
    destruct (String.eqb_spec k k'); constructor; simpl in *; subst; auto.
Qed.

Lemma all_entries_obj_get {V} (P : string -> V -> Prop) (m : list (string * V)) (k : string) (v : V) :
  all_entries P m -> obj_get m k = Own v -> P k v.
Proof.
  unfold obj_get. intros Hm Hget.
  destruct (assoc_find k m) as [v' |] eqn:Hf.
  - inversion Hget; subst. apply assoc_find_In in Hf.
    exact (proj1 (Forall_forall _ _) Hm _ Hf).
  - destruct (existsb _ _); discriminate.
Qed.

Lemma all_entries_In {V} (P : string -> V -> Prop) (m : list (string * V)) (k : string) (v : V) :
  all_entries P m -> In (k, v) m -> P k v.
Proof. intros Hm Hin. exact (proj1 (Forall_forall _ _) Hm _ Hin). Qed.

Lemma obj_get_Absent_keys {V} (m : list (string * V)) (k : string) :
  obj_get m k = Absent -> ~ In k (map fst m).
Proof.
  unfold obj_get. destruct (assoc_find k m) eqn:Hf; [discriminate |].
  intros _ Hin. apply in_map_iff in Hin as [[k' v] [Hk Hin]]. simpl in Hk. subst k'.
  induction m as [| [k'' v''] m IH]; simpl in *; [exact Hin |].
  destruct (String.eqb_spec k k''); [discriminate |].
  destruct Hin as [Heq | Hin]; [inversion Heq; congruence | exact (IH Hf Hin)].
Qed.

Lemma obj_set_keys {V} (m : list (string * V)) (k : string) (v : V) :
  forall x, In x (map fst (obj_set m k v)) -> x = k \/ In x (map fst m).
Proof.
  induction m as [| [a b] m IH]; simpl; [intuition |].
  intro x. destruct (String.eqb_spec k a); simpl; [intuition |].
  intros [H | H]; [right; left; exact H |]. destruct (IH x H); [left | right; right]; assumption.
Qed.

Lemma count_app {A} (f : A -> bool) (l1 l2 : list A) : count f (l1 ++ l2) = (count f l1 + count f l2)%nat.
Proof. unfold count. rewrite filter_app, length_app. reflexivity. Qed.

Lemma count_cons {A} (f : A -> bool) (a : A) (l : list A) :
  count f (a :: l) = ((if f a then 1 else 0) + count f l)%nat.
Proof. unfold count. simpl. destruct (f a); reflexivity. Qed.

Lemma count_le_length {A} (f : A -> bool) (l : list A) : (count f l <= length l)%nat.
Proof.
  induction l as [| a l IH]; [reflexivity |]. rewrite count_cons. simpl. destruct (f a); lia.
Qed.

Lemma count_complement {A} (f : A -> bool) (l : list A) :
  (count f l + count (fun x => negb (f x)) l = length l)%nat.
Proof.
  induction l as [| a l IH]; [reflexivity |]. rewrite !count_cons. simpl. destruct (f a); simpl; lia.
Qed.

Lemma count_impl {A} (f g : A -> bool) (l : list A) :
  (forall x, f x = true -> g x = true) -> (count f l <= count g l)%nat.
Proof.
  intro H. induction l as [| a l IH]; [reflexivity |]. rewrite !count_cons.
  destruct (f a) eqn:Hf; [rewrite (H a Hf) |]; destruct (g a); lia.
Qed.

Lemma list_sum_perm (l l' : list nat) : Permutation l l' -> list_sum l = list_sum l'.
Proof.
  induction 1; simpl; lia.
Qed.

(** the sum of a counter over the values of an object after [obj[k] = v] *)
Lemma sum_obj_set_found {V} (g : V -> nat) (m : list (string * V)) (k : string) (v old : V) :
  assoc_find k m = Some old ->
  (list_sum (map g (map snd (obj_set m k v))) + g old = list_sum (map g (map snd m)) + g v)%nat.
Proof.
  induction m as [| [k' v'] m IH]; simpl; [discriminate |].
  destruct (String.eqb k k'); simpl.
  - intros [= ->]. lia.
  - intro H. specialize (IH H). lia.
Qed.

Lemma sum_obj_set_new {V} (g : V -> nat) (m : list (string * V)) (k : string) (v : V) :
  assoc_find k m = None ->
  (list_sum (map g (map snd (obj_set m k v))) = list_sum (map g (map snd m)) + g v)%nat.
Proof.
  induction m as [| [k' v'] m IH]; simpl; [lia |].
  destruct (String.eqb k k'); simpl; [discriminate |].
  intro H. specialize (IH H). lia.
Qed.

Lemma obj_get_Own {V} (m : list (string * V)) (k : string) (v : V) :
  obj_get m k = Own v -> assoc_find k m = Some v.
Proof.
  unfold obj_get. destruct (assoc_find k m); [intros [= ->]; reflexivity |].
  destruct (existsb _ _); discriminate.
Qed.

Lemma obj_get_Absent {V} (m : list (string * V)) (k : string) :
  obj_get m k = Absent -> assoc_find k m = None.
Proof.
  unfold obj_get. destruct (assoc_find k m); [discriminate | reflexivity].
Qed.

(** the values of the profiles built from an object, through [Object.values] and a sort *)
Lemma sum_sorted_values {V W} (cmp : W -> W -> jsnum) (fin : V -> W) (g : W -> nat)
    (m : list (string * V)) :
  list_sum (map g (js_sort cmp (map fin (object_values m)))) = list_sum (map (fun v => g (fin v)) (map snd m)).
Proof.
  apply list_sum_perm. rewrite (Permutation_map g (js_sort_perm cmp _)).
  rewrite map_map. apply Permutation_map, object_values_perm.
Qed.

(** * Further properties of the dashboard *)

(** ** The attendance state of [loadData] and the On-Time Rate card *)

(** X1: the on-time and late shift counts add up to the shift count, and the
    On-Time Rate card shows NaN on a day without shifts and a whole
    percentage otherwise. *)
Theorem attendance_summary_onTime_card (data : list Row) (lc : list Locations.loc_profile) :
  let a := attendance_summary data lc in
  (onTime a + late a = totalShifts a)%nat /\
  (data = [] -> onTime_rate_card a = JNaN) /\
  (data <> [] -> in_0_100 (onTime_rate_card a)).
Proof.
  cbv zeta. split; [| split].
  - exact (count_complement (fun d => str_is (late_hours d) "On-time") data).
  - intros ->. reflexivity.
  - intro Hne. unfold onTime_rate_card, attendance_summary; cbn [onTime totalShifts].
    apply percent_in_0_100.
    + exact (count_le_length (fun d => str_is (late_hours d) "On-time") data).
    + destruct data; [congruence | simpl; lia].
Qed.

Lemma attendance_summary_onTime_card_witness :
  let a := attendance_summary sample_attendance [] in
  (onTime a + late a = totalShifts a)%nat /\
  (sample_attendance = [] -> onTime_rate_card a = JNaN) /\
  (sample_attendance <> [] -> in_0_100 (onTime_rate_card a)).
Proof. exact (attendance_summary_onTime_card sample_attendance []). Defined.

(** ** Sort orders of the profile lists *)

Lemma guard_profiles_finite parseInt parseFloat act att ps :
  Guards.processGuardData parseInt parseFloat act att = Some ps ->
  Forall (fun p => exists q, Guards.performanceScore (Guards.metrics p) = JNum q) ps.
Proof.
  intro H. apply Forall_forall. intros p Hp.
  destruct (processGuardData_In parseInt parseFloat act att ps p H Hp) as (m & k & g & Hm & Hin & ->).
  pose proof (guard_table_counts_ok parseInt parseFloat act att) as Hinv. rewrite Hm in Hinv.
  destruct (performance_in_0_100 g (all_values_In _ m k g Hinv Hin)) as [z [Hz _]].
  exists (inject_Z z). exact Hz.
Qed.

(** X2: the guard profiles come out ordered by performance score, highest first. *)
Theorem processGuardData_sorted parseInt parseFloat act att ps :
  Guards.processGuardData parseInt parseFloat act att = Some ps ->
  Sorted (fun a b => num_ge (Guards.performanceScore (Guards.metrics a))
                            (Guards.performanceScore (Guards.metrics b))) ps.
Proof.
  intro H. pose proof (guard_profiles_finite parseInt parseFloat act att ps H) as Hfin.
  unfold Guards.processGuardData in H.
  destruct (Guards.guard_table parseInt parseFloat act att) as [m |]; [| discriminate].
  injection H as <-. apply (Forall_perm _ _ _ (js_sort_perm _ _)) in Hfin.
  exact (js_sort_desc (fun p => Guards.performanceScore (Guards.metrics p)) _ Hfin).
Qed.

Lemma processGuardData_sorted_witness :
  Sorted (fun a b => num_ge (Guards.performanceScore (Guards.metrics a))
                            (Guards.performanceScore (Guards.metrics b)))
    (match Guards.processGuardData parseInt_model parseFloat_model sample_activity sample_attendance with
     | Some ps => ps | None => [] end).
Proof.
  apply (processGuardData_sorted parseInt_model parseFloat_model sample_activity sample_attendance).
  vm_compute. reflexivity.
Defined.

(** X3: the location profiles come out ordered by coverage rate, highest first. *)
Theorem processLocationCoverage_sorted parseFloat data ps :
  Locations.processLocationCoverage parseFloat data = Some ps ->
  Sorted (fun a b => num_ge (Locations.coverageRate (Locations.metrics a))
                            (Locations.coverageRate (Locations.metrics b))) ps.
Proof.
  intro H.
  assert (Hfin : Forall (fun p => exists q, Locations.coverageRate (Locations.metrics p) = JNum q) ps).
  { apply Forall_forall. intros p Hp.
    destruct (processLocationCoverage_In parseFloat data ps p H Hp) as (m & k & l & Hm & Hin & ->).
    pose proof (location_table_counts_ok parseFloat data) as Hinv. rewrite Hm in Hinv.
    destruct (proj1 (location_rates_in_0_100 l (all_values_In _ m k l Hinv Hin))) as [z [Hz _]].
    exists (inject_Z z). exact Hz. }
  unfold Locations.processLocationCoverage in H.
  destruct (Locations.location_table parseFloat data) as [m |]; [| discriminate].
  injection H as <-. apply (Forall_perm _ _ _ (js_sort_perm _ _)) in Hfin.
  exact (js_sort_desc (fun p => Locations.coverageRate (Locations.metrics p)) _ Hfin).
Qed.

Lemma processLocationCoverage_sorted_witness :
  Sorted (fun a b => num_ge (Locations.coverageRate (Locations.metrics a))
                            (Locations.coverageRate (Locations.metrics b)))
    (match Locations.processLocationCoverage parseFloat_model sample_attendance with
     | Some ps => ps | None => [] end).
Proof.
  apply (processLocationCoverage_sorted parseFloat_model sample_attendance).
  vm_compute. reflexivity.
Defined.

(** ** One profile per key of the table *)

Lemma keys_of_values {V} (key : V -> string) (m : list (string * V)) :
  all_entries (fun k v => key v = k) m -> map key (map snd m) = map fst m.
Proof.
  unfold all_entries. induction 1 as [| [k v] m Hkv Hm IH]; simpl in *; [reflexivity |].
  rewrite Hkv, IH. reflexivity.
Qed.

Lemma sorted_values_NoDup {V W} (cmp : W -> W -> jsnum) (fin : V -> W) (key : W -> string)
    (m : list (string * V)) :
  NoDup (map fst m) -> all_entries (fun k v => key (fin v) = k) m ->
  NoDup (map key (js_sort cmp (map fin (object_values m)))).
Proof.
  intros Hnd Hk. apply (Permutation_NoDup (l := map fst m)); [| exact Hnd].
  rewrite <- (keys_of_values (fun v => key (fin v)) m Hk).
  apply Permutation_sym. rewrite (Permutation_map key (js_sort_perm cmp _)).
  rewrite map_map. apply Permutation_map, object_values_perm.
Qed.

Section GuardKeys.
Variable parseInt : string -> jsnum.
Variable parseFloat : string -> jsnum.
Variable att : list Row.


Lemma attendance_step_keys (o : option (list (string * Guards.guard_acc))) (r : Row) :
  In r att -> opt_pred (guard_keys_ok att) o -> opt_pred (guard_keys_ok att) (Guards.attendance_step parseFloat o r).
Proof.
  intros Hr. destruct o as [m |]; cbn -[truthy obj_get obj_set]; [| tauto].
  intros [Hnd He].
  destruct (full_name r) as [fn |] eqn:Hfn, (service_number r) as [gid |] eqn:Hsn;
    cbn -[truthy obj_get obj_set]; try (split; assumption).
  destruct (truthy (Some fn)) eqn:Htf; cbn -[truthy obj_get obj_set]; [| split; assumption].
  destruct (truthy (Some gid)); cbn -[truthy obj_get obj_set]; [| split; assumption].
  destruct (obj_get m gid) as [g | |] eqn:Hget; cbn -[truthy obj_get obj_set]; try exact I.
  - split; [apply obj_set_NoDup, Hnd |]. apply all_entries_obj_set; [exact He |].
    destruct (all_entries_obj_get _ m gid g He Hget) as [Hid Hex].
    split; [exact Hid | exact Hex].
  - split; [apply obj_set_NoDup, Hnd |]. apply all_entries_obj_set; [exact He |].
    split; [reflexivity |]. exists r. rewrite Hfn. auto.
Qed.

Lemma activity_step_keys (o : option (list (string * Guards.guard_acc))) (r : Row) :
  opt_pred (guard_keys_ok att) o -> opt_pred (guard_keys_ok att) (Guards.activity_step parseInt o r).
Proof.
  destruct o as [m |]; cbn -[truthy obj_get obj_set]; [| tauto].
  intros [Hnd He].
  destruct (service_number r) as [gid |]; cbn -[truthy obj_get obj_set]; [| split; assumption].
  destruct (truthy (Some gid)); cbn -[truthy obj_get obj_set]; [| split; assumption].
  destruct (obj_get m gid) as [g | |] eqn:Hget; cbn -[truthy obj_get obj_set]; try exact I;
    try (split; assumption).
  split; [apply obj_set_NoDup, Hnd |]. apply all_entries_obj_set; [exact He |].
  exact (all_entries_obj_get _ m gid g He Hget).
Qed.

Lemma guard_table_keys (act : list Row) :
  opt_pred (guard_keys_ok att) (Guards.guard_table parseInt parseFloat act att).
Proof.
  unfold Guards.guard_table.
  apply fold_opt_pred; [intros o a _; apply activity_step_keys |].
  apply fold_opt_pred; [intros o a Ha; apply attendance_step_keys, Ha |].
  split; constructor.
Qed.

End GuardKeys.

(** X4: the guard profiles have pairwise distinct ids, and each id is the
    service number of an attendance record that has a full name; activity
    records never create a guard. *)
Theorem processGuardData_ids parseInt parseFloat act att ps :
  Guards.processGuardData parseInt parseFloat act att = Some ps ->
  NoDup (map (fun p => Guards.id (Guards.guard p)) ps) /\
  forall p, In p ps ->
    exists r, In r att /\ service_number r = Some (Guards.id (Guards.guard p)) /\
              truthy (full_name r) = true.
Proof.
  intro H. pose proof (guard_table_keys parseInt parseFloat att act) as Hk.
  split.
  - unfold Guards.processGuardData in H.
    destruct (Guards.guard_table parseInt parseFloat act att) as [m |]; [| discriminate].
    injection H as <-. destruct Hk as [Hnd He].
    apply sorted_values_NoDup; [exact Hnd |].
    unfold all_entries in *. apply Forall_forall. intros [k g] Hin.
    exact (proj1 (proj1 (Forall_forall _ _) He _ Hin)).
  - intros p Hp.
    destruct (processGuardData_In parseInt parseFloat act att ps p H Hp) as (m & k & g & Hm & Hin & ->).
    rewrite Hm in Hk. destruct Hk as [_ He].
    destruct (all_entries_In _ m k g He Hin) as [Hid Hex]. cbn. rewrite Hid. exact Hex.
Qed.

Lemma processGuardData_ids_witness :
  let ps := match Guards.processGuardData parseInt_model parseFloat_model sample_activity sample_attendance with
            | Some ps => ps | None => [] end in
  NoDup (map (fun p => Guards.id (Guards.guard p)) ps) /\
  forall p, In p ps ->
    exists r, In r sample_attendance /\ service_number r = Some (Guards.id (Guards.guard p)) /\
              truthy (full_name r) = true.
Proof.
  apply (processGuardData_ids parseInt_model parseFloat_model sample_activity sample_attendance).
  vm_compute. reflexivity.
Defined.

Section LocationKeys.
Variable parseFloat : string -> jsnum.
Variable data : list Row.


Lemma record_update_location (r : Row) (l : Locations.loc_acc) :
  Locations.location (Locations.record_update parseFloat r l) = Locations.location l.
Proof. unfold Locations.record_update. destruct (truthy (full_name r)); reflexivity. Qed.

Lemma location_step_keys (o : option (list (string * Locations.loc_acc))) (r : Row) :
  In r data -> opt_pred (location_keys_ok data) o -> opt_pred (location_keys_ok data) (Locations.location_step parseFloat o r).
Proof.
  intros Hr. destruct o as [m |]; cbn -[truthy obj_get obj_set Locations.record_update]; [| tauto].
  intros [Hnd He].
  destruct (post_name r) as [loc |] eqn:Hpn; cbn -[truthy obj_get obj_set Locations.record_update];
    [| split; assumption].
  destruct (truthy (Some loc)); cbn -[truthy obj_get obj_set Locations.record_update]; [| split; assumption].
  destruct (obj_get m loc) as [l | |] eqn:Hget; cbn -[truthy obj_get obj_set Locations.record_update];
    try exact I.
  - split; [apply obj_set_NoDup, Hnd |]. apply all_entries_obj_set; [exact He |].
    destruct (all_entries_obj_get _ m loc l He Hget) as [Hl Hex].
    split; [rewrite record_update_location; exact Hl | exact Hex].
  - split; [apply obj_set_NoDup, Hnd |]. apply all_entries_obj_set; [exact He |].
    split; [rewrite record_update_location; reflexivity | exists r; auto].
Qed.

Lemma location_table_keys :
  opt_pred (location_keys_ok data) (Locations.location_table parseFloat data).
Proof.
  unfold Locations.location_table.
  apply fold_opt_pred; [intros o a Ha; apply location_step_keys, Ha |].
  split; constructor.
Qed.

End LocationKeys.

(** X5: the location profiles have pairwise distinct location names, and
    each is the post name of some attendance record. *)
Theorem processLocationCoverage_names parseFloat data ps :
  Locations.processLocationCoverage parseFloat data = Some ps ->
  NoDup (map (fun p => Locations.location (Locations.loc p)) ps) /\
  forall p, In p ps -> exists r, In r data /\ post_name r = Some (Locations.location (Locations.loc p)).
Proof.
  intro H. pose proof (location_table_keys parseFloat data) as Hk.
  split.
  - unfold Locations.processLocationCoverage in H.
    destruct (Locations.location_table parseFloat data) as [m |]; [| discriminate].
    injection H as <-. destruct Hk as [Hnd He].
    apply sorted_values_NoDup; [exact Hnd |].
    unfold all_entries in *. apply Forall_forall. intros [k l] Hin.
    exact (proj1 (proj1 (Forall_forall _ _) He _ Hin)).
  - intros p Hp.
    destruct (processLocationCoverage_In parseFloat data ps p H Hp) as (m & k & l & Hm & Hin & ->).
    rewrite Hm in Hk. destruct Hk as [_ He].
    destruct (all_entries_In _ m k l He Hin) as [Hl Hex]. cbn. rewrite Hl. exact Hex.
Qed.

Lemma processLocationCoverage_names_witness :
  let ps := match Locations.processLocationCoverage parseFloat_model sample_attendance with
            | Some ps => ps | None => [] end in
  NoDup (map (fun p => Locations.location (Locations.loc p)) ps) /\
  forall p, In p ps -> exists r, In r sample_attendance /\
                              post_name r = Some (Locations.location (Locations.loc p)).
Proof.
  apply (processLocationCoverage_names parseFloat_model sample_attendance).
  vm_compute. reflexivity.
Defined.

(** ** Every counted record is counted once *)

Lemma list_sum_count {A} (f : A -> bool) (l : list A) :
  list_sum (map (fun r => if f r then 1 else 0)%nat l) = count f l.
Proof.
  induction l as [| a l IH]; [reflexivity |]. rewrite count_cons. simpl. rewrite IH. reflexivity.
Qed.

Lemma table_fold_sum {V A} (step : option (list (string * V)) -> A -> option (list (string * V)))
    (g : V -> nat) (inc : A -> nat) :
  (forall a, step None a = None) ->
  (forall m a m', step (Some m) a = Some m' ->
     list_sum (map g (map snd m')) = (list_sum (map g (map snd m)) + inc a)%nat) ->
  forall l m m', fold_left step l (Some m) = Some m' ->
    list_sum (map g (map snd m')) = (list_sum (map g (map snd m)) + list_sum (map inc l))%nat.
Proof.
  intros Hnone Hstep l. induction l as [| a l IH]; intros m m' Hf; simpl in Hf.
  - injection Hf as <-. simpl. lia.
  - destruct (step (Some m) a) as [m1 |] eqn:Hs.
    + rewrite (IH m1 m' Hf), (Hstep m a m1 Hs). simpl. lia.
    + rewrite fold_left_None in Hf by exact Hnone. discriminate.
Qed.

Lemma sum_obj_set {V} (g : V -> nat) (m : list (string * V)) (k : string) (v : V) :
  (list_sum (map g (map snd (obj_set m k v))) +
   match assoc_find k m with Some w => g w | None => 0 end =
   list_sum (map g (map snd m)) + g v)%nat.
Proof.
  destruct (assoc_find k m) eqn:Hf.
  - exact (sum_obj_set_found g m k v v0 Hf).
  - rewrite (sum_obj_set_new g m k v Hf). lia.
Qed.

Section Sums.
Variable parseInt : string -> jsnum.
Variable parseFloat : string -> jsnum.

(** pass 1 of [processGuardData], for a counter that each update raises by [inc] *)
Lemma attendance_step_sum (g : Guards.guard_acc -> nat) (inc : Row -> nat) :
  (forall r x, g (Guards.attendance_update parseFloat r x) = g x + inc r)%nat ->
  (forall gid nm, g (Guards.seed gid nm) = 0)%nat ->
  forall m r m', Guards.attendance_step parseFloat (Some m) r = Some m' ->
    list_sum (map g (map snd m')) =
    (list_sum (map g (map snd m)) +
     (if truthy (full_name r) && truthy (service_number r) then inc r else 0))%nat.
Proof.
  intros Hupd Hseed m r m'. cbn -[truthy obj_get obj_set].
  destruct (full_name r) as [fn |], (service_number r) as [gid |];
    cbn -[truthy obj_get obj_set];
    try (intros [= <-]; cbn [truthy negb andb]; rewrite ?Bool.andb_false_r; lia).
  destruct (truthy (Some fn) && truthy (Some gid)); [| intros [= <-]; lia].
  pose proof (sum_obj_set g m gid) as Hs.
  destruct (obj_get m gid) as [w | |] eqn:Hget; [| discriminate |]; intros [= <-].
  - specialize (Hs (Guards.attendance_update parseFloat r w)).
    rewrite (obj_get_Own _ _ _ Hget), Hupd in Hs. lia.
  - specialize (Hs (Guards.attendance_update parseFloat r (Guards.seed gid fn))).
    rewrite (obj_get_Absent _ _ Hget), Hupd, Hseed in Hs. lia.
Qed.

(** pass 2, for a counter the activity update leaves alone or raises by [inc] *)
Lemma activity_step_sum (g : Guards.guard_acc -> nat) (inc : Row -> nat) :
  (forall r x, g (Guards.activity_update parseInt r x) = g x + inc r)%nat ->
  forall m r m', Guards.activity_step parseInt (Some m) r = Some m' ->
    list_sum (map g (map snd m')) =
    (list_sum (map g (map snd m)) +
     match service_number r with
     | Some k => if truthy (Some k) && existsb (String.eqb k) (map fst m) then inc r else 0
     | None => 0
     end)%nat.
Proof.
  intros Hupd m r m'. cbn -[truthy obj_get obj_set].
  destruct (service_number r) as [gid |]; cbn -[truthy obj_get obj_set]; [| intros [= <-]; lia].
  destruct (truthy (Some gid)); cbn -[truthy obj_get obj_set]; [| intros [= <-]; lia].
  pose proof (sum_obj_set g m gid) as Hs.
  destruct (obj_get m gid) as [w | |] eqn:Hget; [| discriminate |]; intros [= <-].
  - specialize (Hs (Guards.activity_update parseInt r w)).
    apply obj_get_Own in Hget. rewrite Hget, Hupd in Hs.
    replace (existsb (String.eqb gid) (map fst m)) with true; [lia |].
    symmetry. apply existsb_exists. exists gid. split; [| apply String.eqb_refl].
    apply in_map_iff. exists (gid, w). split; [reflexivity | apply assoc_find_In, Hget].
  - replace (existsb (String.eqb gid) (map fst m)) with false; [lia |].
    symmetry. apply Bool.not_true_iff_false. intro He. apply existsb_exists in He as [x [Hx Heq]].
    apply String.eqb_eq in Heq. subst x. exact (obj_get_Absent_keys m gid Hget Hx).
Qed.

Lemma location_step_sum (g : Locations.loc_acc -> nat) (inc : Row -> nat) :
  (forall r x, g (Locations.record_update parseFloat r x) = g x + inc r)%nat ->
  (forall loc, g (Locations.seed loc) = 0)%nat ->
  forall m r m', Locations.location_step parseFloat (Some m) r = Some m' ->
    list_sum (map g (map snd m')) =
    (list_sum (map g (map snd m)) + (if truthy (post_name r) then inc r else 0))%nat.
Proof.
  intros Hupd Hseed m r m'. cbn -[truthy obj_get obj_set Locations.record_update].
  destruct (post_name r) as [loc |]; cbn -[truthy obj_get obj_set Locations.record_update];
    [| intros [= <-]; cbn [truthy]; lia].
  destruct (truthy (Some loc)); [| intros [= <-]; lia].
  pose proof (sum_obj_set g m loc) as Hs.
  destruct (obj_get m loc) as [w | |] eqn:Hget; [| discriminate |]; intros [= <-].
  - specialize (Hs (Locations.record_update parseFloat r w)).
    rewrite (obj_get_Own _ _ _ Hget), Hupd in Hs. lia.
  - specialize (Hs (Locations.record_update parseFloat r (Locations.seed loc))).
    rewrite (obj_get_Absent _ _ Hget), Hupd, Hseed in Hs. lia.
Qed.

End Sums.

Lemma list_sum_zero {A} (f : A -> nat) (l : list A) :
  (forall x, f x = 0%nat) -> list_sum (map f l) = 0%nat.
Proof. intro H. induction l as [| a l IH]; simpl; [reflexivity | rewrite H, IH; reflexivity]. Qed.

Lemma existsb_perm {A} (f : A -> bool) (l l' : list A) :
  Permutation l l' -> existsb f l = existsb f l'.
Proof.
  intro Hp. destruct (existsb f l) eqn:H1; symmetry.
  - apply existsb_exists in H1 as [x [Hx Hf]]. apply existsb_exists.
    exists x. split; [exact (Permutation_in _ Hp Hx) | exact Hf].
  - apply Bool.not_true_iff_false. intro H2. apply existsb_exists in H2 as [x [Hx Hf]].
    apply Bool.not_true_iff_false in H1. apply H1, existsb_exists.
    exists x. split; [exact (Permutation_in _ (Permutation_sym Hp) Hx) | exact Hf].
Qed.

Section ActivitySums.
Variable parseInt : string -> jsnum.

Lemma activity_fold_sum (g : Guards.guard_acc -> nat) (inc : Row -> nat) :
  (forall r x, g (Guards.activity_update parseInt r x) = g x + inc r)%nat ->
  forall l m m', fold_left (Guards.activity_step parseInt) l (Some m) = Some m' ->
    list_sum (map g (map snd m')) =
    (list_sum (map g (map snd m)) +
     list_sum (map (fun r => match service_number r with
                             | Some k => if truthy (Some k) && existsb (String.eqb k) (map fst m)
                                         then inc r else 0
                             | None => 0
                             end)%nat l))%nat.
Proof.
  intros Hupd l. induction l as [| r l IH]; intros m m' Hf; cbn [fold_left] in Hf.
  - injection Hf as <-. simpl. lia.
  - destruct (Guards.activity_step parseInt (Some m) r) as [m1 |] eqn:Hs.
    + assert (Hk : map fst m1 = map fst m).
      { apply (activity_fold_keys parseInt [r]). simpl. exact Hs. }
      rewrite (IH m1 m' Hf), (activity_step_sum parseInt g inc Hupd m r m1 Hs), Hk. simpl. lia.
    + rewrite fold_left_None in Hf by reflexivity. discriminate.
Qed.

End ActivitySums.

Lemma sorted_values_keys_perm {V W} (cmp : W -> W -> jsnum) (fin : V -> W) (key : W -> string)
    (m : list (string * V)) :
  all_entries (fun k v => key (fin v) = k) m ->
  Permutation (map key (js_sort cmp (map fin (object_values m)))) (map fst m).
Proof.
  intro Hk. rewrite <- (keys_of_values (fun v => key (fin v)) m Hk).
  rewrite (Permutation_map key (js_sort_perm cmp _)).
  rewrite map_map. apply Permutation_map, object_values_perm.
Qed.

(** X6: the guard profiles together hold one shift per attendance record
    with a full name and a service number, one on-time shift per such record
    marked 'On-time', and one activity per activity record whose service
    number is the id of a profile. *)
Theorem processGuardData_totals parseInt parseFloat act att ps :
  Guards.processGuardData parseInt parseFloat act att = Some ps ->
  list_sum (map (fun p => Guards.s_total (Guards.shifts (Guards.guard p))) ps) =
    count (fun r => truthy (full_name r) && truthy (service_number r)) att /\
  list_sum (map (fun p => Guards.s_onTime (Guards.shifts (Guards.guard p))) ps) =
    count (fun r => truthy (full_name r) && truthy (service_number r) &&
                    str_is (late_hours r) "On-time") att /\
  list_sum (map (fun p => Guards.a_total (Guards.activities (Guards.guard p))) ps) =
    count (fun r => match service_number r with
                    | Some k => truthy (Some k) &&
                                existsb (String.eqb k) (map (fun p => Guards.id (Guards.guard p)) ps)
                    | None => false
                    end) act.
Proof.
  intro H. pose proof (guard_table_keys parseInt parseFloat att act) as Hkeys.
  unfold Guards.processGuardData in H. unfold Guards.guard_table in H, Hkeys.
  destruct (fold_left (Guards.attendance_step parseFloat) att (Some [])) as [m1 |] eqn:H1;
    [| rewrite fold_left_None in H by reflexivity; discriminate].
  destruct (fold_left (Guards.activity_step parseInt) act (Some m1)) as [m |] eqn:H2; [| discriminate].
  injection H as <-. rewrite !sum_sorted_values. cbn [Guards.guard Guards.finalize].
  assert (Hpass1 : forall (c : Guards.guard_acc -> nat) (inc : Row -> nat),
    (forall r x, c (Guards.attendance_update parseFloat r x) = c x + inc r)%nat ->
    (forall gid nm, c (Guards.seed gid nm) = 0%nat) ->
    list_sum (map c (map snd m1)) =
    list_sum (map (fun r => if truthy (full_name r) && truthy (service_number r) then inc r else 0)%nat att)).
  { intros c inc Hu Hs.
    rewrite (table_fold_sum _ c _ (fun _ => eq_refl) (attendance_step_sum parseFloat c inc Hu Hs) att [] m1 H1).
    reflexivity. }
  assert (Hshift : forall (c : Guards.shifts_t -> nat) (inc : Row -> nat),
    (forall r x, c (Guards.shifts (Guards.attendance_update parseFloat r x)) =
                 c (Guards.shifts x) + inc r)%nat ->
    (forall gid nm, c (Guards.shifts (Guards.seed gid nm)) = 0%nat) ->
    list_sum (map (fun v => c (Guards.shifts v)) (map snd m)) =
    list_sum (map (fun r => if truthy (full_name r) && truthy (service_number r) then inc r else 0)%nat att)).
  { intros c inc Hu Hs.
    rewrite (activity_fold_sum parseInt (fun v => c (Guards.shifts v)) (fun _ => 0%nat)
               (fun r x => eq_sym (Nat.add_0_r _)) act m1 m H2).
    rewrite (list_sum_zero _ act)
      by (intro r; destruct (service_number r); [destruct (_ && _) |]; reflexivity).
    rewrite (Hpass1 (fun v => c (Guards.shifts v)) inc Hu Hs). lia. }
  split; [| split].
  - rewrite (Hshift Guards.s_total (fun _ => 1%nat)); [apply list_sum_count | |].
    + intros r x. unfold Guards.attendance_update. destruct (str_is _ _); simpl; lia.
    + reflexivity.
  - rewrite (Hshift Guards.s_onTime (fun r => if str_is (late_hours r) "On-time" then 1 else 0)%nat).
    + rewrite <- list_sum_count. f_equal. apply map_ext. intro r.
      destruct (truthy (full_name r) && truthy (service_number r)); reflexivity.
    + intros r x. unfold Guards.attendance_update. destruct (str_is _ _); simpl; lia.
    + reflexivity.
  - rewrite (activity_fold_sum parseInt (fun v => Guards.a_total (Guards.activities v)) (fun _ => 1%nat)
               ltac:(intros r x; simpl; lia) act m1 m H2).
    rewrite (Hpass1 (fun v => Guards.a_total (Guards.activities v)) (fun _ => 0%nat)).
    2: { intros r x. unfold Guards.attendance_update. destruct (str_is _ _); simpl; lia. }
    2: { reflexivity. }
    rewrite (list_sum_zero _ att) by (intro r; destruct (_ && _); reflexivity).
    rewrite <- list_sum_count. simpl. f_equal. apply map_ext. intro r.
    destruct (service_number r) as [k |]; [| reflexivity].
    assert (Hk : map fst m = map fst m1) by exact (activity_fold_keys parseInt act m1 m H2).
    destruct Hkeys as [_ He].
    rewrite (existsb_perm _ _ _ (sorted_values_keys_perm Guards.performance_compare Guards.finalize
                                    (fun p => Guards.id (Guards.guard p)) m
                                    ltac:(unfold all_entries in *; apply Forall_forall; intros [k' g] Hin;
                                          exact (proj1 (proj1 (Forall_forall _ _) He _ Hin))))).
    rewrite Hk. reflexivity.
Qed.

Lemma processGuardData_totals_witness :
  let ps := match Guards.processGuardData parseInt_model parseFloat_model sample_activity sample_attendance with
            | Some ps => ps | None => [] end in
  list_sum (map (fun p => Guards.s_total (Guards.shifts (Guards.guard p))) ps) =
    count (fun r => truthy (full_name r) && truthy (service_number r)) sample_attendance /\
  list_sum (map (fun p => Guards.s_onTime (Guards.shifts (Guards.guard p))) ps) =
    count (fun r => truthy (full_name r) && truthy (service_number r) &&
                    str_is (late_hours r) "On-time") sample_attendance /\
  list_sum (map (fun p => Guards.a_total (Guards.activities (Guards.guard p))) ps) =
    count (fun r => match service_number r with
                    | Some k => truthy (Some k) &&
                                existsb (String.eqb k) (map (fun p => Guards.id (Guards.guard p)) ps)
                    | None => false
                    end) sample_activity.
Proof.
  apply (processGuardData_totals parseInt_model parseFloat_model sample_activity sample_attendance).
  vm_compute. reflexivity.
Defined.

(** X7: the location profiles together hold one shift per attendance record
    with a post name, one covered shift per such record with a full name,
    and one on-time shift per covered record marked 'On-time'. *)
Theorem processLocationCoverage_totals parseFloat data ps :
  Locations.processLocationCoverage parseFloat data = Some ps ->
  list_sum (map (fun p => Locations.l_total (Locations.shifts (Locations.loc p))) ps) =
    count (fun r => truthy (post_name r)) data /\
  list_sum (map (fun p => Locations.l_covered (Locations.shifts (Locations.loc p))) ps) =
    count (fun r => truthy (post_name r) && truthy (full_name r)) data /\
  list_sum (map (fun p => Locations.l_onTime (Locations.shifts (Locations.loc p))) ps) =
    count (fun r => truthy (post_name r) && truthy (full_name r) && str_is (late_hours r) "On-time") data.
Proof.
  intro H. unfold Locations.processLocationCoverage in H.
  destruct (Locations.location_table parseFloat data) as [m |] eqn:Hm; [| discriminate].
  injection H as <-. rewrite !sum_sorted_values. cbn [Locations.loc Locations.finalize].
  unfold Locations.location_table in Hm.
  assert (Hsum : forall (c : Locations.loc_shifts -> nat) (inc : Row -> nat),
    (forall r x, c (Locations.shifts (Locations.record_update parseFloat r x)) =
                 c (Locations.shifts x) + inc r)%nat ->
    (forall loc, c (Locations.shifts (Locations.seed loc)) = 0%nat) ->
    list_sum (map (fun v => c (Locations.shifts v)) (map snd m)) =
    list_sum (map (fun r => if truthy (post_name r) then inc r else 0)%nat data)).
  { intros c inc Hu Hs.
    exact (table_fold_sum _ (fun v => c (Locations.shifts v)) _ (fun _ => eq_refl)
             (location_step_sum parseFloat (fun v => c (Locations.shifts v)) inc Hu Hs) data [] m Hm). }
  split; [| split].
  - rewrite (Hsum Locations.l_total (fun _ => 1%nat)); [apply list_sum_count | |].
    + intros r x. unfold Locations.record_update. destruct (truthy (full_name r)); simpl; lia.
    + reflexivity.
  - rewrite (Hsum Locations.l_covered (fun r => if truthy (full_name r) then 1 else 0)%nat).
    + rewrite <- list_sum_count. f_equal. apply map_ext. intro r.
      destruct (truthy (post_name r)); reflexivity.
    + intros r x. unfold Locations.record_update. destruct (truthy (full_name r)); simpl; lia.
    + reflexivity.
  - rewrite (Hsum Locations.l_onTime
               (fun r => if truthy (full_name r) && str_is (late_hours r) "On-time" then 1 else 0)%nat).
    + rewrite <- list_sum_count. f_equal. apply map_ext. intro r.
      rewrite <- Bool.andb_assoc. destruct (truthy (post_name r)); reflexivity.
    + intros r x. unfold Locations.record_update.
      destruct (truthy (full_name r)); simpl; [destruct (str_is _ _); simpl |]; lia.
    + reflexivity.
Qed.

Lemma processLocationCoverage_totals_witness :
  let ps := match Locations.processLocationCoverage parseFloat_model sample_attendance with
            | Some ps => ps | None => [] end in
  list_sum (map (fun p => Locations.l_total (Locations.shifts (Locations.loc p))) ps) =
    count (fun r => truthy (post_name r)) sample_attendance /\
  list_sum (map (fun p => Locations.l_covered (Locations.shifts (Locations.loc p))) ps) =
    count (fun r => truthy (post_name r) && truthy (full_name r)) sample_attendance /\
  list_sum (map (fun p => Locations.l_onTime (Locations.shifts (Locations.loc p))) ps) =
    count (fun r => truthy (post_name r) && truthy (full_name r) && str_is (late_hours r) "On-time")
      sample_attendance.
Proof.
  apply (processLocationCoverage_totals parseFloat_model sample_attendance).
  vm_compute. reflexivity.
Defined.

(** ** Hourly buckets *)

Section HourlyCounts.
Variable parseInt : string -> jsnum.
Variable getHours : string -> jsnum.

Lemma metrics_of_ok (r : Row) :
  (Hourly.m_total (Hourly.metrics_of parseInt r) = 1 /\
   Hourly.m_onTime (Hourly.metrics_of parseInt r) + Hourly.m_delayed (Hourly.metrics_of parseInt r) <= 1 /\
   Hourly.m_locationAccurate (Hourly.metrics_of parseInt r) <= 1)%nat.
Proof.
  unfold Hourly.metrics_of; cbn [Hourly.m_total Hourly.m_onTime Hourly.m_delayed Hourly.m_locationAccurate].
  split; [reflexivity | split].
  - destruct (time_accuracy r) as [s |]; cbn [str_is]; [| lia].
    destruct (String.eqb_spec s "On Time"); [subst; vm_compute; lia |].
    destruct (includes s "Delay"); lia.
  - destruct (location_accuracy r) as [s |]; [destruct (_ && _) |]; lia.
Qed.

Lemma update_existing_total (h : jsnum) (m : Hourly.metrics) (acc acc' : list Hourly.bucket) :
  Hourly.update_existing h m acc = Some acc' ->
  list_sum (map Hourly.total acc') = (list_sum (map Hourly.total acc) + Hourly.m_total m)%nat /\
  (Forall bucket_ok acc -> (Hourly.m_onTime m + Hourly.m_delayed m <= Hourly.m_total m /\
                             Hourly.m_locationAccurate m <= Hourly.m_total m)%nat ->
   Forall bucket_ok acc').
Proof.
  revert acc'. induction acc as [| b acc IH]; intros acc' H; [discriminate |].
  cbn [Hourly.update_existing] in H.
  destruct (js_num_eq (Hourly.hour b) h).
  - injection H as <-. simpl. split; [lia |].
    intros Hok Hm. inversion Hok as [| ? ? Hb Hrest]; subst.
    constructor; [| exact Hrest]. unfold bucket_ok in *; simpl. lia.
  - destruct (Hourly.update_existing h m acc) as [acc1 |] eqn:Hu; [| discriminate].
    injection H as <-. destruct (IH acc1 eq_refl) as [Hs Hf]. simpl. split; [lia |].
    intros Hok Hm. inversion Hok; subst. constructor; auto.
Qed.

Lemma step_total (acc : list Hourly.bucket) (r : Row) :
  list_sum (map Hourly.total (Hourly.step parseInt getHours acc r)) =
    (list_sum (map Hourly.total acc) + if truthy (date_time r) then 1 else 0)%nat /\
  (Forall bucket_ok acc -> Forall bucket_ok (Hourly.step parseInt getHours acc r)).
Proof.
  destruct (metrics_of_ok r) as (Ht & Hod & Hla).
  unfold Hourly.step. destruct (date_time r) as [s |]; cbn [truthy]; [| split; [lia | auto]].
  destruct (String.eqb s ""); cbn [negb]; [split; [lia | auto] |].
  destruct (Hourly.update_existing (getHours s) (Hourly.metrics_of parseInt r) acc) as [acc' |] eqn:Hu.
  - destruct (update_existing_total _ _ _ _ Hu) as [Hs Hf]. split; [lia |].
    intro Hok. apply Hf; [exact Hok | lia].
  - rewrite map_app, list_sum_app. simpl. split; [lia |].
    intro Hok. apply Forall_app. split; [exact Hok |]. constructor; [| constructor].
    unfold bucket_ok, Hourly.new_bucket; cbn [Hourly.total Hourly.onTime Hourly.delayed Hourly.locationAccurate]. lia.
Qed.

Lemma fold_step_total (data : list Row) (acc : list Hourly.bucket) :
  list_sum (map Hourly.total (fold_left (Hourly.step parseInt getHours) data acc)) =
    (list_sum (map Hourly.total acc) + count (fun r => truthy (date_time r)) data)%nat /\
  (Forall bucket_ok acc -> Forall bucket_ok (fold_left (Hourly.step parseInt getHours) data acc)).
Proof.
  revert acc. induction data as [| r data IH]; intro acc; cbn [fold_left].
  - split; [unfold count; simpl; lia | auto].
  - destruct (step_total acc r) as [Hs Hf]. destruct (IH (Hourly.step parseInt getHours acc r)) as [Hs' Hf'].
    rewrite count_cons. split; [rewrite Hs', Hs; lia | auto].
Qed.

End HourlyCounts.

Lemma processActivityData_totals_lemma parseInt getHours data :
  let buckets := Hourly.processActivityData parseInt getHours data in
  list_sum (map Hourly.total buckets) = count (fun r => truthy (date_time r)) data /\
  Forall bucket_ok buckets.
Proof.
  cbv zeta. unfold Hourly.processActivityData.
  destruct (fold_step_total parseInt getHours data []) as [Hs Hf].
  split.
  - rewrite <- (list_sum_perm _ _ (Permutation_map _ (Permutation_sym (js_sort_perm _ _)))).
    rewrite Hs. reflexivity.
  - apply (Forall_perm _ _ _ (Permutation_sym (js_sort_perm _ _))). apply Hf. constructor.
Qed.

(** X8: the buckets of [processActivityData] together count every
    activity record with a timestamp once, and in each bucket the on-time
    and delayed records together, and the location-accurate records, are at
    most the bucket's records. *)
Theorem processActivityData_totals parseInt getHours data :
  let buckets := Hourly.processActivityData parseInt getHours data in
  list_sum (map Hourly.total buckets) = count (fun r => truthy (date_time r)) data /\
  Forall bucket_ok buckets.
Proof. exact (processActivityData_totals_lemma parseInt getHours data). Qed.

(** ** The compliance cards *)

Lemma location_check_no_staffing (p : Locations.loc_profile) :
  Locations.guardCount (Locations.metrics p) = None ->
  Compliance.lc_staffingCompliance (Compliance.location_check p) = 0%nat /\
  js_ge (Compliance.lc_complianceScore (Compliance.location_check p)) 90 = false.
Proof.
  intro Hg. unfold Compliance.location_check. rewrite Hg. cbn [Compliance.undef_ge].
  cbn [Compliance.lc_staffingCompliance Compliance.lc_complianceScore]. split; [reflexivity |].
  destruct (js_ge (Locations.coverageRate (Locations.metrics p)) 95),
           (js_ge (Locations.punctualityRate (Locations.metrics p)) 90); vm_compute; reflexivity.
Qed.

Lemma count_map {A B} (f : B -> bool) (h : A -> B) (l : list A) :
  count f (map h l) = count (fun x => f (h x)) l.
Proof.
  induction l as [| a l IH]; [reflexivity |]. simpl map. rewrite !count_cons, IH. reflexivity.
Qed.

Lemma count_ext_in {A} (f g : A -> bool) (l : list A) :
  (forall x, In x l -> f x = g x) -> count f l = count g l.
Proof.
  intro H. induction l as [| a l IH]; [reflexivity |]. rewrite !count_cons, (H a (or_introl eq_refl)).
  rewrite IH; [reflexivity |]. intros x Hx. apply H. right. exact Hx.
Qed.

Lemma count_zero {A} (f : A -> bool) (l : list A) :
  (forall x, In x l -> f x = false) -> count f l = 0%nat.
Proof.
  intro H. induction l as [| a l IH]; [reflexivity |]. rewrite count_cons, (H a (or_introl eq_refl)).
  apply IH. intros x Hx. apply H. right. exact Hx.
Qed.

(** X9: the Compliant Locations card always shows 0: [location.guards] is a
    Set, [guardCount] is undefined, so no location meets the staffing check
    and no location score reaches 90. *)
Theorem process_all_no_compliant_location parseInt parseFloat getHours act att d :
  process_all parseInt parseFloat getHours act att = Some d ->
  compliant_locations (compliance d) = 0%nat /\
  Forall (fun c => Compliance.lc_staffingCompliance c = 0%nat) (Compliance.byLocation (compliance d)).
Proof.
  unfold process_all.
  destruct (Locations.processLocationCoverage parseFloat att) as [ls |] eqn:Hl; [| discriminate].
  destruct (Guards.processGuardData parseInt parseFloat act att) as [gs |]; [| discriminate].
  intros [= <-]. cbn [compliance]. unfold Compliance.calculateComplianceMetrics.
  assert (Hnone : forall p, In p ls -> Locations.guardCount (Locations.metrics p) = None).
  { intros p Hp. destruct (processLocationCoverage_In parseFloat att ls p Hl Hp) as (m & k & l & _ & _ & ->).
    reflexivity. }
  split.
  - unfold compliant_locations. cbn [Compliance.byLocation].
    change (length (filter ?f ?l)) with (count f l).
    rewrite count_map. apply count_zero. intros p Hp.
    exact (proj2 (location_check_no_staffing p (Hnone p Hp))).
  - apply Forall_forall. intros c Hc. apply in_map_iff in Hc as [p [<- Hp]].
    exact (proj1 (location_check_no_staffing p (Hnone p Hp))).
Qed.

Lemma process_all_no_compliant_location_witness :
  let d := match process_all parseInt_model parseFloat_model getHours_model sample_activity sample_attendance with
           | Some d => d | None => mkDashboard [] [] [] (Compliance.mkResult JNaN [] []) end in
  compliant_locations (compliance d) = 0%nat /\
  Forall (fun c => Compliance.lc_staffingCompliance c = 0%nat) (Compliance.byLocation (compliance d)).
Proof.
  apply (process_all_no_compliant_location parseInt_model parseFloat_model getHours_model
           sample_activity sample_attendance).
  vm_compute. reflexivity.
Defined.

Lemma set_add_length (x : option string) (s : list (option string)) :
  (1 <= length (set_add x s) <= S (length s))%nat.
Proof.
  unfold set_add. destruct (existsb (opt_str_eqb x) s) eqn:He.
  - destruct s; [discriminate | simpl; lia].
  - rewrite length_app. simpl. lia.
Qed.

Lemma guard_table_coverage_ok parseInt parseFloat act att :
  opt_inv coverage_ok (Guards.guard_table parseInt parseFloat act att).
Proof.
  apply guard_table_inv.
  - intros r gid nm. unfold coverage_ok, Guards.attendance_update, Guards.seed; cbn.
    pose proof (set_add_length (post_name r) []) as H. simpl in H.
    destruct (str_is (late_hours r) "On-time"); cbn; lia.
  - intros r g Hg. unfold coverage_ok in *. unfold Guards.attendance_update; cbn.
    pose proof (set_add_length (post_name r) (Guards.coverage g)).
    destruct (str_is (late_hours r) "On-time"); cbn; lia.
  - intros r g Hg. exact Hg.
Qed.

Lemma guard_profile_coverage parseInt parseFloat act att ps :
  Guards.processGuardData parseInt parseFloat act att = Some ps ->
  forall p, In p ps ->
    (1 <= Guards.coverageCount (Guards.metrics p) <= Guards.s_total (Guards.shifts (Guards.guard p)))%nat /\
    Compliance.gc_coverageCompliance (Compliance.guard_check p) = 1%nat.
Proof.
  intros H p Hp.
  destruct (processGuardData_In parseInt parseFloat act att ps p H Hp) as (m & k & g & Hm & Hin & ->).
  pose proof (guard_table_coverage_ok parseInt parseFloat act att) as Hinv. rewrite Hm in Hinv.
  pose proof (all_values_In _ m k g Hinv Hin) as Hg. unfold coverage_ok in Hg.
  cbn [Guards.metrics Guards.guard Guards.finalize Guards.coverageCount]. split; [exact Hg |].
  unfold Compliance.guard_check. cbn [Guards.metrics Guards.finalize Guards.coverageCount Compliance.gc_coverageCompliance].
  destruct (Nat.leb_spec 1 (length (Guards.coverage g))); [reflexivity | lia].
Qed.


(** X10: every guard profile has covered between one post and as many posts
    as it has shifts (a missing post name counts as one value of the Set), so
    every guard passes the coverage check of the compliance evaluator. *)
Theorem processGuardData_coverageCount parseInt parseFloat act att ps :
  Guards.processGuardData parseInt parseFloat act att = Some ps ->
  Forall (fun p =>
    (1 <= Guards.coverageCount (Guards.metrics p) <= Guards.s_total (Guards.shifts (Guards.guard p)))%nat /\
    Compliance.gc_coverageCompliance (Compliance.guard_check p) = 1%nat) ps.
Proof.
  intro H. apply Forall_forall. exact (guard_profile_coverage parseInt parseFloat act att ps H).
Qed.

Lemma processGuardData_coverageCount_witness :
  let ps := match Guards.processGuardData parseInt_model parseFloat_model sample_activity sample_attendance with
            | Some ps => ps | None => [] end in
  Forall (fun p =>
    (1 <= Guards.coverageCount (Guards.metrics p) <= Guards.s_total (Guards.shifts (Guards.guard p)))%nat /\
    Compliance.gc_coverageCompliance (Compliance.guard_check p) = 1%nat) ps.
Proof.
  apply (processGuardData_coverageCount parseInt_model parseFloat_model sample_activity sample_attendance).
  vm_compute. reflexivity.
Defined.

(** X11: the Compliant Guards card counts exactly the guards whose
    attendance rate is at least 95 and whose activity compliance rate is at
    least 90: the coverage check always passes, and a guard score of 90 or
    more needs the other two checks to pass as well. *)
Theorem process_all_compliant_guards parseInt parseFloat getHours act att d :
  process_all parseInt parseFloat getHours act att = Some d ->
  compliant_guards (compliance d) =
    count (fun g => js_ge (Guards.attendanceRate (Guards.metrics g)) 95 &&
                    js_ge (Guards.activityComplianceRate (Guards.metrics g)) 90)
          (guardStatistics d).
Proof.
  unfold process_all.
  destruct (Locations.processLocationCoverage parseFloat att) as [ls |]; [| discriminate].
  destruct (Guards.processGuardData parseInt parseFloat act att) as [gs |] eqn:Hg; [| discriminate].
  intros [= <-]. cbn [compliance guardStatistics]. unfold Compliance.calculateComplianceMetrics.
  unfold compliant_guards. cbn [Compliance.byGuard].
  change (length (filter ?f ?l)) with (count f l).
  rewrite count_map. apply count_ext_in. intros p Hp.
  destruct (guard_profile_coverage parseInt parseFloat act att gs Hg p Hp) as [_ Hc].
  revert Hc. unfold Compliance.guard_check. cbn [Compliance.gc_coverageCompliance Compliance.gc_complianceScore].
  destruct (1 <=? Guards.coverageCount (Guards.metrics p))%nat; [| discriminate]. intros _.
  destruct (js_ge (Guards.attendanceRate (Guards.metrics p)) 95),
           (js_ge (Guards.activityComplianceRate (Guards.metrics p)) 90); vm_compute; reflexivity.
Qed.

Lemma process_all_compliant_guards_witness :
  let d := match process_all parseInt_model parseFloat_model getHours_model sample_activity sample_attendance with
           | Some d => d | None => mkDashboard [] [] [] (Compliance.mkResult JNaN [] []) end in
  compliant_guards (compliance d) =
    count (fun g => js_ge (Guards.attendanceRate (Guards.metrics g)) 95 &&
                    js_ge (Guards.activityComplianceRate (Guards.metrics g)) 90)
          (guardStatistics d).
Proof.
  apply (process_all_compliant_guards parseInt_model parseFloat_model getHours_model
           sample_activity sample_attendance).
  vm_compute. reflexivity.
Defined.

(** ** The Alert component *)

Lemma assoc_find_None {V} (k : string) (m : list (string * V)) :
  ~ In k (map fst m) -> assoc_find k m = None.
Proof.
  induction m as [| [k' v] m IH]; intro Hk; [reflexivity |]. cbn.
  destruct (String.eqb_spec k k') as [-> | _]; [exfalso; apply Hk; left; reflexivity |].
  apply IH. intro H. apply Hk. right. exact H.
Qed.

Lemma existsb_eqb_false (k : string) (l : list string) :
  ~ In k l -> existsb (String.eqb k) l = false.
Proof.
  intro Hk. apply Bool.not_true_iff_false. intro E.
  apply existsb_exists in E as [x [Hx Ex]]. apply String.eqb_eq in Ex. subst x. contradiction.
Qed.

(** X12: an Alert whose variant is not one of its four own keys and not a
    member of [Object.prototype] gets the info classes, as one without a
    variant does. *)
Theorem Alert_unknown_variant_is_info (s : string) :
  ~ In s (map fst Alert.variantClasses) -> ~ In s object_prototype_keys ->
  Alert.className (Some s) = Alert.ClassText "p-4 rounded bg-blue-50 text-blue-800" /\
  Alert.className None = Alert.ClassText "p-4 rounded bg-blue-50 text-blue-800".
Proof.
  intros Hk Hp. split; [| reflexivity].
  unfold Alert.className, Alert.variant_class, obj_get.
  rewrite (assoc_find_None s _ Hk), (existsb_eqb_false s _ Hp). reflexivity.
Qed.

Lemma Alert_unknown_variant_is_info_witness :
  Alert.className (Some "danger") = Alert.ClassText "p-4 rounded bg-blue-50 text-blue-800" /\
  Alert.className None = Alert.ClassText "p-4 rounded bg-blue-50 text-blue-800".
Proof.
  apply (Alert_unknown_variant_is_info "danger"); cbn; intuition discriminate.
Defined.

(** X13: an Alert whose variant names a member of [Object.prototype] (such
    as "toString") does not fall back to the info classes: its class is
    the inherited member itself. *)
Theorem Alert_prototype_variant (s : string) :
  In s object_prototype_keys -> Alert.className (Some s) = Alert.InheritedMember s.
Proof.
  intro Hp. unfold Alert.className, Alert.variant_class, obj_get.
  assert (Hk : ~ In s (map fst Alert.variantClasses)).
  { cbn. intros [<- | [<- | [<- | [<- | []]]]]; cbn in Hp; intuition discriminate. }
  rewrite (assoc_find_None s _ Hk).
  assert (E : existsb (String.eqb s) object_prototype_keys = true).
  { apply existsb_exists. exists s. split; [exact Hp | apply String.eqb_refl]. }
  rewrite E. reflexivity.
Qed.

Lemma Alert_prototype_variant_witness :
  Alert.className (Some "toString") = Alert.InheritedMember "toString".
Proof.
  apply (Alert_prototype_variant "toString"). cbn. intuition.
Defined.

(** ** When the aggregators throw *)

Lemma obj_get_Inherited_iff {V} (m : list (string * V)) (k : string) :
  ordinary_keys m -> (obj_get m k = Inherited <-> is_prototype_key k = true).
Proof.
  intro Hm. unfold obj_get, is_prototype_key.
  destruct (assoc_find k m) as [v |] eqn:Hf.
  - apply assoc_find_In in Hf. pose proof (proj1 (Forall_forall _ _) Hm _ Hf) as Hk.
    cbn [fst] in Hk. unfold is_prototype_key in Hk. rewrite Hk. split; discriminate.
  - destruct (existsb (String.eqb k) object_prototype_keys); split; congruence.
Qed.

Lemma ordinary_keys_obj_set_own {V} (m : list (string * V)) (k : string) (v v0 : V) :
  ordinary_keys m -> obj_get m k = Own v0 -> ordinary_keys (obj_set m k v).
Proof.
  intros Hm Hg. apply all_entries_obj_set; [exact Hm |].
  exact (all_entries_obj_get _ m k v0 Hm Hg).
Qed.

Lemma ordinary_keys_obj_set_absent {V} (m : list (string * V)) (k : string) (v : V) :
  ordinary_keys m -> obj_get m k = Absent -> ordinary_keys (obj_set m k v).
Proof.
  intros Hm Hg. apply all_entries_obj_set; [exact Hm |]. cbv beta.
  revert Hg. unfold obj_get, is_prototype_key.
  destruct (assoc_find k m); [discriminate |].
  destruct (existsb (String.eqb k) object_prototype_keys); congruence.
Qed.

(** a fold over an object that throws exactly at the records [bad] picks out *)
Lemma fold_throws {V A} (step : option (list (string * V)) -> A -> option (list (string * V)))
    (bad : A -> bool) :
  (forall a, step None a = None) ->
  (forall m a, ordinary_keys m ->
     match step (Some m) a with
     | None => bad a = true
     | Some m' => bad a = false /\ ordinary_keys m'
     end) ->
  forall l m, ordinary_keys m ->
    match fold_left step l (Some m) with
    | None => existsb bad l = true
    | Some m' => existsb bad l = false /\ ordinary_keys m'
    end.
Proof.
  intros Hnone Hstep l. induction l as [| a l IH]; intros m Hm; cbn [fold_left existsb]; [auto |].
  specialize (Hstep m a Hm). destruct (step (Some m) a) as [m1 |] eqn:Hs.
  - destruct Hstep as [Hb Hm1]. rewrite Hb. exact (IH m1 Hm1).
  - rewrite (fold_left_None _ _ Hnone), Hstep. reflexivity.
Qed.

Lemma ordinary_keys_nil {V} : @ordinary_keys V [].
Proof. constructor. Qed.

Lemma prototype_key_truthy (k : string) : is_prototype_key k = true -> truthy (Some k) = true.
Proof. unfold is_prototype_key. intro H. cbn [truthy]. destruct (String.eqb_spec k ""); [subst; discriminate | reflexivity]. Qed.

Lemma is_prototype_key_In (k : string) : is_prototype_key k = true <-> In k object_prototype_keys.
Proof.
  unfold is_prototype_key. rewrite existsb_exists. split.
  - intros [x [Hx E]]. apply String.eqb_eq in E. subst. exact Hx.
  - intro H. exists k. split; [exact H | apply String.eqb_refl].
Qed.

Lemma existsb_In_iff {A} (f : A -> bool) (P : A -> Prop) (l : list A) :
  (forall a, f a = true <-> P a) -> (existsb f l = true <-> exists a, In a l /\ P a).
Proof.
  intro H. rewrite existsb_exists. split; intros [a [Ha Hp]]; exists a; split; auto; apply H; exact Hp.
Qed.

Lemma obj_get_cases {V} (m : list (string * V)) (k : string) :
  ordinary_keys m ->
  (is_prototype_key k = true /\ obj_get m k = Inherited) \/
  (is_prototype_key k = false /\ ((exists v, obj_get m k = Own v) \/ obj_get m k = Absent)).
Proof.
  intro Hm. destruct (is_prototype_key k) eqn:Hp.
  - left. split; [reflexivity | apply (obj_get_Inherited_iff m k Hm); exact Hp].
  - right. split; [reflexivity |].
    destruct (obj_get m k) as [v | |] eqn:Hg; [left; exists v; reflexivity | | right; reflexivity].
    apply (obj_get_Inherited_iff m k Hm) in Hg. congruence.
Qed.

Lemma prototype_key_empty : is_prototype_key "" = false.
Proof. reflexivity. Qed.

Lemma truthy_false_not_prototype (k : string) :
  truthy (Some k) = false -> is_prototype_key k = false.
Proof.
  cbn [truthy]. destruct (String.eqb_spec k ""); [intros _; subst; reflexivity | discriminate].
Qed.

Section Throws.
Variable parseInt : string -> jsnum.
Variable parseFloat : string -> jsnum.

Lemma location_step_throws (m : list (string * Locations.loc_acc)) (r : Row) :
  ordinary_keys m ->
  match Locations.location_step parseFloat (Some m) r with
  | None => match post_name r with Some k => is_prototype_key k | None => false end = true
  | Some m' => match post_name r with Some k => is_prototype_key k | None => false end = false /\
               ordinary_keys m'
  end.
Proof.
  intro Hm. cbn -[truthy obj_get obj_set is_prototype_key].
  destruct (post_name r) as [k |]; [| split; [reflexivity | exact Hm]].
  destruct (truthy (Some k)) eqn:Ht; [| split; [apply truthy_false_not_prototype, Ht | exact Hm]].
  destruct (obj_get_cases m k Hm) as [[Hp Hg] | [Hp [[v Hg] | Hg]]]; rewrite Hg; [exact Hp | |];
    (split; [exact Hp |]).
  - exact (ordinary_keys_obj_set_own m k _ v Hm Hg).
  - exact (ordinary_keys_obj_set_absent m k _ Hm Hg).
Qed.

Lemma attendance_step_throws (m : list (string * Guards.guard_acc)) (r : Row) :
  ordinary_keys m ->
  let bad := match full_name r, service_number r with
             | Some fn, Some gid => truthy (Some fn) && is_prototype_key gid
             | _, _ => false end in
  match Guards.attendance_step parseFloat (Some m) r with
  | None => bad = true
  | Some m' => bad = false /\ ordinary_keys m'
  end.
Proof.
  intro Hm. cbv zeta. cbn -[truthy obj_get obj_set is_prototype_key].
  destruct (full_name r) as [fn |], (service_number r) as [gid |];
    try (split; [reflexivity | exact Hm]).
  destruct (truthy (Some fn)); cbn [andb]; [| split; [reflexivity | exact Hm]].
  destruct (truthy (Some gid)) eqn:Ht; [| split; [apply truthy_false_not_prototype, Ht | exact Hm]].
  destruct (obj_get_cases m gid Hm) as [[Hp Hg] | [Hp [[v Hg] | Hg]]]; rewrite Hg; [exact Hp | |];
    (split; [exact Hp |]).
  - exact (ordinary_keys_obj_set_own m gid _ v Hm Hg).
  - exact (ordinary_keys_obj_set_absent m gid _ Hm Hg).
Qed.

Lemma activity_step_throws (m : list (string * Guards.guard_acc)) (r : Row) :
  ordinary_keys m ->
  match Guards.activity_step parseInt (Some m) r with
  | None => match service_number r with Some k => is_prototype_key k | None => false end = true
  | Some m' => match service_number r with Some k => is_prototype_key k | None => false end = false /\
               ordinary_keys m'
  end.
Proof.
  intro Hm. cbn -[truthy obj_get obj_set is_prototype_key].
  destruct (service_number r) as [k |]; [| split; [reflexivity | exact Hm]].
  destruct (truthy (Some k)) eqn:Ht; [| split; [apply truthy_false_not_prototype, Ht | exact Hm]].
  destruct (obj_get_cases m k Hm) as [[Hp Hg] | [Hp [[v Hg] | Hg]]]; rewrite Hg; [exact Hp | |];
    (split; [exact Hp |]).
  - exact (ordinary_keys_obj_set_own m k _ v Hm Hg).
  - exact Hm.
Qed.

End Throws.

Lemma bad_key_iff {R} (field : R -> option string) (r : R) :
  match field r with Some k => is_prototype_key k | None => false end = true <->
  exists k, field r = Some k /\ In k object_prototype_keys.
Proof.
  destruct (field r) as [k |].
  - rewrite is_prototype_key_In. split; [intro H; exists k; auto | intros [k' [[= <-] H]]; exact H].
  - split; [discriminate | intros [k' [E _]]; discriminate].
Qed.

(** X14: [processLocationCoverage] throws exactly when some attendance
    record's Post Name is the name of an [Object.prototype] property (such
    as "constructor" or "toString"); otherwise it returns its profiles. *)
Theorem processLocationCoverage_throws parseFloat data :
  Locations.processLocationCoverage parseFloat data = None <->
  exists r, In r data /\ exists k, post_name r = Some k /\ In k object_prototype_keys.
Proof.
  pose proof (fold_throws (Locations.location_step parseFloat)
                (fun r => match post_name r with Some k => is_prototype_key k | None => false end)
                (fun _ => eq_refl) (location_step_throws parseFloat) data [] ordinary_keys_nil) as H.
  rewrite <- (existsb_In_iff _ _ data (bad_key_iff post_name)).
  unfold Locations.processLocationCoverage, Locations.location_table.
  destruct (fold_left (Locations.location_step parseFloat) data (Some [])).
  - destruct H as [H _]. rewrite H. split; discriminate.
  - rewrite H. split; reflexivity.
Qed.

(** X15: [processGuardData] throws exactly when an attendance record with a
    Full Name, or any activity record, carries as Service Number the name of
    an [Object.prototype] property; otherwise it returns its profiles. *)
Theorem processGuardData_throws parseInt parseFloat act att :
  Guards.processGuardData parseInt parseFloat act att = None <->
  (exists r, In r att /\ truthy (full_name r) = true /\
             exists k, service_number r = Some k /\ In k object_prototype_keys) \/
  (exists r, In r act /\ exists k, service_number r = Some k /\ In k object_prototype_keys).
Proof.
  set (bad_att := fun r => match full_name r, service_number r with
                           | Some fn, Some gid => truthy (Some fn) && is_prototype_key gid
                           | _, _ => false end).
  set (bad_act := fun r => match service_number r with Some k => is_prototype_key k | None => false end).
  assert (Hatt : forall r, bad_att r = true <->
            truthy (full_name r) = true /\ exists k, service_number r = Some k /\ In k object_prototype_keys).
  { intro r. unfold bad_att. rewrite <- (bad_key_iff service_number r).
    destruct (full_name r) as [fn |], (service_number r) as [gid |]; cbn [truthy andb];
      rewrite ?Bool.andb_true_iff; intuition discriminate. }
  rewrite <- (existsb_In_iff bad_att _ att Hatt).
  rewrite <- (existsb_In_iff bad_act _ act (bad_key_iff service_number)).
  pose proof (fold_throws (Guards.attendance_step parseFloat) bad_att
                (fun _ => eq_refl) (attendance_step_throws parseFloat) att [] ordinary_keys_nil) as H1.
  unfold Guards.processGuardData, Guards.guard_table.
  destruct (fold_left (Guards.attendance_step parseFloat) att (Some [])) as [m |].
  - destruct H1 as [H1 Hm]. rewrite H1.
    pose proof (fold_throws (Guards.activity_step parseInt) bad_act
                  (fun _ => eq_refl) (activity_step_throws parseInt) act m Hm) as H2.
    destruct (fold_left (Guards.activity_step parseInt) act (Some m)).
    + destruct H2 as [H2 _]. rewrite H2. split; [discriminate | intros [E | E]; discriminate].
    + rewrite H2. split; [intros _; right; reflexivity | reflexivity].
  - rewrite (fold_left_None _ _ (fun _ => eq_refl)), H1. split; [intros _; left; reflexivity | reflexivity].
Qed.

Lemma variant_location_step_throws (m : list (string * Variant.Locations.loc)) (r : Variant.Row) :
  ordinary_keys m ->
  let bad := match Variant.post_name r with
             | Some k => is_prototype_key k && truthy (Variant.full_name r)
             | None => false end in
  match Variant.Locations.step (Some m) r with
  | None => bad = true
  | Some m' => bad = false /\ ordinary_keys m'
  end.
Proof.
  intro Hm. cbv zeta. cbn -[truthy obj_get obj_set is_prototype_key].
  destruct (Variant.post_name r) as [k |]; [| split; [reflexivity | exact Hm]].
  destruct (truthy (Some k)) eqn:Ht;
    [| rewrite (truthy_false_not_prototype k Ht); split; [reflexivity | exact Hm]].
  destruct (obj_get_cases m k Hm) as [[Hp Hg] | [Hp [[v Hg] | Hg]]]; rewrite Hg, Hp; cbn [andb].
  - destruct (truthy (Variant.full_name r)); [reflexivity | split; [reflexivity | exact Hm]].
  - split; [reflexivity | exact (ordinary_keys_obj_set_own m k _ v Hm Hg)].
  - split; [reflexivity | exact (ordinary_keys_obj_set_absent m k _ Hm Hg)].
Qed.

Lemma variant_guard_step_throws parseInt (m : list (string * Variant.GuardStats.guard_acc)) (r : Variant.Row) :
  ordinary_keys m ->
  match Variant.GuardStats.step parseInt (Some m) r with
  | None => match Variant.service_number r with Some k => is_prototype_key k | None => false end = true
  | Some m' => match Variant.service_number r with Some k => is_prototype_key k | None => false end = false /\
               ordinary_keys m'
  end.
Proof.
  intro Hm. cbn -[truthy obj_get obj_set is_prototype_key].
  destruct (Variant.service_number r) as [k |]; [| split; [reflexivity | exact Hm]].
  destruct (truthy (Some k)) eqn:Ht; [| split; [apply truthy_false_not_prototype, Ht | exact Hm]].
  destruct (obj_get_cases m k Hm) as [[Hp Hg] | [Hp [[v Hg] | Hg]]]; rewrite Hg; [exact Hp | |];
    (split; [exact Hp |]).
  - exact (ordinary_keys_obj_set_own m k _ v Hm Hg).
  - exact (ordinary_keys_obj_set_absent m k _ Hm Hg).
Qed.

(** X16: [processData] of the second dashboard ends in the error state exactly
    when an attendance record with a Full Name has as Post Name, or an
    activity record has as Service Number, the name of an
    [Object.prototype] property. *)
Theorem Variant_processData_throws getHours parseInt act att :
  Variant.processData getHours parseInt act att = None <->
  (exists r, In r att /\ truthy (Variant.full_name r) = true /\
             exists k, Variant.post_name r = Some k /\ In k object_prototype_keys) \/
  (exists r, In r act /\ exists k, Variant.service_number r = Some k /\ In k object_prototype_keys).
Proof.
  set (bad_att := fun r => match Variant.post_name r with
                           | Some k => is_prototype_key k && truthy (Variant.full_name r)
                           | None => false end).
  set (bad_act := fun r => match Variant.service_number r with Some k => is_prototype_key k | None => false end).
  assert (Hatt : forall r, bad_att r = true <->
            truthy (Variant.full_name r) = true /\
            exists k, Variant.post_name r = Some k /\ In k object_prototype_keys).
  { intro r. unfold bad_att. rewrite <- (bad_key_iff Variant.post_name r).
    destruct (Variant.post_name r) as [k |]; rewrite ?Bool.andb_true_iff; intuition discriminate. }
  rewrite <- (existsb_In_iff bad_att _ att Hatt).
  rewrite <- (existsb_In_iff bad_act _ act (bad_key_iff Variant.service_number)).
  pose proof (fold_throws Variant.Locations.step bad_att
                (fun _ => eq_refl) variant_location_step_throws att [] ordinary_keys_nil) as H1.
  pose proof (fold_throws (Variant.GuardStats.step parseInt) bad_act
                (fun _ => eq_refl) (variant_guard_step_throws parseInt) act [] ordinary_keys_nil) as H2.
  unfold Variant.processData, Variant.Attendance.processAttendanceData,
    Variant.Locations.processLocationCoverage, Variant.GuardStats.processGuardStatistics,
    Variant.GuardStats.guard_table.
  destruct (fold_left Variant.Locations.step att (Some [])) as [m1 |].
  - destruct H1 as [H1 _]. rewrite H1.
    destruct (fold_left (Variant.GuardStats.step parseInt) act (Some [])).
    + destruct H2 as [H2 _]. rewrite H2. split; [discriminate | intros [E | E]; discriminate].
    + rewrite H2. split; [intros _; right; reflexivity | reflexivity].
  - rewrite H1. split; [intros _; left; reflexivity | reflexivity].
Qed.

(** ** The second dashboard: hourly buckets *)

Lemma list_sum_cons (x : nat) (l : list nat) : list_sum (x :: l) = (x + list_sum l)%nat.
Proof. reflexivity. Qed.

Section VariantActivity.
Variable getHours : string -> jsnum.

Lemma critical_bit_le (r : Variant.Row) :
  ((if str_is (Variant.alert r) "Critical" then 1 else 0) <= Variant.Activity.alert_bit r <= 1)%nat.
Proof.
  unfold Variant.Activity.alert_bit. destruct (Variant.alert r) as [a |]; cbn [str_is truthy]; [| lia].
  destruct (String.eqb_spec a "Critical") as [-> | _]; [cbn; lia |].
  destruct (negb _); lia.
Qed.

Lemma variant_update_existing (h : jsnum) (r : Variant.Row) (acc acc' : list Variant.Activity.bucket) :
  Variant.Activity.update_existing h r acc = Some acc' ->
  list_sum (map Variant.Activity.count acc') = S (list_sum (map Variant.Activity.count acc)) /\
  (Forall (fun b => Variant.Activity.criticalAlerts b <= Variant.Activity.alerts b <= Variant.Activity.count b)%nat acc ->
   Forall (fun b => Variant.Activity.criticalAlerts b <= Variant.Activity.alerts b <= Variant.Activity.count b)%nat acc').
Proof.
  pose proof (critical_bit_le r) as Hc.
  revert acc'. induction acc as [| b acc IH]; intros acc' H; [discriminate |].
  cbn [Variant.Activity.update_existing] in H.
  destruct (js_num_eq (Variant.Activity.hour b) h).
  - injection H as <-. cbn [map]. rewrite !list_sum_cons. cbn [Variant.Activity.add_record Variant.Activity.count]. split; [lia |].
    intro Hok. inversion Hok as [| ? ? Hb Hrest]; subst. constructor; [| exact Hrest].
    cbn [Variant.Activity.add_record Variant.Activity.count Variant.Activity.alerts Variant.Activity.criticalAlerts].
    destruct (str_is (Variant.alert r) "Critical"); lia.
  - destruct (Variant.Activity.update_existing h r acc) as [acc1 |]; [| discriminate].
    injection H as <-. destruct (IH acc1 eq_refl) as [Hs Hf]. cbn [map]. rewrite !list_sum_cons. split; [lia |].
    intro Hok. inversion Hok; subst. constructor; auto.
Qed.

Lemma variant_fold_step (data : list Variant.Row) (acc : list Variant.Activity.bucket) :
  list_sum (map Variant.Activity.count (fold_left (Variant.Activity.step getHours) data acc)) =
    (list_sum (map Variant.Activity.count acc) + count (fun r => truthy (Variant.date_time r)) data)%nat /\
  (Forall (fun b => Variant.Activity.criticalAlerts b <= Variant.Activity.alerts b <= Variant.Activity.count b)%nat acc ->
   Forall (fun b => Variant.Activity.criticalAlerts b <= Variant.Activity.alerts b <= Variant.Activity.count b)%nat
     (fold_left (Variant.Activity.step getHours) data acc)).
Proof.
  revert acc. induction data as [| r data IH]; intro acc; cbn [fold_left].
  - split; [unfold count; simpl; lia | auto].
  - rewrite count_cons.
    assert (Hs : list_sum (map Variant.Activity.count (Variant.Activity.step getHours acc r)) =
                   (list_sum (map Variant.Activity.count acc) + if truthy (Variant.date_time r) then 1 else 0)%nat /\
                 (Forall (fun b => Variant.Activity.criticalAlerts b <= Variant.Activity.alerts b <= Variant.Activity.count b)%nat acc ->
                  Forall (fun b => Variant.Activity.criticalAlerts b <= Variant.Activity.alerts b <= Variant.Activity.count b)%nat
                    (Variant.Activity.step getHours acc r))).
    { unfold Variant.Activity.step. destruct (Variant.date_time r) as [s |]; cbn [truthy]; [| split; [lia | auto]].
      destruct (String.eqb s ""); cbn [negb]; [split; [lia | auto] |].
      destruct (Variant.Activity.update_existing (getHours s) r acc) as [acc' |] eqn:Hu.
      - destruct (variant_update_existing _ _ _ _ Hu) as [H1 H2]. split; [lia | exact H2].
      - rewrite map_app, list_sum_app. cbn [map]. rewrite list_sum_cons. cbn [list_sum fold_right Variant.Activity.new_bucket Variant.Activity.count].
        split; [lia |]. intro Hok. apply Forall_app. split; [exact Hok |]. constructor; [| constructor].
        pose proof (critical_bit_le r).
        cbn [Variant.Activity.new_bucket Variant.Activity.count Variant.Activity.alerts Variant.Activity.criticalAlerts].
        lia. }
    destruct Hs as [Hs Hf]. destruct (IH (Variant.Activity.step getHours acc r)) as [Hs' Hf'].
    split; [rewrite Hs', Hs; lia | auto].
Qed.

End VariantActivity.

(** X17: the hourly buckets of the second dashboard count every activity
    record with a timestamp once, and in each bucket the critical alerts are
    at most the alerts, which are at most the bucket's records. *)
Theorem Variant_processActivityData_counts getHours data :
  let buckets := Variant.Activity.processActivityData getHours data in
  list_sum (map Variant.Activity.count buckets) = count (fun r => truthy (Variant.date_time r)) data /\
  Forall (fun b => Variant.Activity.criticalAlerts b <= Variant.Activity.alerts b <= Variant.Activity.count b)%nat
    buckets.
Proof.
  cbv zeta. unfold Variant.Activity.processActivityData.
  destruct (variant_fold_step getHours data []) as [Hs Hf].
  split.
  - rewrite <- (list_sum_perm _ _ (Permutation_map _ (Permutation_sym (js_sort_perm _ _)))).
    rewrite Hs. reflexivity.
  - apply (Forall_perm _ _ _ (Permutation_sym (js_sort_perm _ _))). apply Hf. constructor.
Qed.

(** ** The second dashboard: attendance summary *)

Lemma variant_location_table_ok data :
  opt_pred (all_entries (fun _ l => 1 <= Variant.Locations.total l /\
                                    Variant.Locations.covered l <= Variant.Locations.total l)%nat)
    (Variant.Locations.processLocationCoverage data).
Proof.
  unfold Variant.Locations.processLocationCoverage. apply fold_opt_pred; [| constructor].
  intros [m |] r _ Hm; cbn [Variant.Locations.step]; [| exact I].
  destruct (Variant.post_name r) as [k |]; [| exact Hm].
  destruct (truthy (Some k)); [| exact Hm].
  destruct (obj_get m k) as [l | |] eqn:Hg.
  - apply all_entries_obj_set; [exact Hm |].
    pose proof (all_entries_obj_get _ m k l Hm Hg) as Hl. cbv beta in Hl |- *.
    unfold Variant.Locations.update; cbn [Variant.Locations.total Variant.Locations.covered].
    destruct (truthy (Variant.full_name r)); lia.
  - destruct (truthy (Variant.full_name r)); [exact I | exact Hm].
  - apply all_entries_obj_set; [exact Hm |]. cbv beta.
    unfold Variant.Locations.update, Variant.Locations.seed; cbn [Variant.Locations.total Variant.Locations.covered].
    destruct (truthy (Variant.full_name r)); lia.
Qed.

Lemma inject_Z_succ (n : nat) : inject_Z (Z.of_nat (S n)) == inject_Z (Z.of_nat n) + 1.
Proof. rewrite Nat2Z.inj_succ, <- Z.add_1_r, inject_Z_plus. reflexivity. Qed.

Lemma coverage_fold_bounds (locs : list Variant.Locations.loc) (q : Q) :
  Forall (fun l => 1 <= Variant.Locations.total l /\ Variant.Locations.covered l <= Variant.Locations.total l)%nat locs ->
  exists q', fold_left (fun acc l => js_add acc (js_div (js_of_nat (Variant.Locations.covered l))
                                                       (js_of_nat (Variant.Locations.total l))))
               locs (JNum q) = JNum q' /\
             q <= q' /\ q' <= q + inject_Z (Z.of_nat (length locs)).
Proof.
  revert q. induction locs as [| l locs IH]; intros q Hok; cbn [fold_left length].
  - exists q. split; [reflexivity |]. change (inject_Z (Z.of_nat 0)) with 0. split; lra.
  - inversion Hok as [| ? ? [Ht Hc] Hrest]; subst.
    rewrite js_div_nats by lia.
    destruct (qdiv_bounds (inject_Z (Z.of_nat (Variant.Locations.covered l)))
                (inject_Z (Z.of_nat (Variant.Locations.total l))) 1 (nat_Q_nonneg _)
                ltac:(rewrite Qmult_1_l; apply nat_Q_le; exact Hc) (nat_Q_pos (Variant.Locations.total l) ltac:(lia))) as [H0 H1].
    cbn [js_add]. destruct (IH (q + inject_Z (Z.of_nat (Variant.Locations.covered l)) / inject_Z (Z.of_nat (Variant.Locations.total l))) Hrest) as [q' [Hf [Hlo Hhi]]].
    exists q'. split; [exact Hf |]. rewrite inject_Z_succ. split; lra.
Qed.

Lemma avgCoverage_bounds (lc : list (string * Variant.Locations.loc)) :
  all_entries (fun _ l => 1 <= Variant.Locations.total l /\
                          Variant.Locations.covered l <= Variant.Locations.total l)%nat lc ->
  let avg := js_mul (js_div (Variant.Attendance.coverage_sum (object_values lc)) (js_of_nat (length lc)))
                    (JNum 100) in
  (lc = [] -> avg = JNaN) /\ (lc <> [] -> exists q, avg = JNum q /\ 0 <= q /\ q <= 100).
Proof.
  intros Hok. cbv zeta. split.
  - intros ->. reflexivity.
  - intro Hne.
    assert (Hv : Forall (fun l => 1 <= Variant.Locations.total l /\
                                  Variant.Locations.covered l <= Variant.Locations.total l)%nat
                   (object_values lc)).
    { apply (Forall_perm _ _ _ (Permutation_sym (object_values_perm lc))).
      apply Forall_map. exact Hok. }
    destruct (coverage_fold_bounds _ 0 Hv) as [q' [Hf [Hlo Hhi]]].
    unfold Variant.Attendance.coverage_sum. rewrite Hf.
    assert (Hlen : length (object_values lc) = length lc).
    { rewrite (Permutation_length (object_values_perm lc)). apply length_map. }
    rewrite Hlen in Hhi.
    assert (Hn : (0 < length lc)%nat) by (destruct lc; [contradiction | cbn; lia]).
    rewrite (js_div_nat _ _ Hn).
    destruct (qdiv_bounds q' (inject_Z (Z.of_nat (length lc))) 1 ltac:(lra)
                ltac:(rewrite Qmult_1_l; lra) (nat_Q_pos _ Hn)) as [H0 H1].
    cbn [js_mul]. eexists. split; [reflexivity |]. split; lra.
Qed.

Lemma Variant_avg_coverage_of a data :
  Variant.Attendance.processAttendanceData data = Some a ->
  (Variant.Attendance.locationCoverage a = [] -> Variant.Attendance.avgCoverage a = JNaN) /\
  (Variant.Attendance.locationCoverage a <> [] ->
   exists q, Variant.Attendance.avgCoverage a = JNum q /\ 0 <= q /\ q <= 100).
Proof.
  unfold Variant.Attendance.processAttendanceData.
  pose proof (variant_location_table_ok data) as Hok.
  destruct (Variant.Locations.processLocationCoverage data) as [lc |]; [| discriminate].
  intros [= <-]. exact (avgCoverage_bounds lc Hok).
Qed.


(** ** The second dashboard: performance metrics *)

Lemma fold_add_bits {A} (f : A -> bool) (l : list A) (n : nat) :
  fold_left (fun acc x => acc + (if f x then 1 else 0))%nat l n = (n + count f l)%nat.
Proof.
  revert n. induction l as [| a l IH]; intro n; cbn [fold_left]; [unfold count; simpl; lia |].
  rewrite IH, count_cons. destruct (f a); lia.
Qed.

Lemma str_is_truthy (v : option string) (lit : string) :
  lit <> "" -> str_is v lit = true -> truthy v = true.
Proof.
  intros Hl. destruct v as [s |]; cbn [str_is truthy]; [| discriminate].
  intro E. apply String.eqb_eq in E. subst s. destruct (String.eqb_spec lit ""); [contradiction | reflexivity].
Qed.

(** X19: in the second dashboard's performance metrics the critical alerts
    are at most the alerts, which are at most the activity records; the
    overall accuracy is NaN when there are no guard statistics, and the
    coverage score is NaN when no attendance record has a Post Name and
    otherwise an integer between 0 and 100. *)
Theorem Variant_processData_performance getHours parseInt act att st :
  Variant.processData getHours parseInt act att = Some st ->
  let pm := Variant.performanceMetrics st in
  (Variant.Performance.criticalAlerts pm <= Variant.Performance.totalAlerts pm <= length act)%nat /\
  (Variant.guardStats st = [] -> Variant.Performance.overallAccuracy pm = JNaN) /\
  (Variant.Attendance.locationCoverage (Variant.attendanceData st) = [] ->
   Variant.Performance.coverageScore pm = JNaN) /\
  (Variant.Attendance.locationCoverage (Variant.attendanceData st) <> [] ->
   in_0_100 (Variant.Performance.coverageScore pm)).
Proof.
  unfold Variant.processData.
  destruct (Variant.Attendance.processAttendanceData att) as [a |] eqn:Ha; [| discriminate].
  destruct (Variant.GuardStats.processGuardStatistics parseInt act att) as [gs |]; [| discriminate].
  intros [= <-]. cbv zeta.
  cbn [Variant.performanceMetrics Variant.guardStats Variant.attendanceData].
  unfold Variant.Performance.calculatePerformanceMetrics.
  cbn [Variant.Performance.criticalAlerts Variant.Performance.totalAlerts
       Variant.Performance.overallAccuracy Variant.Performance.coverageScore].
  rewrite !(fold_add_bits (fun curr => str_is (Variant.alert curr) "Critical")),
          !(fold_add_bits (fun curr => truthy (Variant.alert curr))).
  destruct (Variant_avg_coverage_of a att Ha) as [H0 H1].
  split; [| split; [| split]].
  - split.
    + apply count_impl. intros r. apply str_is_truthy. discriminate.
    + apply count_le_length.
  - intros ->. reflexivity.
  - intro He. rewrite (H0 He). reflexivity.
  - intro Hne. destruct (H1 Hne) as [q [-> [Hlo Hhi]]]. apply round_in_0_100; assumption.
Qed.

(** ** The second dashboard: guard statistics *)

Lemma ratio_sum_in_0_100 (a b : nat) :
  (0 < a + b)%nat ->
  in_0_100 (Math_round (js_mul (js_div (js_of_nat a) (js_add (js_of_nat a) (js_of_nat b))) (JNum 100))).
Proof.
  intro Hab. unfold js_of_nat at 2 3. cbn [js_add].
  assert (Hs : inject_Z (Z.of_nat a) + inject_Z (Z.of_nat b) == inject_Z (Z.of_nat (a + b))).
  { rewrite Nat2Z.inj_add, inject_Z_plus. reflexivity. }
  pose proof (nat_Q_pos _ Hab) as Hp. pose proof (nat_Q_nonneg a). pose proof (nat_Q_nonneg b).
  unfold js_div, js_of_nat at 1.
  replace (Qeq_bool (inject_Z (Z.of_nat a) + inject_Z (Z.of_nat b)) 0) with false.
  2: { symmetry. apply Bool.not_true_iff_false. intro E. apply Qeq_bool_eq in E. lra. }
  destruct (qdiv_bounds (inject_Z (Z.of_nat a)) (inject_Z (Z.of_nat a) + inject_Z (Z.of_nat b)) 1)
    as [Hl Hu]; [lra | lra | lra |].
  cbn [js_mul]. apply round_in_0_100; lra.
Qed.

Lemma variant_guard_table_ok parseInt data :
  opt_pred (all_entries (fun _ g =>
              1 <= Variant.GuardStats.totalActivities g /\
              Variant.GuardStats.onTimeActivities g + Variant.GuardStats.lateActivities g =
                Variant.GuardStats.totalActivities g /\
              Variant.GuardStats.alerts g <= Variant.GuardStats.totalActivities g)%nat)
    (Variant.GuardStats.guard_table parseInt data).
Proof.
  unfold Variant.GuardStats.guard_table. apply fold_opt_pred; [| constructor].
  intros [m |] r _ Hm; cbn [Variant.GuardStats.step]; [| exact I].
  destruct (Variant.service_number r) as [k |]; [| exact Hm].
  destruct (truthy (Some k)); [| exact Hm].
  destruct (obj_get m k) as [g | |] eqn:Hg; [| exact I |].
  - apply all_entries_obj_set; [exact Hm |].
    pose proof (all_entries_obj_get _ m k g Hm Hg) as Hl. cbv beta in Hl |- *.
    unfold Variant.GuardStats.update;
      cbn [Variant.GuardStats.totalActivities Variant.GuardStats.onTimeActivities
           Variant.GuardStats.lateActivities Variant.GuardStats.alerts].
    destruct (str_is (Variant.time_accuracy r) "On Time"), (truthy (Variant.alert r)); lia.
  - apply all_entries_obj_set; [exact Hm |]. cbv beta.
    unfold Variant.GuardStats.update, Variant.GuardStats.seed;
      cbn [Variant.GuardStats.totalActivities Variant.GuardStats.onTimeActivities
           Variant.GuardStats.lateActivities Variant.GuardStats.alerts].
    destruct (str_is (Variant.time_accuracy r) "On Time"), (truthy (Variant.alert r)); lia.
Qed.

(** X20: the guard statistics of the second dashboard are sorted by
    punctuality rate, highest first, and every guard's punctuality rate and
    alert rate are integers between 0 and 100. *)
Theorem Variant_processGuardStatistics_rates parseInt act att gs :
  Variant.GuardStats.processGuardStatistics parseInt act att = Some gs ->
  Sorted (fun a b => num_ge (Variant.GuardStats.punctualityRate a) (Variant.GuardStats.punctualityRate b)) gs /\
  Forall (fun g => in_0_100 (Variant.GuardStats.punctualityRate g) /\
                   in_0_100 (Variant.GuardStats.alertRate g)) gs.
Proof.
  unfold Variant.GuardStats.processGuardStatistics.
  pose proof (variant_guard_table_ok parseInt act) as Hok.
  destruct (Variant.GuardStats.guard_table parseInt act) as [m |]; [| discriminate].
  intros [= <-]. cbn [opt_pred] in Hok.
  assert (Hr : Forall (fun g => in_0_100 (Variant.GuardStats.punctualityRate g) /\
                               in_0_100 (Variant.GuardStats.alertRate g))
                 (map Variant.GuardStats.finalize (object_values m))).
  { apply Forall_map. apply (Forall_perm _ _ _ (Permutation_sym (object_values_perm m))).
    apply Forall_map. refine (Forall_impl _ _ Hok).
    intros [k g] (H1 & H2 & H3). cbn [fst snd] in H1, H2, H3. cbn [snd Variant.GuardStats.finalize
      Variant.GuardStats.punctualityRate Variant.GuardStats.alertRate]. split.
    - apply ratio_sum_in_0_100. lia.
    - apply percent_in_0_100; lia. }
  split.
  - apply (js_sort_desc Variant.GuardStats.punctualityRate).
    apply (Forall_impl _ (P := fun g => in_0_100 (Variant.GuardStats.punctualityRate g) /\
                                       in_0_100 (Variant.GuardStats.alertRate g))); [| exact Hr].
    intros g [[z [Hz _]] _]. exists (inject_Z z). exact Hz.
  - apply (Forall_perm _ _ _ (Permutation_sym (js_sort_perm Variant.GuardStats.punctuality_compare _))). exact Hr.
Qed.

Lemma Variant_processGuardStatistics_rates_witness :
  let gs := match Variant.GuardStats.processGuardStatistics parseInt_model variant_activity variant_attendance with
            | Some gs => gs | None => [] end in
  Sorted (fun a b => num_ge (Variant.GuardStats.punctualityRate a) (Variant.GuardStats.punctualityRate b)) gs /\
  Forall (fun g => in_0_100 (Variant.GuardStats.punctualityRate g) /\
                   in_0_100 (Variant.GuardStats.alertRate g)) gs.
Proof.
  apply (Variant_processGuardStatistics_rates parseInt_model variant_activity variant_attendance).
  vm_compute. reflexivity.
Defined.


Lemma Variant_processData_performance_witness :
  let st := match Variant.processData getHours_model parseInt_model variant_activity variant_attendance with
            | Some st => st
            | None => Variant.mkState [] (Variant.Attendance.mkSummary 0 0 0 [] JNaN) []
                        (Variant.Performance.mkPerformance JNaN 0 0 JNaN) end in
  let pm := Variant.performanceMetrics st in
  (Variant.Performance.criticalAlerts pm <= Variant.Performance.totalAlerts pm <= length variant_activity)%nat /\
  (Variant.guardStats st = [] -> Variant.Performance.overallAccuracy pm = JNaN) /\
  (Variant.Attendance.locationCoverage (Variant.attendanceData st) = [] ->
   Variant.Performance.coverageScore pm = JNaN) /\
  (Variant.Attendance.locationCoverage (Variant.attendanceData st) <> [] ->
   in_0_100 (Variant.Performance.coverageScore pm)).
Proof.
  apply (Variant_processData_performance getHours_model parseInt_model variant_activity variant_attendance).
  vm_compute. reflexivity.
Defined.

(** ** The second dashboard: the guard search *)

Lemma includes_empty (s : string) : includes s "" = true.
Proof. destruct s; reflexivity. Qed.

Lemma filteredGuards_sub toLowerCase term gs gs' :
  Variant.filteredGuards toLowerCase term gs = Some gs' ->
  Forall (fun g => Variant.GuardStats.name (Variant.GuardStats.guard g) <> None) gs /\
  (forall g, In g gs' -> In g gs).
Proof.
  revert gs'. induction gs as [| g gs IH]; intros gs' H; cbn [Variant.filteredGuards] in H.
  - injection H as <-. split; [constructor | intros g []].
  - destruct (Variant.guard_matches toLowerCase term g) as [keep |] eqn:Hm; [| discriminate].
    destruct (Variant.filteredGuards toLowerCase term gs) as [rest |]; [| discriminate].
    cbn [option_map] in H. injection H as <-. destruct (IH rest eq_refl) as [Hn Hin].
    split.
    + constructor; [| exact Hn]. unfold Variant.guard_matches in Hm. intro E. rewrite E in Hm. discriminate.
    + intros x Hx. destruct keep; [destruct Hx as [<- | Hx]; [left; reflexivity |] |]; right; apply Hin; exact Hx.
Qed.

(** X21: the guard search of the second dashboard throws (whatever the
    search term) as soon as one guard has no name; when it does not throw,
    it keeps only guards of its input. *)
Theorem Variant_filteredGuards_result toLowerCase term gs gs' :
  Variant.filteredGuards toLowerCase term gs = Some gs' ->
  Forall (fun g => Variant.GuardStats.name (Variant.GuardStats.guard g) <> None) gs /\
  incl gs' gs.
Proof. exact (filteredGuards_sub toLowerCase term gs gs'). Qed.

Lemma Variant_filteredGuards_result_witness :
  let gs := match Variant.GuardStats.processGuardStatistics parseInt_model
                    [v_act_0815; v_act_0815] variant_attendance with
            | Some gs => gs | None => [] end in
  let gs' := match Variant.filteredGuards toLowerCase_model "gate" gs with Some r => r | None => [] end in
  Forall (fun g => Variant.GuardStats.name (Variant.GuardStats.guard g) <> None) gs /\
  incl gs' gs.
Proof.
  apply (Variant_filteredGuards_result toLowerCase_model "gate").
  vm_compute. reflexivity.
Defined.

(** X22: with an empty search term (and [toLowerCase("")] the empty
    string) the guard search keeps every guard when all guards have a name,
    and throws otherwise. *)
Theorem Variant_filteredGuards_empty_term toLowerCase gs :
  toLowerCase "" = "" ->
  Variant.filteredGuards toLowerCase "" gs =
    if forallb (fun g => match Variant.GuardStats.name (Variant.GuardStats.guard g) with
                         | Some _ => true | None => false end) gs
    then Some gs else None.
Proof.
  intro Hl. induction gs as [| g gs IH]; [reflexivity |]. cbn [Variant.filteredGuards forallb].
  unfold Variant.guard_matches at 1.
  destruct (Variant.GuardStats.name (Variant.GuardStats.guard g)) as [n |]; [| reflexivity].
  rewrite Hl, includes_empty, IH. cbn [andb].
  destruct (forallb _ gs); reflexivity.
Qed.

Lemma Variant_filteredGuards_empty_term_witness :
  let gs := match Variant.GuardStats.processGuardStatistics parseInt_model variant_activity variant_attendance with
            | Some gs => gs | None => [] end in
  Variant.filteredGuards toLowerCase_model "" gs =
    if forallb (fun g => match Variant.GuardStats.name (Variant.GuardStats.guard g) with
                         | Some _ => true | None => false end) gs
    then Some gs else None.
Proof.
  apply (Variant_filteredGuards_empty_term toLowerCase_model). reflexivity.
Defined.

(** ** The date filter of [loadData] *)

Lemma count_all {A} (f : A -> bool) (l : list A) :
  (forall x, In x l -> f x = true) -> count f l = length l.
Proof.
  intro H. induction l as [| a l IH]; [reflexivity |]. rewrite count_cons, (H a (or_introl eq_refl)).
  cbn [length]. rewrite IH; [lia |]. intros x Hx. apply H. right. exact Hx.
Qed.

Lemma includes_nonempty (s d : string) : d <> "" -> includes s d = true -> s <> "".
Proof.
  intros Hd H ->. destruct d as [| c d]; [contradiction | discriminate].
Qed.

(** X23: for a non-empty selected date every activity record the date filter
    keeps has a timestamp, so the hourly buckets together count exactly the
    filtered activity records. *)
Theorem filtered_activity_all_bucketed parseInt getHours selectedDate data :
  selectedDate <> "" ->
  list_sum (map Hourly.total (Hourly.processActivityData parseInt getHours
                               (filter_activity_by_date selectedDate data))) =
    length (filter_activity_by_date selectedDate data).
Proof.
  intro Hd. destruct (processActivityData_totals_lemma parseInt getHours (filter_activity_by_date selectedDate data))
    as [Hs _].
  rewrite Hs. apply count_all. intros r Hr.
  unfold filter_activity_by_date in Hr. apply filter_In in Hr as [_ Hr].
  destruct (date_time r) as [s |]; [| discriminate].
  cbn [truthy]. destruct (String.eqb_spec s ""); [| reflexivity].
  exfalso. exact (includes_nonempty s selectedDate Hd Hr e).
Qed.

Lemma filtered_activity_all_bucketed_witness :
  list_sum (map Hourly.total (Hourly.processActivityData parseInt_model getHours_model
                               (filter_activity_by_date "2024-10-19" sample_activity))) =
    length (filter_activity_by_date "2024-10-19" sample_activity).
Proof.
  apply (filtered_activity_all_bucketed parseInt_model getHours_model "2024-10-19" sample_activity).
  discriminate.
Defined.
